(** * VoiceScan-AI: the recording loop of [App.tsx] and the Gemini request

    A shallow embedding of the two source files of the repository:

    - [services/geminiService] ([analyzeAudioWithGemini], [blobToBase64]),
      module [GeminiService] below;
    - [App.tsx] (the [App] component: [updateMetrics], the status effect,
      [startAnalysisFlow], [stopRecording], [performGeminiAnalysis]),
      module [App] below; the inside of [speakInstructions] and
      [skipInstructions] (voices, resolver, safety timeout), module
      [Instructions].

    The analyzer and the spectrogram component are not among the sources:
    [SpectralAnalyzer] and [SpectrogramBuffer] follow the specification.

    JavaScript numbers are binary64 floats ([PrimFloat.float]); a
    [Uint8Array] is a list of bytes; an [async] function is a computation
    in the monad [Async], which threads the mutable state and ends in a
    settled or pending promise. *)

From Stdlib Require Import List String Ascii Bool Arith ZArith Lia PrimFloat.
From Stdlib Require Import QArith Qround Qminmax.
Import ListNotations.

Close Scope Q_scope.
Local Open Scope string_scope.
Local Open Scope list_scope.

(** ** JavaScript values used by the program *)

Module Js.

(** A thrown value; the program only logs it. *)
Definition JsError := string.

(** The settlement of a promise as an [await] sees it; [Pending] is a
    promise that never settles. *)
Inductive Promise (A : Type) : Type :=
| Fulfilled (a : A)
| Rejected (e : JsError)
| Pending.

Arguments Fulfilled {A} a.
Arguments Rejected {A} e.
Arguments Pending {A}.

(** [string | null | undefined], the type of the spectrogram image in
    [App.tsx]. *)
Inductive JsValue : Type :=
| JUndefined
| JNull
| JString (s : string).

(** Truthiness of an optional string: [undefined] and the empty string are
    falsy. *)
Definition truthy (o : option string) : bool :=
  match o with
  | Some s => negb (String.eqb s "")
  | None => false
  end.

(** [v || undefined] for [v : string | null | undefined]. *)
Definition or_undefined (v : JsValue) : option string :=
  match v with
  | JString s => if String.eqb s "" then None else Some s
  | JNull | JUndefined => None
  end.

(** [s.split(sep)] for a one-character separator. *)
Fixpoint split (sep : ascii) (s : string) : list string :=
  match s with
  | EmptyString => [EmptyString]
  | String c s' =>
      if Ascii.eqb c sep then EmptyString :: split sep s'
      else match split sep s' with
           | piece :: rest => String c piece :: rest
           | [] => [String c EmptyString]
           end
  end.

(** [Some rest] when [s = p ++ rest]. *)
Fixpoint strip_prefix (p s : string) : option string :=
  match p with
  | EmptyString => Some s
  | String a p' =>
      match s with
      | String b s' => if Ascii.eqb a b then strip_prefix p' s' else None
      | EmptyString => None
      end
  end.

(** The first alternative of a regex group that lets the rest match. *)
Fixpoint first_alternative {A B : Type} (f : A -> option B) (alts : list A)
  : option B :=
  match alts with
  | [] => None
  | a :: alts' =>
      match f a with
      | Some b => Some b
      | None => first_alternative f alts'
      end
  end.

(** A binary large object: its MIME type and its bytes. *)
Record Blob : Type := { blob_type : string; blob_bytes : list Byte.byte }.

Definition blob_size (b : Blob) : nat := List.length (blob_bytes b).

(** [new Blob(chunks, { type })]. *)
Definition new_Blob (chunks : list Blob) (type : string) : Blob :=
  {| blob_type := type; blob_bytes := List.concat (map blob_bytes chunks) |}.

End Js.
Export Js.

(** ** Asynchronous functions over a mutable state *)

Module AsyncMonad.

Definition Async (St A : Type) : Type := St -> Promise A * St.

Definition ret {St A : Type} (a : A) : Async St A :=
  fun s => (Fulfilled a, s).

Definition bind {St A B : Type} (m : Async St A) (k : A -> Async St B)
  : Async St B :=
  fun s =>
    match m s with
    | (Fulfilled a, s') => k a s'
    | (Rejected e, s') => (Rejected e, s')
    | (Pending, s') => (Pending, s')
    end.

(** [throw e]. *)
Definition throw {St A : Type} (e : JsError) : Async St A :=
  fun s => (Rejected e, s).

(** [await p]: the value of a fulfilled promise, the reason of a rejected
    one thrown, and no continuation for one that never settles. *)
Definition await {St A : Type} (p : Promise A) : Async St A :=
  fun s => (p, s).

(** A statement that only changes the state. *)
Definition exec {St : Type} (f : St -> St) : Async St unit :=
  fun s => (Fulfilled tt, f s).

(** [try { body } catch (e) { handler e }]. *)
Definition try_catch {St A : Type} (body : Async St A)
  (handler : JsError -> Async St A) : Async St A :=
  fun s =>
    match body s with
    | (Rejected e, s') => handler e s'
    | r => r
    end.

End AsyncMonad.
Export AsyncMonad.

Declare Scope async_scope.
Delimit Scope async_scope with async.
Notation "x <- m ;; k" := (bind m (fun x => k))
  (at level 61, m at next level, right associativity) : async_scope.
Notation "m ;;; k" := (bind m (fun _ => k))
  (at level 61, right associativity) : async_scope.

(** ** services/geminiService *)

Module GeminiService.

Local Open Scope async_scope.

Definition dquote : string := String (ascii_of_nat 34) EmptyString.

Definition SYSTEM_PROMPT : string :=
"
Você é um especialista em fonoaudiologia, engenharia de áudio e análise espectral. 
Sua tarefa é analisar o arquivo de áudio fornecido contendo fala humana e, se disponível, a imagem do seu espectrograma.
Forneça uma análise concisa, estruturada e profissional cobrindo os seguintes pontos:

1.  **Características Vocais**: Descreva o timbre (ex: rouco, aveludado, estridente, anasalado, soproso).
2.  **Tonalidade e Pitch**: Classifique a voz (Grave, Médio, Agudo) e estime a estabilidade.
3.  **Dinâmica e Intensidade**: A voz varia bem o volume ou é monótona?
4.  **Emoção/Intenção**: Qual a emoção transmitida (calma, ansiosa, autoritária, hesitante)?
5.  **Análise do Espectrograma**: Analise visualmente o espectrograma.
    - **Harmônicos**: Linhas horizontais nítidas e paralelas indicam boa periodicidade e voz limpa?
    - **Ruído**: Presença de " ++ dquote ++ "borrões" ++ dquote ++ " ou estática entre os harmônicos (indício de soprosidade ou ruído de fundo)?
    - **Estabilidade**: As linhas são contínuas ou quebradas/trêmulas (jitter/shimmer)?
    - **Formantes**: Há regiões de energia concentrada bem definidas?
6.  **Recomendação Rápida**: Uma dica breve para melhoria da comunicação ou saúde vocal.

Formate a resposta usando Markdown. Use emojis para ilustrar os pontos principais. Seja técnico mas acessível.
".

(** The request sent to [ai.models.generateContent]. *)
Record InlineData : Type := { mimeType : string; data : option string }.

Inductive Part : Type :=
| InlinePart (inlineData : InlineData)
| TextPart (text : string).

Record GenerateContentConfig : Type :=
  { systemInstruction : string; temperature : float }.

Record GenerateContentParameters : Type :=
  { model : string; parts : list Part; config : GenerateContentConfig }.

(** What the function asks of its surroundings: the environment variable,
    the [FileReader] and the remote model.  [readAsDataURL] is fulfilled
    with [reader.result] at [loadend] and rejected at [error];
    [generateContent] is fulfilled with [response.text]. *)
Record Env : Type :=
  { API_KEY : option string;
    readAsDataURL : Blob -> Promise string;
    generateContent : string -> GenerateContentParameters -> Promise (option string) }.

(** The calls the function makes, in order. *)
Inductive Call : Type :=
| CallReadAsDataURL (blob : Blob)
| CallGenerateContent (apiKey : string) (request : GenerateContentParameters)
| CallConsoleError (label : string) (error : JsError).

Definition call (c : Call) : Async (list Call) unit :=
  exec (fun log => log ++ [c]).

Definition audio_prompt : string :=
  "Analise este áudio focando nas características da voz.".

Definition audio_image_prompt : string :=
  "Analise o áudio e a imagem do espectrograma anexada. Correlacione o que você ouve com os padrões visuais no espectrograma (ex: harmônicos, ruído).".

Definition no_analysis_message : string :=
  "Não foi possível gerar uma análise.".

Definition error_message : string :=
  "Erro ao conectar com a IA. Verifique sua chave de API ou tente novamente.".

(** [spectrogramBase64.replace(/^data:image\/(png|jpg|jpeg);base64,/, ...)]
    with the empty string as replacement. *)
Definition strip_image_header (s : string) : string :=
  match strip_prefix "data:image/" s with
  | None => s
  | Some r =>
      match first_alternative
              (fun ext =>
                 match strip_prefix ext r with
                 | Some r' => strip_prefix ";base64," r'
                 | None => None
                 end)
              ["png"; "jpg"; "jpeg"] with
      | Some rest => rest
      | None => s
      end
  end.

(** [blobToBase64]: the part of the data URL between its first and second
    comma, [undefined] when there is none. *)
Definition blobToBase64 (env : Env) (blob : Blob)
  : Async (list Call) (option string) :=
  call (CallReadAsDataURL blob) ;;;
  result <- await (readAsDataURL env blob) ;;
  ret (nth_error (split "," result) 1).

(** The parts of the request (lines 32-56): the audio, the image when
    [spectrogramBase64] is truthy, and the prompt. *)
Definition build_parts (audioBlob : Blob) (base64Audio : option string)
  (spectrogramBase64 : option string) : list Part :=
  let parts0 :=
    [InlinePart {| mimeType := blob_type audioBlob; data := base64Audio |}] in
  let promptText0 := audio_prompt in
  let '(parts1, promptText) :=
    if truthy spectrogramBase64 then
      let base64Image :=
        strip_image_header
          (match spectrogramBase64 with Some i => i | None => "" end) in
      (parts0 ++ [InlinePart {| mimeType := "image/png";
                                data := Some base64Image |}],
       audio_image_prompt)
    else (parts0, promptText0) in
  parts1 ++ [TextPart promptText].

(** The argument of [generateContent] (lines 58-67). *)
Definition build_request (request_parts : list Part)
  : GenerateContentParameters :=
  {| model := "gemini-2.5-flash";
     parts := request_parts;
     config := {| systemInstruction := SYSTEM_PROMPT;
                  temperature := 0x1.999999999999ap-2%float |} |}.

(** The [try] block of [analyzeAudioWithGemini] (lines 24-69). *)
Definition analyze_try (env : Env) (audioBlob : Blob)
  (spectrogramBase64 : option string) : Async (list Call) string :=
  apiKey <- (if truthy (API_KEY env)
             then ret (match API_KEY env with Some k => k | None => "" end)
             else throw "API Key not found") ;;
  base64Audio <- blobToBase64 env audioBlob ;;
  let request :=
    build_request (build_parts audioBlob base64Audio spectrogramBase64) in
  call (CallGenerateContent apiKey request) ;;;
  response_text <- await (generateContent env apiKey request) ;;
  ret (if truthy response_text
       then match response_text with Some t => t | None => "" end
       else no_analysis_message).

(** [analyzeAudioWithGemini] (lines 22-75). *)
Definition analyzeAudioWithGemini (env : Env) (audioBlob : Blob)
  (spectrogramBase64 : option string) : Async (list Call) string :=
  try_catch
    (analyze_try env audioBlob spectrogramBase64)
    (fun error =>
       call (CallConsoleError "Gemini Analysis Error:" error) ;;;
       ret error_message).

(** The requests among the calls of a log. *)
Fixpoint sent_requests (l : list Call) : list GenerateContentParameters :=
  match l with
  | [] => []
  | CallGenerateContent _ request :: l' => request :: sent_requests l'
  | _ :: l' => sent_requests l'
  end.

End GeminiService.

(** ** App.tsx *)

Module App.

Local Open Scope async_scope.

(** [AnalysisStatus] and [AudioMetrics] of [./types], as [App.tsx] uses
    them. *)
Inductive AnalysisStatus : Type :=
| IDLE
| RECORDING
| PROCESSING
| COMPLETED
| ERROR.

Definition status_eqb (a b : AnalysisStatus) : bool :=
  match a, b with
  | IDLE, IDLE | RECORDING, RECORDING | PROCESSING, PROCESSING
  | COMPLETED, COMPLETED | ERROR, ERROR => true
  | _, _ => false
  end.

Record AudioMetrics : Type :=
  { pitch : float; volume : float; clarity : float }.

(** The [AudioAnalyzer] of [./services/audioAnalyzer] as the component
    sees it: what its three getters return at this moment.  The class is
    not part of the sources; the audio input decides these values. *)
Record AudioAnalyzer : Type :=
  { getPitch : float;
    getVolume : float;
    getFrequencyData : list Byte.byte }.

Definition MediaStream := nat.

Inductive RecordingState : Type :=
| inactive
| recording
| paused.

Definition is_inactive (s : RecordingState) : bool :=
  match s with inactive => true | _ => false end.

(** A [MediaRecorder]: its state, the spectrogram image its [onstop]
    handler closes over (when the handler is set), and whether [stop()]
    has queued a [stop] event that has not fired yet. *)
Record MediaRecorder : Type :=
  { stream : MediaStream;
    state : RecordingState;
    onstop : option JsValue;
    stop_queued : bool }.

(** What the component does to its surroundings and to its own React
    state, in order. *)
Inductive Effect : Type :=
| AnalyzerGetPitch
| AnalyzerGetVolume
| AnalyzerGetFrequencyData
| AnalyzerStart
| AnalyzerStop
| SetStatus (s : AnalysisStatus)
| SetMetrics (m : AudioMetrics)
| SetFrequencyData (d : list Byte.byte)
| SetGeminiAnalysis (a : option string)
| SetIsSpeakingInstructions (b : bool)
| RequestAnimationFrame (id : nat)
| CancelAnimationFrame (id : nat)
| SpeechSynthesisCancel
| SpeechSynthesisSpeak (text : string)
| NewMediaRecorder (s : MediaStream)
| RecorderStart
| RecorderStop
| GetCanvasImage (v : JsValue)
| ConsoleError (label : string) (e : JsError)
| Alert (msg : string)
| AnalyzeAudioWithGemini (blob : Blob) (img : option string)
    (calls : list GeminiService.Call).

(** The component and the browser around it.  [frames] is the browser's
    list of animation frame callbacks: each is an [updateMetrics] closure,
    known by the request id and by the [status] of the render that
    created the closure. *)
Record World : Type :=
  { (* useState *)
    status : AnalysisStatus;
    metrics : AudioMetrics;
    frequencyData : list Byte.byte;
    geminiAnalysis : option string;
    isSpeakingInstructions : bool;
    (* useRef *)
    mediaRecorderRef : option MediaRecorder;
    chunksRef : list Blob;
    animationRef : option nat;
    (* the browser and the collaborators *)
    frames : list (nat * AnalysisStatus);
    nextFrameId : nat;
    analyzer : AudioAnalyzer;
    (* what [spectrogramRef.current?.getCanvasImage()] evaluates to now *)
    spectrogramImage : JsValue;
    log : list Effect }.

(** Assignments to one field. *)
Definition set_status (v : AnalysisStatus) (w : World) : World :=
  let '(Build_World _ me fd ga sp mr ch ar fr nf an si lg) := w in
  Build_World v me fd ga sp mr ch ar fr nf an si lg.

Definition set_metrics (v : AudioMetrics) (w : World) : World :=
  let '(Build_World st _ fd ga sp mr ch ar fr nf an si lg) := w in
  Build_World st v fd ga sp mr ch ar fr nf an si lg.

Definition set_frequencyData (v : list Byte.byte) (w : World) : World :=
  let '(Build_World st me _ ga sp mr ch ar fr nf an si lg) := w in
  Build_World st me v ga sp mr ch ar fr nf an si lg.

Definition set_geminiAnalysis (v : option string) (w : World) : World :=
  let '(Build_World st me fd _ sp mr ch ar fr nf an si lg) := w in
  Build_World st me fd v sp mr ch ar fr nf an si lg.

Definition set_isSpeakingInstructions (v : bool) (w : World) : World :=
  let '(Build_World st me fd ga _ mr ch ar fr nf an si lg) := w in
  Build_World st me fd ga v mr ch ar fr nf an si lg.

Definition set_mediaRecorderRef (v : option MediaRecorder) (w : World) : World :=
  let '(Build_World st me fd ga sp _ ch ar fr nf an si lg) := w in
  Build_World st me fd ga sp v ch ar fr nf an si lg.

Definition set_chunksRef (v : list Blob) (w : World) : World :=
  let '(Build_World st me fd ga sp mr _ ar fr nf an si lg) := w in
  Build_World st me fd ga sp mr v ar fr nf an si lg.

Definition set_animationRef (v : option nat) (w : World) : World :=
  let '(Build_World st me fd ga sp mr ch _ fr nf an si lg) := w in
  Build_World st me fd ga sp mr ch v fr nf an si lg.

Definition set_frames (v : list (nat * AnalysisStatus)) (w : World) : World :=
  let '(Build_World st me fd ga sp mr ch ar _ nf an si lg) := w in
  Build_World st me fd ga sp mr ch ar v nf an si lg.

Definition set_nextFrameId (v : nat) (w : World) : World :=
  let '(Build_World st me fd ga sp mr ch ar fr _ an si lg) := w in
  Build_World st me fd ga sp mr ch ar fr v an si lg.

Definition set_analyzer (v : AudioAnalyzer) (w : World) : World :=
  let '(Build_World st me fd ga sp mr ch ar fr nf _ si lg) := w in
  Build_World st me fd ga sp mr ch ar fr nf v si lg.

Definition set_spectrogramImage (v : JsValue) (w : World) : World :=
  let '(Build_World st me fd ga sp mr ch ar fr nf an _ lg) := w in
  Build_World st me fd ga sp mr ch ar fr nf an v lg.

(** The effect [e] happened. *)
Definition emit (e : Effect) (w : World) : World :=
  let '(Build_World st me fd ga sp mr ch ar fr nf an si lg) := w in
  Build_World st me fd ga sp mr ch ar fr nf an si (lg ++ [e]).

(** *** The browser's animation frames *)

(** [requestAnimationFrame(callback)]: a fresh non-zero id, the callback
    appended to the list. *)
Definition requestAnimationFrame (callback : AnalysisStatus) (w : World)
  : nat * World :=
  let id := nextFrameId w in
  (id,
   set_nextFrameId (S id)
     (set_frames (frames w ++ [(id, callback)])
        (emit (RequestAnimationFrame id) w))).

(** [cancelAnimationFrame(id)]. *)
Definition cancelAnimationFrame (id : nat) (w : World) : World :=
  set_frames (filter (fun f => negb (Nat.eqb (fst f) id)) (frames w))
    (emit (CancelAnimationFrame id) w).

(** [if (animationRef.current) cancelAnimationFrame(animationRef.current)]:
    [undefined] and [0] are falsy. *)
Definition cancel_current (w : World) : World :=
  match animationRef w with
  | Some id => if Nat.eqb id 0 then w else cancelAnimationFrame id w
  | None => w
  end.

(** *** React state setters *)

Definition setMetrics (m : AudioMetrics) (w : World) : World :=
  set_metrics m (emit (SetMetrics m) w).

Definition setFrequencyData (d : list Byte.byte) (w : World) : World :=
  set_frequencyData d (emit (SetFrequencyData d) w).

Definition setGeminiAnalysis (a : option string) (w : World) : World :=
  set_geminiAnalysis a (emit (SetGeminiAnalysis a) w).

Definition setIsSpeakingInstructions (b : bool) (w : World) : World :=
  set_isSpeakingInstructions b (emit (SetIsSpeakingInstructions b) w).

(** *** [updateMetrics] (lines 31-44)

    [status_seen] is the [status] the closure was created with
    ([useCallback] with dependency [status]). *)
Definition updateMetrics (status_seen : AnalysisStatus) (w : World)
  : World :=
  if status_eqb status_seen RECORDING then
    let w1 := emit AnalyzerGetPitch w in
    let pitch := getPitch (analyzer w1) in
    let w2 := emit AnalyzerGetVolume w1 in
    let volume := getVolume (analyzer w2) in
    let w3 := emit AnalyzerGetFrequencyData w2 in
    let freqData := getFrequencyData (analyzer w3) in
    let w4 :=
      setMetrics {| pitch := pitch; volume := volume; clarity := 0 |} w3 in
    let w5 := setFrequencyData freqData w4 in
    let '(id, w6) := requestAnimationFrame status_seen w5 in
    set_animationRef (Some id) w6
  else w.

(** *** The status effect (lines 46-57)

    [setStatus] with the value the state already has renders nothing anew.
    Otherwise the component renders with the new [status], [updateMetrics]
    is a new closure, the cleanup of the previous effect runs and then the
    effect itself.  The update is committed where [setStatus] is called:
    every call in the component is the last state update of its handler. *)
Definition status_effect_cleanup (w : World) : World := cancel_current w.

Definition status_effect (w : World) : World :=
  if status_eqb (status w) RECORDING then updateMetrics (status w) w
  else cancel_current w.

Definition setStatus (s : AnalysisStatus) (w : World) : World :=
  let w1 := emit (SetStatus s) w in
  if status_eqb (status w1) s then w1
  else status_effect (set_status s (status_effect_cleanup w1)).

(** The browser runs the callbacks that were in its list when the frame
    began; callbacks requested meanwhile wait for the next frame. *)
Definition runAnimationFrame (w : World) : World :=
  fold_left (fun w' cb => updateMetrics (snd cb) w') (frames w)
    (set_frames [] w).

(** *** [speakInstructions] and [skipInstructions] (lines 70-143)

    The promise is resolved by [skipInstructions], which every way out
    calls: the end of the utterance, its error, the 10 s timeout, a throw
    of [speak], the skip button.  The choice of a voice changes the
    utterance only. *)
Definition instructions_text : string :=
  "Para análise perfeita, leia a frase na tela. Varie a entonação do grave ao agudo. Comece agora.".

Definition skipInstructions (w : World) : World :=
  setIsSpeakingInstructions false (emit SpeechSynthesisCancel w).

Definition speakInstructions : Async World unit :=
  exec (emit SpeechSynthesisCancel) ;;;
  exec (setIsSpeakingInstructions true) ;;;
  exec (emit (SpeechSynthesisSpeak instructions_text)) ;;;
  exec skipInstructions.

(** *** [startAnalysisFlow] (lines 145-175) *)

(** What the surroundings answer during the flow: the promise of
    [analyzer.start()], and the exception [new MediaRecorder(stream)] or
    [recorder.start()] throws, if any. *)
Record StartEnv : Type :=
  { analyzer_start : Promise MediaStream;
    new_MediaRecorder_throws : option JsError;
    recorder_start_throws : option JsError }.

Definition may_throw (o : option JsError) : Async World unit :=
  match o with
  | Some e => throw e
  | None => ret tt
  end.

Definition start_error_message : string :=
  "Erro ao iniciar. Verifique permissões de microfone.".

Definition startAnalysisFlow (env : StartEnv) : Async World unit :=
  try_catch
    (exec (setGeminiAnalysis None) ;;;
     exec (emit AnalyzerStart) ;;;
     stream <- await (analyzer_start env) ;;
     speakInstructions ;;;
     exec (emit (NewMediaRecorder stream)) ;;;
     may_throw (new_MediaRecorder_throws env) ;;;
     let recorder :=
       {| stream := stream; state := inactive; onstop := None;
          stop_queued := false |} in
     exec (set_mediaRecorderRef (Some recorder)) ;;;
     exec (set_chunksRef []) ;;;
     exec (emit RecorderStart) ;;;
     may_throw (recorder_start_throws env) ;;;
     exec (set_mediaRecorderRef
             (Some {| stream := stream; state := recording; onstop := None;
                      stop_queued := false |})) ;;;
     exec (setStatus RECORDING))
    (fun err =>
       exec (emit (ConsoleError "Error flow:" err)) ;;;
       exec (emit (Alert start_error_message)) ;;;
       exec (setStatus IDLE)).

(** [recorder.ondataavailable] (lines 161-165). *)
Definition ondataavailable (data : Blob) (w : World) : World :=
  if Nat.ltb 0 (blob_size data) then set_chunksRef (chunksRef w ++ [data]) w
  else w.

(** *** [performGeminiAnalysis] (lines 197-206) *)
Definition performGeminiAnalysis (genv : GeminiService.Env)
  (audioBlob : Blob) (spectrogramImage : JsValue) : Async World unit :=
  try_catch
    (let img := or_undefined spectrogramImage in
     let '(promise, calls) :=
       GeminiService.analyzeAudioWithGemini genv audioBlob img [] in
     exec (emit (AnalyzeAudioWithGemini audioBlob img calls)) ;;;
     result <- await promise ;;
     exec (setGeminiAnalysis (Some result)) ;;;
     exec (setStatus COMPLETED))
    (fun _ =>
       exec (setGeminiAnalysis (Some "Falha na análise da IA.")) ;;;
       exec (setStatus ERROR)).

(** *** [stopRecording] (lines 177-195) *)
Definition stopRecording : Async World unit :=
  exec (emit SpeechSynthesisCancel) ;;;
  (fun w =>
     match mediaRecorderRef w with
     | Some r =>
         if is_inactive (state r) then ret tt w
         else
           (let spectrogramImage := spectrogramImage w in
            exec (emit (GetCanvasImage spectrogramImage)) ;;;
            exec (emit RecorderStop) ;;;
            exec (set_mediaRecorderRef
                    (Some {| stream := stream r; state := inactive;
                             onstop := onstop r; stop_queued := true |})) ;;;
            exec (emit AnalyzerStop) ;;;
            exec (setStatus PROCESSING) ;;;
            exec (set_mediaRecorderRef
                    (Some {| stream := stream r; state := inactive;
                             onstop := Some spectrogramImage;
                             stop_queued := true |}))) w
     | None => ret tt w
     end).

(** The [stop] event of the recorder in [mediaRecorderRef]: its [onstop]
    handler builds the blob from the chunks and awaits the analysis. *)
Definition recorder_stop_event (genv : GeminiService.Env) (w : World)
  : World :=
  match mediaRecorderRef w with
  | Some r =>
      if stop_queued r then
        let w1 :=
          set_mediaRecorderRef
            (Some {| stream := stream r; state := state r;
                     onstop := onstop r; stop_queued := false |}) w in
        match onstop r with
        | Some spectrogramImage =>
            let blob := new_Blob (chunksRef w1) "audio/webm" in
            snd (performGeminiAnalysis genv blob spectrogramImage w1)
        | None => w1
        end
      else w
  | None => w
  end.

(** *** What happens to the mounted component *)

(** The events of a run.  [ClickStart env] runs the whole start flow with
    what the surroundings answer to it ([env]): a flow left pending at
    [analyzer.start()] is not resumed by a later event.  The recorder
    changes its state through [start()] and [stop()] only: the browser
    ending it by itself, when its tracks end, is not an event. *)
Inductive Event : Type :=
| ClickStart (env : StartEnv)
| ClickStop
| ClickClear
| AnimationFrame
| DataAvailable (data : Blob)
| RecorderStopped (genv : GeminiService.Env)
| AudioInput (a : AudioAnalyzer)
| CanvasPainted (img : JsValue).

(** The main button is PARAR ANÁLISE ([stopRecording]) while [status] is
    [RECORDING] and INICIAR TESTE ([startAnalysisFlow]) otherwise, the
    latter disabled while [PROCESSING] or while the instructions are
    spoken (lines 291-330); the button that clears the report exists while
    there is a report (lines 333-357). *)
Definition step (e : Event) (w : World) : World :=
  match e with
  | ClickStart env =>
      if status_eqb (status w) RECORDING
         || status_eqb (status w) PROCESSING
         || isSpeakingInstructions w
      then w
      else snd (startAnalysisFlow env w)
  | ClickStop =>
      if status_eqb (status w) RECORDING then snd (stopRecording w) else w
  | ClickClear =>
      if truthy (geminiAnalysis w) then setGeminiAnalysis None w else w
  | AnimationFrame => runAnimationFrame w
  | DataAvailable d =>
      match mediaRecorderRef w with
      | Some _ => ondataavailable d w
      | None => w
      end
  | RecorderStopped genv => recorder_stop_event genv w
  | AudioInput a => set_analyzer a w
  | CanvasPainted img => set_spectrogramImage img w
  end.

Definition run (evs : list Event) (w : World) : World :=
  fold_left (fun w' e => step e w') evs w.

(** The component as mounted: the initial state of lines 16-29, no
    animation frame requested, the effect of the first render finding
    [animationRef.current] undefined. *)
Definition init : World :=
  {| status := IDLE;
     metrics := {| pitch := 0; volume := -100; clarity := 0 |};
     frequencyData := [];
     geminiAnalysis := None;
     isSpeakingInstructions := false;
     mediaRecorderRef := None;
     chunksRef := [];
     animationRef := None;
     frames := [];
     nextFrameId := 1;
     analyzer := {| getPitch := 0; getVolume := -100;
                    getFrequencyData := [] |};
     spectrogramImage := JUndefined;
     log := [] |}.

(** The effects of a log that are ticks: a tick begins by reading the
    pitch from the analyzer. *)
Definition is_tick (e : Effect) : bool :=
  match e with AnalyzerGetPitch => true | _ => false end.

Definition ticks (l : list Effect) : nat := List.length (filter is_tick l).

(** The captures of the spectrogram and the analysis requests of a log. *)
Definition is_capture (e : Effect) : bool :=
  match e with GetCanvasImage _ => true | _ => false end.

Definition captures (l : list Effect) : nat :=
  List.length (filter is_capture l).

Fixpoint analysis_requests (l : list Effect) : list (Blob * option string) :=
  match l with
  | [] => []
  | AnalyzeAudioWithGemini blob img _ :: l' =>
      (blob, img) :: analysis_requests l'
  | _ :: l' => analysis_requests l'
  end.

End App.

(** ** The spectrogram buffer of the specification

    [components/Spectrogram] is not part of the sources; the buffer below
    follows sections 3 and 4.3 of the specification. *)

Module SpectrogramBuffer.

Section Buffer.

Variable Pixel : Type.

(** The fixed colour ramp, from a magnitude to a pixel. *)
Variable colorRamp : Z -> Pixel.

(** Modelled from the spec: the SpectrogramImage of section 3, a fixed
    number [width] of visible time columns, the oldest column first. *)
Record SpectrogramImage : Type :=
  { width : nat; columns : list (list Pixel) }.

(** Modelled from the spec: the column of a snapshot (section 4.3), its
    magnitudes through the colour ramp, inverted so that the low
    frequencies are at the bottom. *)
Definition toColumn (snapshot : list Z) : list Pixel :=
  rev (map colorRamp snapshot).

(** Modelled from the spec: [appendColumn] of section 4.3.  When the
    number of columns has reached the configured width, appending a new
    column evicts the oldest one. *)
Definition appendColumn (snapshot : list Z) (b : SpectrogramImage)
  : SpectrogramImage :=
  let kept :=
    if Nat.leb (width b) (List.length (columns b)) then tl (columns b)
    else columns b in
  {| width := width b; columns := kept ++ [toColumn snapshot] |}.

Definition appendColumns (snapshots : list (list Z)) (b : SpectrogramImage)
  : SpectrogramImage :=
  fold_left (fun b' s => appendColumn s b') snapshots b.

(** The invariant of section 3: the width is a number of visible columns
    and the image never holds more. *)
Definition well_formed (b : SpectrogramImage) : Prop :=
  0 < width b /\ List.length (columns b) <= width b.

End Buffer.

Arguments width {Pixel} _.
Arguments columns {Pixel} _.
Arguments toColumn {Pixel} _ _.
Arguments appendColumn {Pixel} _ _ _.
Arguments appendColumns {Pixel} _ _ _.
Arguments well_formed {Pixel} _.

End SpectrogramBuffer.

(** ** The spectral analyzer of the specification

    [services/audioAnalyzer] is not part of the sources; [analyze] below
    follows section 4.2 of the specification over exact rationals.  What
    the specification leaves to the implementation is a variable of the
    section: the kernel of the frequency transform, the loudness scale,
    the scale of the snapshot, the lags searched and the confidence
    threshold. *)

Module SpectralAnalyzer.

Local Open Scope Q_scope.

Record Metrics : Type := { pitch : Q; volume : Q; clarity : Q }.

Section Analyzer.

Variables cos_kernel sin_kernel : nat -> nat -> Q.
Variable snapshot_scale : Q.
Variable loudness : Q -> Q.
Variable sampleRate : Q.
Variables minLag maxLag : nat.
Variable confidence : Q.

Definition AudioWindow := list Q.

Definition silence_floor : Q := -100.

Definition sum (xs : list Q) : Q := fold_right Qplus 0 xs.

(** The sum of [x_n * k n] over the window. *)
Fixpoint correlate (k : nat -> Q) (n : nat) (xs : list Q) : Q :=
  match xs with
  | [] => 0
  | x :: xs' => x * k n + correlate k (S n) xs'
  end.

(** Modelled from the spec: the magnitude of one frequency bin, as the
    squared modulus of the transform. *)
Definition bin_energy (window : AudioWindow) (k : nat) : Q :=
  let re := correlate (cos_kernel k) 0 window in
  let im := correlate (sin_kernel k) 0 window in
  re * re + im * im.

(** Modelled from the spec: normalization to the fixed range 0-255. *)
Definition normalize (e : Q) : Z :=
  Z.min 255 (Z.max 0 (Qfloor (snapshot_scale * e))).

(** Modelled from the spec: the SpectralSnapshot, one magnitude per bin,
    half as many bins as samples. *)
Definition snapshot (window : AudioWindow) : list Z :=
  map (fun k => normalize (bin_energy window k))
    (seq 0 (Nat.div2 (List.length window))).

(** The autocorrelation of the window at a lag. *)
Fixpoint autocorrelation (lag : nat) (xs : list Q) : Q :=
  match xs with
  | [] => 0
  | x :: xs' => x * nth lag xs 0 + autocorrelation lag xs'
  end.

Definition Qlt_bool (a b : Q) : bool := negb (Qle_bool b a).

(** The lag of the largest autocorrelation among [lags], after [best]. *)
Fixpoint best_lag (window : AudioWindow) (best : nat) (lags : list nat)
  : nat :=
  match lags with
  | [] => best
  | l :: lags' =>
      if Qlt_bool (autocorrelation best window) (autocorrelation l window)
      then best_lag window l lags'
      else best_lag window best lags'
  end.

(** Modelled from the spec: the pitch estimate, the dominant periodicity
    of the window by autocorrelation, 0 when no peak exceeds the
    confidence threshold. *)
Definition estimate_pitch (window : AudioWindow) : Q :=
  let lag := best_lag window minLag (seq (S minLag) (maxLag - minLag)) in
  if Qlt_bool (confidence * autocorrelation 0 window)
       (autocorrelation lag window)
  then sampleRate / inject_Z (Z.of_nat lag)
  else 0.

(** Modelled from the spec: the volume, the mean square energy of the
    window on the loudness scale, clamped to the silence floor. *)
Definition estimate_volume (window : AudioWindow) : Q :=
  let energy :=
    autocorrelation 0 window / inject_Z (Z.of_nat (List.length window)) in
  if Qeq_bool energy 0 then silence_floor
  else Qmax silence_floor (loudness energy).

(** Modelled from the spec: the clarity, the peak of the snapshot against
    all of it, in [0,1], and 0 when undeterminable. *)
Definition estimate_clarity (snap : list Z) : Q :=
  let total := fold_right Z.add 0%Z snap in
  let peak := fold_right Z.max 0%Z snap in
  if Z.leb total 0 then 0 else inject_Z peak / inject_Z total.

(** Modelled from the spec: [analyze] of section 4.2. *)
Definition analyze (window : AudioWindow) : list Z * Metrics :=
  let snap := snapshot window in
  (snap,
   {| pitch := estimate_pitch window;
      volume := estimate_volume window;
      clarity := estimate_clarity snap |}).

Definition silent (window : AudioWindow) : Prop :=
  Forall (fun x => x == 0) window.

End Analyzer.

End SpectralAnalyzer.

(** ** The analysis request as the specification words it

    The request that carries the audio part alone with the audio-only
    prompt when the image argument is absent, and the audio part, the
    image part with any data-URL header stripped and the audio-plus-image
    prompt when it is present.  It is compared below with the request
    [GeminiService.analyzeAudioWithGemini] sends. *)

Module RequestAsStated.

Import GeminiService.

(** The string without its data-URL header [data:<anything>,]. *)
Definition strip_data_url_header (s : string) : string :=
  match strip_prefix "data:" s with
  | Some _ =>
      match split "," s with
      | _ :: payload :: _ => payload
      | _ => s
      end
  | None => s
  end.

Definition stated_parts (audioType : string) (base64Audio : option string)
  (image : option string) : list Part :=
  let audio :=
    InlinePart {| mimeType := audioType; data := base64Audio |} in
  match image with
  | None => [audio; TextPart audio_prompt]
  | Some img =>
      [audio;
       InlinePart {| mimeType := "image/png";
                     data := Some (strip_data_url_header img) |};
       TextPart audio_image_prompt]
  end.

End RequestAsStated.


(** ** The analysis loop of [App]: invariant and shape of a step *)

Module AppLoop.

Import App.

(** While [RECORDING] exactly one tick is scheduled, the one
    [animationRef] names, and its closure has seen [RECORDING]; otherwise
    none is. *)
Definition Inv (w : World) : Prop :=
  0 < nextFrameId w /\
  (status w = RECORDING ->
   exists id, animationRef w = Some id /\ id <> 0 /\
              frames w = [(id, RECORDING)]) /\
  (status w <> RECORDING -> frames w = []).

(** The effects of the loop itself: those of [updateMetrics] and of the
    status effect. *)
Definition loop_effect (e : Effect) : bool :=
  match e with
  | AnalyzerGetPitch | AnalyzerGetVolume | AnalyzerGetFrequencyData
  | SetMetrics _ | SetFrequencyData _
  | RequestAnimationFrame _ | CancelAnimationFrame _ | SetStatus _ => true
  | _ => false
  end.

Definition quiet_effect (e : Effect) : bool := negb (loop_effect e).

(** [w'] continues the log of [w] with effects that satisfy [p]. *)
Definition extends (p : Effect -> bool) (w w' : World) : Prop :=
  exists l, log w' = log w ++ l /\ forallb p l = true.

(** A change that leaves the loop alone. *)
Definition quiet (w w' : World) : Prop :=
  status w' = status w /\ metrics w' = metrics w /\
  frames w' = frames w /\ animationRef w' = animationRef w /\
  nextFrameId w' = nextFrameId w /\ extends quiet_effect w w'.

(** A change made by the loop: it leaves the recorder, the chunks and the
    collaborators alone. *)
Definition loop_change (w w' : World) : Prop :=
  mediaRecorderRef w' = mediaRecorderRef w /\
  chunksRef w' = chunksRef w /\
  geminiAnalysis w' = geminiAnalysis w /\
  isSpeakingInstructions w' = isSpeakingInstructions w /\
  analyzer w' = analyzer w /\
  spectrogramImage w' = spectrogramImage w /\
  extends loop_effect w w'.

(** Every step is quiet but for at most one [setStatus] or one animation
    frame. *)
Inductive shape (w w' : World) : Prop :=
| shape_quiet : quiet w w' -> shape w w'
| shape_status (s : AnalysisStatus) (w1 : World) :
    quiet w w1 -> quiet (setStatus s w1) w' -> shape w w'
| shape_frame : w' = runAnimationFrame w -> shape w w'.

(** The published metrics have clarity 0, now and in every [setMetrics]
    of the log. *)
Definition clarity_zero (e : Effect) : Prop :=
  match e with
  | SetMetrics m => clarity m = 0%float
  | _ => True
  end.

Definition Clar (w : World) : Prop :=
  clarity (metrics w) = 0%float /\ Forall clarity_zero (log w).

(** The world [updateMetrics] leaves when its closure has seen
    [RECORDING]. *)
Definition tick (w : World) : World :=
  let m := {| pitch := getPitch (analyzer w);
              volume := getVolume (analyzer w);
              clarity := 0 |} in
  let id := nextFrameId w in
  {| status := status w;
     metrics := m;
     frequencyData := getFrequencyData (analyzer w);
     geminiAnalysis := geminiAnalysis w;
     isSpeakingInstructions := isSpeakingInstructions w;
     mediaRecorderRef := mediaRecorderRef w;
     chunksRef := chunksRef w;
     animationRef := Some id;
     frames := frames w ++ [(id, RECORDING)];
     nextFrameId := S id;
     analyzer := analyzer w;
     spectrogramImage := spectrogramImage w;
     log := log w ++ [AnalyzerGetPitch; AnalyzerGetVolume;
                      AnalyzerGetFrequencyData; SetMetrics m;
                      SetFrequencyData (getFrequencyData (analyzer w));
                      RequestAnimationFrame id] |}.

(** No frame is pending and none is due. *)
Definition cleared (w : World) : Prop :=
  0 < nextFrameId w /\ frames w = [] /\ status w <> RECORDING.

(** The effects of the status effect that are no tick. *)
Definition silent_effect (e : Effect) : bool :=
  match e with
  | SetStatus _ | CancelAnimationFrame _ => true
  | _ => false
  end.

(** A change of the loop that publishes nothing. *)
Definition silent (w w' : World) : Prop :=
  metrics w' = metrics w /\ extends silent_effect w w'.

(** No tick is lost, and the metrics change only with a tick. *)
Definition calm (w w' : World) : Prop :=
  ticks (log w) <= ticks (log w') /\
  (ticks (log w') = ticks (log w) -> metrics w' = metrics w).

(** The world of [startAnalysisFlow] when the instructions have been
    spoken and the recorder is about to be made. *)
Definition instructed (stream : MediaStream) (w : World) : World :=
  emit (NewMediaRecorder stream)
    (skipInstructions
       (emit (SpeechSynthesisSpeak instructions_text)
          (setIsSpeakingInstructions true
             (emit SpeechSynthesisCancel
                (emit AnalyzerStart (setGeminiAnalysis None w)))))).

Definition fresh_recorder (stream : MediaStream) (s : RecordingState)
  : MediaRecorder :=
  {| stream := stream; state := s; onstop := None; stop_queued := false |}.

(** The recorder [stopRecording] leaves: stopped, its [stop] event queued,
    its handler holding the image. *)
Definition stopped_recorder (r : MediaRecorder) (image : option JsValue)
  : MediaRecorder :=
  {| stream := stream r; state := inactive; onstop := image;
     stop_queued := true |}.

(** The world of [stopRecording] just before [setStatus]. *)
Definition stopping (r : MediaRecorder) (w : World) : World :=
  emit AnalyzerStop
    (set_mediaRecorderRef (Some (stopped_recorder r (onstop r)))
       (emit RecorderStop
          (emit (GetCanvasImage (spectrogramImage w))
             (emit SpeechSynthesisCancel w)))).

(** The world of [performGeminiAnalysis] when [analyzeAudioWithGemini]
    has been called. *)
Definition analysis_called (genv : GeminiService.Env) (blob : Blob)
  (image : JsValue) (w : World) : World :=
  emit (AnalyzeAudioWithGemini blob (or_undefined image)
          (snd (GeminiService.analyzeAudioWithGemini genv blob
                  (or_undefined image) [])))
    w.

(** The effects that cancel an animation frame. *)
Definition is_cancel (e : Effect) : bool :=
  match e with CancelAnimationFrame _ => true | _ => false end.

(** What the steps other than the [stop] event of the recorder keep while
    the analysis is awaited. *)
Definition awaiting (r : MediaRecorder) (w : World) : Prop :=
  status w = PROCESSING /\ mediaRecorderRef w = Some r.

Definition same_captures (w w' : World) : Prop :=
  captures (log w') = captures (log w) /\
  analysis_requests (log w') = analysis_requests (log w).

(** The world of [startAnalysisFlow] when the call returns to its caller.
    An [async] function runs up to its first [await] and then returns its
    promise: here the [await] of [analyzer.start()] (line 150), whatever
    that promise does later. *)
Definition at_return (w : World) : World :=
  snd (startAnalysisFlow
         {| analyzer_start := Pending; new_MediaRecorder_throws := None;
            recorder_start_throws := None |} w).

(** The world of a [startAnalysisFlow] that succeeds, just before its
    [setStatus]. *)
Definition recorder_started (stream : MediaStream) (w : World) : World :=
  set_mediaRecorderRef (Some (fresh_recorder stream recording))
    (emit RecorderStart
       (set_chunksRef []
          (set_mediaRecorderRef (Some (fresh_recorder stream inactive))
             (instructed stream w)))).

End AppLoop.

(** ** The failure of a start as the specification words it

    The failure is surfaced synchronously to the caller of the start flow:
    the promise the flow returns is rejected, so that the caller sees the
    error, or the error has been reported by the time the call returns.
    It is compared below with what [App.startAnalysisFlow] does. *)

Module StartAsStated.

Import App AppLoop.

(** The effects that report an error to the user. *)
Definition is_report (e : Effect) : bool :=
  match e with
  | ConsoleError _ _ | Alert _ => true
  | _ => false
  end.

Definition surfaced_synchronously (env : StartEnv) (w : World) : Prop :=
  (exists e, fst (startAnalysisFlow env w) = Rejected e) \/
  existsb is_report (skipn (List.length (log w)) (log (at_return w))) = true.

End StartAsStated.

(** ** Lists *)

Module Lists.

(** The last [n] elements of a list. *)
Definition lastn {A : Type} (n : nat) (l : list A) : list A :=
  skipn (List.length l - n) l.

End Lists.

(** ** Sample inputs *)

Module Samples.

Import GeminiService App.

(** A working environment of the service: a key, a readable blob, a
    model that answers. *)
Definition sample_env : Env :=
  {| API_KEY := Some "key";
     readAsDataURL := fun _ => Fulfilled "data:audio/webm;base64,QUJD";
     generateContent := fun _ _ => Fulfilled (Some "## Relatório") |}.

Definition sample_blob : Blob :=
  {| blob_type := "audio/webm";
     blob_bytes := [Byte.x41; Byte.x42; Byte.x43] |}.

(** The microphone is granted and the recorder starts. *)
Definition sample_start : StartEnv :=
  {| analyzer_start := Fulfilled 7;
     new_MediaRecorder_throws := None;
     recorder_start_throws := None |}.

(** The microphone is refused. *)
Definition sample_refused : StartEnv :=
  {| analyzer_start := Rejected "NotAllowedError";
     new_MediaRecorder_throws := None;
     recorder_start_throws := None |}.

Definition sample_audio : AudioAnalyzer :=
  {| getPitch := 220; getVolume := -20;
     getFrequencyData := [Byte.x00; Byte.x7f; Byte.xff] |}.

Definition sample_image : JsValue :=
  JString "data:image/png;base64,iVBORw0KGgo=".

End Samples.

(** ** The recording session of [App]: invariant *)

Module AppSession.

Import App.

Definition nonempty (b : Blob) : bool := Nat.ltb 0 (blob_size b).

(** What holds of the recorder and of the chunks in every state the
    component reaches. *)
Definition Session (w : World) : Prop :=
  status w <> ERROR /\
  (status w = RECORDING ->
   exists r, mediaRecorderRef w = Some r /\ state r = recording) /\
  (status w = PROCESSING ->
   exists r image, mediaRecorderRef w = Some r /\ state r = inactive /\
                   onstop r = Some image) /\
  forallb nonempty (chunksRef w) = true.

Definition is_setMetrics (e : Effect) : bool :=
  match e with SetMetrics _ => true | _ => false end.

Definition is_setFrequencyData (e : Effect) : bool :=
  match e with SetFrequencyData _ => true | _ => false end.

Definition is_request (e : Effect) : bool :=
  match e with RequestAnimationFrame _ => true | _ => false end.

Definition count (p : Effect -> bool) (l : list Effect) : nat :=
  List.length (filter p l).

(** From [w] to [w'] as many effects [p] happened as ticks ran. *)
Definition paced (p : Effect -> bool) (w w' : World) : Prop :=
  ticks (log w') + count p (log w) = ticks (log w) + count p (log w').

(** The outcomes of the start flow. *)
Inductive StartOutcome (env : StartEnv) : Type :=
| Started (stream : MediaStream)
    (Ha : analyzer_start env = Fulfilled stream)
    (Hc : new_MediaRecorder_throws env = None)
    (Hs : recorder_start_throws env = None)
| StartThrew (stream : MediaStream) (e : JsError)
    (Ha : analyzer_start env = Fulfilled stream)
    (Hc : new_MediaRecorder_throws env = None)
    (Hs : recorder_start_throws env = Some e)
| ConstructorThrew (stream : MediaStream) (e : JsError)
    (Ha : analyzer_start env = Fulfilled stream)
    (Hc : new_MediaRecorder_throws env = Some e)
| Refused (e : JsError) (Ha : analyzer_start env = Rejected e)
| Unanswered (Ha : analyzer_start env = Pending).

(** The data the recorder delivers during a run, in its order. *)
Fixpoint data_of (evs : list Event) : list Blob :=
  match evs with
  | [] => []
  | DataAvailable d :: evs' => d :: data_of evs'
  | _ :: evs' => data_of evs'
  end.

(** The canvas of the spectrogram after a run: what was painted last. *)
Fixpoint painted (evs : list Event) (canvas : JsValue) : JsValue :=
  match evs with
  | [] => canvas
  | CanvasPainted img :: evs' => painted evs' img
  | _ :: evs' => painted evs' canvas
  end.

Definition is_start (e : Event) : bool :=
  match e with ClickStart _ => true | _ => false end.

Definition is_stop (e : Event) : bool :=
  match e with ClickStop => true | _ => false end.

Definition is_stop_event (e : Event) : bool :=
  match e with RecorderStopped _ => true | _ => false end.

End AppSession.

(** ** The spoken instructions of [App] (lines 59-143)

    [App.speakInstructions] above is the promise as the start flow awaits
    it.  This module follows what happens inside: the choice of a voice,
    the resolver kept in [instructionResolverRef], the safety timeout and
    the events of the utterance. *)

Module Instructions.

(** [s.includes(needle)]. *)
Fixpoint includes (s needle : string) : bool :=
  String.prefix needle s
  || match s with
     | EmptyString => false
     | String _ s' => includes s' needle
     end.

Record SpeechSynthesisVoice : Type := { name : string; lang : string }.

Record SpeechSynthesisUtterance : Type :=
  { text : string;
    voice : option SpeechSynthesisVoice;
    utterance_lang : string;
    rate : float;
    volume : float }.

Definition femaleKeywords : list string :=
  ["female"; "women"; "feminino"; "luciana"; "joana"; "maria";
   "google português"].

Section Voices.

(** [String.prototype.toLowerCase], of the host. *)
Variable toLowerCase : string -> string.

Definition is_pt (v : SpeechSynthesisVoice) : bool :=
  includes (toLowerCase (lang v)) "pt".

Definition is_female (v : SpeechSynthesisVoice) : bool :=
  existsb (fun keyword => includes (toLowerCase (name v)) keyword)
    femaleKeywords.

(** The voice selection strategy (lines 96-112): [cached] is
    [availableVoices.current], [fresh] what [getVoices()] returns now. *)
Definition selectVoice (cached fresh : list SpeechSynthesisVoice)
  : option SpeechSynthesisVoice :=
  let voices := match cached with [] => fresh | _ => cached end in
  let ptVoices := filter is_pt voices in
  let selectedVoice := find is_female ptVoices in
  match selectedVoice with
  | Some v => Some v
  | None =>
      match ptVoices with
      | v :: _ => Some v
      | [] => None
      end
  end.

(** The utterance that is spoken (lines 93-122). *)
Definition buildUtterance (cached fresh : list SpeechSynthesisVoice)
  : SpeechSynthesisUtterance :=
  let selectedVoice := selectVoice cached fresh in
  {| text := App.instructions_text;
     voice := selectedVoice;
     utterance_lang := match selectedVoice with
                       | Some v => lang v
                       | None => "pt-BR"
                       end;
     rate := 0x1.199999999999ap+0%float;
     volume := 1 |}.

End Voices.

(** The state of the instructions.  The promise of the [n]-th call of
    [speakInstructions] is promise [n] and its timeout is timer [n]. *)
Record Speech : Type :=
  { isSpeakingInstructions : bool;
    instructionResolverRef : option nat;
    resolved : list nat;
    timers : list nat;
    calls : nat;
    cancelled : nat }.

Definition initial : Speech :=
  {| isSpeakingInstructions := false;
     instructionResolverRef := None;
     resolved := [];
     timers := [];
     calls := 0;
     cancelled := 0 |}.

(** [skipInstructions] (lines 70-77). *)
Definition skipInstructions (s : Speech) : Speech :=
  {| isSpeakingInstructions := false;
     instructionResolverRef := None;
     resolved := match instructionResolverRef s with
                 | Some n => resolved s ++ [n]
                 | None => resolved s
                 end;
     timers := timers s;
     calls := calls s;
     cancelled := S (cancelled s) |}.

(** Timer [n] is pending no more. *)
Definition remove_timer (n : nat) (s : Speech) : Speech :=
  {| isSpeakingInstructions := isSpeakingInstructions s;
     instructionResolverRef := instructionResolverRef s;
     resolved := resolved s;
     timers := filter (fun t => negb (Nat.eqb t n)) (timers s);
     calls := calls s;
     cancelled := cancelled s |}.

(** [clearTimeout(timeoutId)]. *)
Definition clearTimeout (n : nat) (s : Speech) : Speech := remove_timer n s.

(** [speakInstructions] (lines 79-143) up to the return of the promise;
    [speak_throws] says whether [speechSynthesis.speak] throws. *)
Definition speakInstructions (speak_throws : bool) (s : Speech) : Speech :=
  let n := calls s in
  let s1 :=
    {| isSpeakingInstructions := true;
       instructionResolverRef := Some n;
       resolved := resolved s;
       timers := timers s ++ [n];
       calls := S n;
       cancelled := S (cancelled s) |} in
  if speak_throws then skipInstructions s1 else s1.

Inductive Event : Type :=
| Speak (speak_throws : bool)
| TimerFires (n : nat)
| UtteranceEnd (n : nat)
| UtteranceError (n : nat)
| SkipClicked.

(** The timeout of call [n] runs once, unless it was cleared; the
    handlers of the utterance of call [n] clear that timeout; the skip
    button is there while the instructions are spoken (lines 253-269). *)
Definition step (e : Event) (s : Speech) : Speech :=
  match e with
  | Speak speak_throws => speakInstructions speak_throws s
  | TimerFires n =>
      if existsb (Nat.eqb n) (timers s)
      then skipInstructions (remove_timer n s)
      else s
  | UtteranceEnd n | UtteranceError n => skipInstructions (clearTimeout n s)
  | SkipClicked =>
      if isSpeakingInstructions s then skipInstructions s else s
  end.

Definition run (evs : list Event) (s : Speech) : Speech :=
  fold_left (fun s' e => step e s') evs s.

Definition is_speak (e : Event) : bool :=
  match e with Speak _ => true | _ => false end.

(** What holds of the instructions in every state. *)
Definition Wf (s : Speech) : Prop :=
  NoDup (resolved s) /\
  (forall n, In n (resolved s) -> n < calls s) /\
  (forall n, instructionResolverRef s = Some n ->
             S n = calls s /\ ~ In n (resolved s) /\
             isSpeakingInstructions s = true).

End Instructions.

(** * Properties *)

(** ** services/geminiService *)

Module GeminiFacts.

Import GeminiService Samples.

Lemma truthy_Some (s : string) : s <> "" -> truthy (Some s) = true.
Proof.
  intros Hs. unfold truthy.
  destruct (String.eqb_spec s ""); [contradiction | reflexivity].
Qed.

Lemma strip_prefix_app (p s : string) : strip_prefix p (p ++ s) = Some s.
Proof.
  induction p as [| a p IH]; simpl.
  - reflexivity.
  - rewrite Ascii.eqb_refl. exact IH.
Qed.

Lemma strip_image_header_png (s : string) :
  strip_image_header ("data:image/png;base64," ++ s) = s.
Proof. reflexivity. Qed.

Lemma strip_image_header_jpg (s : string) :
  strip_image_header ("data:image/jpg;base64," ++ s) = s.
Proof. reflexivity. Qed.

Lemma strip_image_header_jpeg (s : string) :
  strip_image_header ("data:image/jpeg;base64," ++ s) = s.
Proof. reflexivity. Qed.

(** A string that does not begin with [data:image/] is left as it is. *)
Lemma strip_image_header_other (s : string) :
  strip_prefix "data:image/" s = None -> strip_image_header s = s.
Proof. intros H. unfold strip_image_header. rewrite H. reflexivity. Qed.

(** With a key and a readable blob, the [try] block sends one request and
    its promise is that of the remote call. *)
Lemma analyze_try_sends (env : Env) (audioBlob : Blob)
  (image : option string) (key url : string) (log0 : list Call) :
  API_KEY env = Some key -> key <> "" ->
  readAsDataURL env audioBlob = Fulfilled url ->
  let request :=
    build_request
      (build_parts audioBlob (nth_error (split "," url) 1) image) in
  analyze_try env audioBlob image log0 =
  (match generateContent env key request with
   | Fulfilled t =>
       Fulfilled (if truthy t
                  then match t with Some x => x | None => "" end
                  else no_analysis_message)
   | Rejected e => Rejected e
   | Pending => Pending
   end,
   (log0 ++ [CallReadAsDataURL audioBlob])
     ++ [CallGenerateContent key request]).
Proof.
  intros Hkey Hne Hurl request. subst request.
  unfold analyze_try, blobToBase64, bind, call, exec, await, ret.
  rewrite Hkey, (truthy_Some key Hne), Hurl. cbn beta iota.
  destruct (generateContent env key _) as [t | e |]; reflexivity.
Qed.

Lemma sent_requests_app (l1 l2 : list Call) :
  sent_requests (l1 ++ l2) = sent_requests l1 ++ sent_requests l2.
Proof.
  induction l1 as [| c l1 IH]; simpl; [reflexivity |].
  destruct c; simpl; rewrite IH; reflexivity.
Qed.


Lemma analyze_try_rejected_caught (env : Env) (audioBlob : Blob)
  (image : option string) (log0 : list Call) (e : JsError) :
  fst (analyze_try env audioBlob image log0) = Rejected e ->
  fst (analyzeAudioWithGemini env audioBlob image log0)
  = Fulfilled error_message.
Proof.
  unfold analyzeAudioWithGemini, try_catch.
  destruct (analyze_try env audioBlob image log0) as [[t | e' |] log1];
    simpl; intros H; try discriminate.
  reflexivity.
Qed.

(** C10. Whatever the blob, the image and the surroundings do,
    [analyzeAudioWithGemini] is never rejected.  Every rejection inside its
    [try] block, a missing API key, a blob that cannot be read and a
    remote call that fails among them, is caught: the function is
    fulfilled with the fixed Portuguese error message. *)
Theorem analyzeAudioWithGemini_never_rejects (env : Env) (audioBlob : Blob)
  (image : option string) (log0 : list Call) :
  let promise := fst (analyzeAudioWithGemini env audioBlob image log0) in
  (forall e, promise <> Rejected e) /\
  (forall e, fst (analyze_try env audioBlob image log0) = Rejected e ->
             promise = Fulfilled error_message) /\
  (truthy (API_KEY env) = false -> promise = Fulfilled error_message) /\
  (forall e, truthy (API_KEY env) = true ->
             readAsDataURL env audioBlob = Rejected e ->
             promise = Fulfilled error_message) /\
  (forall e url, truthy (API_KEY env) = true ->
                 readAsDataURL env audioBlob = Fulfilled url ->
                 (forall k r, generateContent env k r = Rejected e) ->
                 promise = Fulfilled error_message).
Proof.
  intros promise. subst promise. repeat split.
  - intros e. unfold analyzeAudioWithGemini, try_catch.
    destruct (analyze_try env audioBlob image log0) as [[t | e' |] log1];
      simpl; discriminate.
  - apply analyze_try_rejected_caught.
  - intros Hkey.
    apply analyze_try_rejected_caught with (e := "API Key not found").
    unfold analyze_try, bind, throw. rewrite Hkey. reflexivity.
  - intros e Hkey Hread.
    apply analyze_try_rejected_caught with (e := e).
    unfold analyze_try, blobToBase64, bind, call, exec, await, ret.
    rewrite Hkey, Hread. reflexivity.
  - intros e url Hkey Hread Hgen.
    apply analyze_try_rejected_caught with (e := e).
    unfold analyze_try, blobToBase64, bind, call, exec, await, ret.
    rewrite Hkey, Hread. cbn beta iota. rewrite Hgen. reflexivity.
Qed.

(** *** The regular expression of the image header *)

Lemma strip_prefix_Some (p s r : string) :
  strip_prefix p s = Some r -> s = (p ++ r)%string.
Proof.
  revert s. induction p as [| a p IH]; intros s; simpl.
  - intros H. injection H as ->. reflexivity.
  - destruct s as [| b s]; [discriminate |].
    destruct (Ascii.eqb_spec a b) as [-> | Hne]; [| discriminate].
    intros H. rewrite (IH s H). reflexivity.
Qed.

Lemma first_alternative_None {A B : Type} (f : A -> option B)
  (alts : list A) :
  first_alternative f alts = None -> forall a, In a alts -> f a = None.
Proof.
  induction alts as [| x alts IH]; simpl; intros H a Ha; [contradiction |].
  destruct (f x) eqn:Hx; [discriminate |].
  destruct Ha as [<- | Ha]; [exact Hx | apply IH; assumption].
Qed.

Lemma first_alternative_Some {A B : Type} (f : A -> option B)
  (alts : list A) (b : B) :
  first_alternative f alts = Some b -> exists a, In a alts /\ f a = Some b.
Proof.
  induction alts as [| x alts IH]; simpl; intros H; [discriminate |].
  destruct (f x) eqn:Hx.
  - injection H as <-. exists x. auto.
  - destruct (IH H) as [a [Ha Hf]]. exists a. auto.
Qed.

(** [strip_image_header] removes a leading [data:image/<ext>;base64,] for
    [<ext>] one of [png], [jpg], [jpeg]; every other string is returned as
    it is. *)
Lemma strip_image_header_cases (s : string) :
  (exists ext rest,
     In ext ["png"; "jpg"; "jpeg"] /\
     s = ("data:image/" ++ ext ++ ";base64," ++ rest)%string /\
     strip_image_header s = rest) \/
  ((forall ext rest,
      In ext ["png"; "jpg"; "jpeg"] ->
      s <> ("data:image/" ++ ext ++ ";base64," ++ rest)%string) /\
   strip_image_header s = s).
Proof.
  unfold strip_image_header.
  destruct (strip_prefix "data:image/" s) as [r |] eqn:Hs.
  - apply strip_prefix_Some in Hs.
    match goal with
    | |- context [first_alternative ?f ?alts] =>
        destruct (first_alternative f alts) as [rest |] eqn:Hf
    end.
    + left. apply first_alternative_Some in Hf.
      destruct Hf as [ext [Hext Hf]].
      destruct (strip_prefix ext r) as [r' |] eqn:Hr; [| discriminate].
      apply strip_prefix_Some in Hr. apply strip_prefix_Some in Hf.
      exists ext, rest. subst. auto.
    + right. split; [| reflexivity].
      intros ext rest Hext Heq.
      pose proof (first_alternative_None _ _ Hf ext Hext) as Hnone.
      cbv beta in Hnone.
      assert (Hr : r = (ext ++ ";base64," ++ rest)%string).
      { rewrite Hs in Heq.
        apply (f_equal (strip_prefix "data:image/")) in Heq.
        rewrite !strip_prefix_app in Heq. injection Heq as ->.
        reflexivity. }
      rewrite Hr, strip_prefix_app, strip_prefix_app in Hnone.
      discriminate.
  - right. split; [| reflexivity].
    intros ext rest _ Heq. rewrite Heq, strip_prefix_app in Hs.
    discriminate.
Qed.

(** C7, as stated, fails on two inputs.  The header of a data URL that is
    not [png], [jpg] or [jpeg] stays in the image part; and an image
    argument that is the empty string gives the audio-only request. *)
Lemma request_differs_from_stated :
  (let image := Some "data:image/webp;base64,UklGRg==" in
   exists request,
     sent_requests
       (snd (analyzeAudioWithGemini sample_env sample_blob image []))
     = [request] /\
     parts request
     = [InlinePart {| mimeType := "audio/webm"; data := Some "QUJD" |};
        InlinePart {| mimeType := "image/png";
                      data := Some "data:image/webp;base64,UklGRg==" |};
        TextPart audio_image_prompt] /\
     parts request
     <> RequestAsStated.stated_parts "audio/webm" (Some "QUJD") image) /\
  (let image := Some "" in
   exists request,
     sent_requests
       (snd (analyzeAudioWithGemini sample_env sample_blob image []))
     = [request] /\
     parts request
     = [InlinePart {| mimeType := "audio/webm"; data := Some "QUJD" |};
        TextPart audio_prompt] /\
     parts request
     <> RequestAsStated.stated_parts "audio/webm" (Some "QUJD") image).
Proof.
  split; cbv zeta; eexists; (split; [reflexivity |]);
    (split; [reflexivity |]); vm_compute; discriminate.
Qed.

(** C7, amended.  With an API key and a readable blob the function sends
    one request and returns text (or stays pending with the remote call).
    When the image argument is absent or the empty string the request
    carries the audio part and the audio-only prompt; when it is a
    non-empty string it carries the audio part, an [image/png] part whose
    data is the string with a leading [data:image/png;base64,],
    [data:image/jpg;base64,] or [data:image/jpeg;base64,] removed (every
    other string, a data URL of another type among them, is sent as it
    is), and the audio-plus-image prompt. *)
Theorem analyzeAudioWithGemini_request (env : Env) (audioBlob : Blob)
  (image : option string) (key url : string) :
  API_KEY env = Some key -> key <> "" ->
  readAsDataURL env audioBlob = Fulfilled url ->
  let audio :=
    InlinePart {| mimeType := blob_type audioBlob;
                  data := nth_error (split "," url) 1 |} in
  let result := analyzeAudioWithGemini env audioBlob image [] in
  (exists request,
     sent_requests (snd result) = [request] /\
     (truthy image = false ->
      parts request = [audio; TextPart audio_prompt]) /\
     (forall img, image = Some img -> img <> "" ->
      parts request
      = [audio;
         InlinePart {| mimeType := "image/png";
                       data := Some (strip_image_header img) |};
         TextPart audio_image_prompt])) /\
  ((exists text, fst result = Fulfilled text) \/ fst result = Pending) /\
  (forall payload,
     strip_image_header ("data:image/png;base64," ++ payload) = payload /\
     strip_image_header ("data:image/jpg;base64," ++ payload) = payload /\
     strip_image_header ("data:image/jpeg;base64," ++ payload) = payload) /\
  (forall s, strip_prefix "data:image/" s = None -> strip_image_header s = s) /\
  (forall s,
     (exists ext rest,
        In ext ["png"; "jpg"; "jpeg"] /\
        s = ("data:image/" ++ ext ++ ";base64," ++ rest)%string /\
        strip_image_header s = rest) \/
     ((forall ext rest,
         In ext ["png"; "jpg"; "jpeg"] ->
         s <> ("data:image/" ++ ext ++ ";base64," ++ rest)%string) /\
      strip_image_header s = s)).
Proof.
  intros Hkey Hne Hurl audio result.
  pose proof (analyze_try_sends env audioBlob image key url [] Hkey Hne Hurl)
    as Htry.
  cbv zeta in Htry.
  set (request :=
         build_request
           (build_parts audioBlob (nth_error (split "," url) 1) image))
    in Htry.
  assert (Hres :
    sent_requests (snd result) = [request] /\
    ((exists text, fst result = Fulfilled text) \/ fst result = Pending)).
  { subst result. unfold analyzeAudioWithGemini, try_catch. rewrite Htry.
    destruct (generateContent env key request) as [t | e |]; simpl.
    - split; [reflexivity | left; eauto].
    - split; [reflexivity | left; eauto].
    - split; [reflexivity | right; reflexivity]. }
  destruct Hres as [Hsent Hfst].
  split; [| split; [exact Hfst | split; [| split]]].
  - exists request. split; [exact Hsent |]. split.
    + intros Hfalsy. subst request. unfold build_request, build_parts.
      rewrite Hfalsy. reflexivity.
    + intros img -> Himg. subst request. unfold build_request, build_parts.
      rewrite (truthy_Some img Himg). reflexivity.
  - intros payload. repeat split.
  - exact strip_image_header_other.
  - exact strip_image_header_cases.
Qed.

Lemma analyzeAudioWithGemini_request_witness :
  let env := sample_env in
  let audioBlob := sample_blob in
  let image := Some "data:image/png;base64,iVBORw0KGgo=" in
  let audio :=
    InlinePart {| mimeType := blob_type audioBlob;
                  data := nth_error (split "," "data:audio/webm;base64,QUJD") 1 |} in
  let result := analyzeAudioWithGemini env audioBlob image [] in
  (exists request,
     sent_requests (snd result) = [request] /\
     (truthy image = false ->
      parts request = [audio; TextPart audio_prompt]) /\
     (forall img, image = Some img -> img <> "" ->
      parts request
      = [audio;
         InlinePart {| mimeType := "image/png";
                       data := Some (strip_image_header img) |};
         TextPart audio_image_prompt])) /\
  ((exists text, fst result = Fulfilled text) \/ fst result = Pending) /\
  (forall payload,
     strip_image_header ("data:image/png;base64," ++ payload) = payload /\
     strip_image_header ("data:image/jpg;base64," ++ payload) = payload /\
     strip_image_header ("data:image/jpeg;base64," ++ payload) = payload) /\
  (forall s, strip_prefix "data:image/" s = None -> strip_image_header s = s) /\
  (forall s,
     (exists ext rest,
        In ext ["png"; "jpg"; "jpeg"] /\
        s = ("data:image/" ++ ext ++ ";base64," ++ rest)%string /\
        strip_image_header s = rest) \/
     ((forall ext rest,
         In ext ["png"; "jpg"; "jpeg"] ->
         s <> ("data:image/" ++ ext ++ ";base64," ++ rest)%string) /\
      strip_image_header s = s)).
Proof.
  apply (analyzeAudioWithGemini_request sample_env sample_blob
           (Some "data:image/png;base64,iVBORw0KGgo=") "key"
           "data:audio/webm;base64,QUJD");
    [reflexivity | discriminate | reflexivity].
Defined.

End GeminiFacts.

(** ** App.tsx: the analysis loop *)

Module AppFacts.

Import App AppLoop AppSession.

#[local] Arguments setStatus : simpl never.
#[local] Arguments runAnimationFrame : simpl never.
#[local] Arguments updateMetrics : simpl never.
#[local] Arguments cancel_current : simpl never.

Lemma status_eqb_eq (a b : AnalysisStatus) : status_eqb a b = true <-> a = b.
Proof. destruct a, b; simpl; split; intros H; congruence. Qed.

Lemma status_eqb_neq (a b : AnalysisStatus) :
  status_eqb a b = false <-> a <> b.
Proof. destruct a, b; simpl; split; intros H; congruence. Qed.

Lemma status_eqb_refl (a : AnalysisStatus) : status_eqb a a = true.
Proof. destruct a; reflexivity. Qed.

(** *** Logs *)

Lemma extends_refl (p : Effect -> bool) (w : World) : extends p w w.
Proof. exists []. rewrite app_nil_r. split; reflexivity. Qed.

Lemma extends_same_log (p : Effect -> bool) (w w' : World) :
  log w' = log w -> extends p w w'.
Proof.
  intros H. exists []. rewrite app_nil_r. split; [exact H | reflexivity].
Qed.

Lemma extends_trans (p : Effect -> bool) (w1 w2 w3 : World) :
  extends p w1 w2 -> extends p w2 w3 -> extends p w1 w3.
Proof.
  intros [l1 [H1 P1]] [l2 [H2 P2]]. exists (l1 ++ l2).
  rewrite H2, H1, app_assoc, forallb_app, P1, P2. split; reflexivity.
Qed.

Lemma ticks_app (l1 l2 : list Effect) :
  ticks (l1 ++ l2) = ticks l1 + ticks l2.
Proof. unfold ticks. rewrite filter_app, length_app. reflexivity. Qed.

Lemma captures_app (l1 l2 : list Effect) :
  captures (l1 ++ l2) = captures l1 + captures l2.
Proof. unfold captures. rewrite filter_app, length_app. reflexivity. Qed.

Lemma analysis_requests_app (l1 l2 : list Effect) :
  analysis_requests (l1 ++ l2)
  = analysis_requests l1 ++ analysis_requests l2.
Proof.
  induction l1 as [| e l1 IH]; simpl; [reflexivity |].
  destruct e; simpl; rewrite ?IH; reflexivity.
Qed.

Lemma quiet_effects_no_tick (l : list Effect) :
  forallb quiet_effect l = true -> ticks l = 0.
Proof.
  induction l as [| e l IH]; simpl; [reflexivity |].
  intros H. apply andb_true_iff in H. destruct H as [He Hl].
  unfold ticks in *. simpl.
  destruct e; simpl in *; try discriminate; auto.
Qed.

Lemma quiet_effects_clarity (l : list Effect) :
  forallb quiet_effect l = true -> Forall clarity_zero l.
Proof.
  induction l as [| e l IH]; simpl; [constructor |].
  intros H. apply andb_true_iff in H. destruct H as [He Hl].
  constructor; [| auto].
  destruct e; simpl in *; try discriminate; exact I.
Qed.

Lemma loop_effects_no_capture (l : list Effect) :
  forallb loop_effect l = true ->
  captures l = 0 /\ analysis_requests l = [].
Proof.
  induction l as [| e l IH]; simpl; [split; reflexivity |].
  intros H. apply andb_true_iff in H. destruct H as [He Hl].
  destruct (IH Hl) as [Hc Hr]. unfold captures in *.
  destruct e; simpl in *; try discriminate; auto.
Qed.

(** *** Quiet changes *)

Lemma quiet_refl (w : World) : quiet w w.
Proof. repeat split. apply extends_refl. Qed.

Lemma quiet_trans (w1 w2 w3 : World) :
  quiet w1 w2 -> quiet w2 w3 -> quiet w1 w3.
Proof.
  intros (A1 & B1 & C1 & D1 & E1 & F1) (A2 & B2 & C2 & D2 & E2 & F2).
  repeat split; try congruence. eapply extends_trans; eassumption.
Qed.

Lemma quiet_emit (e : Effect) (w : World) :
  quiet_effect e = true -> quiet w (emit e w).
Proof.
  intros He. destruct w. repeat (split; [reflexivity |]).
  exists [e]. split; [reflexivity |]. simpl. rewrite He. reflexivity.
Qed.

Lemma quiet_set_mediaRecorderRef (v : option MediaRecorder) (w : World) :
  quiet w (set_mediaRecorderRef v w).
Proof.
  destruct w. repeat (split; [reflexivity |]).
  apply extends_same_log. reflexivity.
Qed.

Lemma quiet_set_chunksRef (v : list Blob) (w : World) :
  quiet w (set_chunksRef v w).
Proof.
  destruct w. repeat (split; [reflexivity |]).
  apply extends_same_log. reflexivity.
Qed.

Lemma quiet_set_analyzer (v : AudioAnalyzer) (w : World) :
  quiet w (set_analyzer v w).
Proof.
  destruct w. repeat (split; [reflexivity |]).
  apply extends_same_log. reflexivity.
Qed.

Lemma quiet_set_spectrogramImage (v : JsValue) (w : World) :
  quiet w (set_spectrogramImage v w).
Proof.
  destruct w. repeat (split; [reflexivity |]).
  apply extends_same_log. reflexivity.
Qed.

Lemma quiet_setGeminiAnalysis (v : option string) (w : World) :
  quiet w (setGeminiAnalysis v w).
Proof.
  destruct w. repeat (split; [reflexivity |]).
  exists [SetGeminiAnalysis v]. split; reflexivity.
Qed.

Lemma quiet_setIsSpeakingInstructions (v : bool) (w : World) :
  quiet w (setIsSpeakingInstructions v w).
Proof.
  destruct w. repeat (split; [reflexivity |]).
  exists [SetIsSpeakingInstructions v]. split; reflexivity.
Qed.

Lemma quiet_skipInstructions (w : World) : quiet w (skipInstructions w).
Proof.
  unfold skipInstructions.
  apply (quiet_trans w (emit SpeechSynthesisCancel w));
    [apply quiet_emit; reflexivity | apply quiet_setIsSpeakingInstructions].
Qed.

(** Closes [quiet w w'] when [w'] is [w] under quiet operations. *)
Ltac quiet_chain :=
  lazymatch goal with
  | |- quiet ?w ?w => apply quiet_refl
  | |- quiet ?w (emit ?e ?x) =>
      apply (quiet_trans w x); [quiet_chain | apply quiet_emit; reflexivity]
  | |- quiet ?w (set_mediaRecorderRef ?v ?x) =>
      apply (quiet_trans w x);
      [quiet_chain | apply quiet_set_mediaRecorderRef]
  | |- quiet ?w (set_chunksRef ?v ?x) =>
      apply (quiet_trans w x); [quiet_chain | apply quiet_set_chunksRef]
  | |- quiet ?w (set_analyzer ?v ?x) =>
      apply (quiet_trans w x); [quiet_chain | apply quiet_set_analyzer]
  | |- quiet ?w (set_spectrogramImage ?v ?x) =>
      apply (quiet_trans w x);
      [quiet_chain | apply quiet_set_spectrogramImage]
  | |- quiet ?w (setGeminiAnalysis ?v ?x) =>
      apply (quiet_trans w x); [quiet_chain | apply quiet_setGeminiAnalysis]
  | |- quiet ?w (setIsSpeakingInstructions ?v ?x) =>
      apply (quiet_trans w x);
      [quiet_chain | apply quiet_setIsSpeakingInstructions]
  | |- quiet ?w (skipInstructions ?x) =>
      apply (quiet_trans w x); [quiet_chain | apply quiet_skipInstructions]
  end.

(** *** The handlers, case by case *)

(** Runs a handler whose branches are decided. *)
Ltac run_async t :=
  eval cbv beta iota delta
    [startAnalysisFlow stopRecording performGeminiAnalysis
     recorder_stop_event try_catch bind exec await throw ret may_throw
     speakInstructions analyzer_start new_MediaRecorder_throws
     recorder_start_throws fst snd]
  in t.

Lemma startAnalysisFlow_rejected (env : StartEnv) (e : JsError) (w : World) :
  analyzer_start env = Rejected e ->
  startAnalysisFlow env w
  = (Fulfilled tt,
     setStatus IDLE
       (emit (Alert start_error_message)
          (emit (ConsoleError "Error flow:" e)
             (emit AnalyzerStart (setGeminiAnalysis None w))))).
Proof.
  destruct env as [p ctor start]. simpl. intros ->. reflexivity.
Qed.

Lemma startAnalysisFlow_pending (env : StartEnv) (w : World) :
  analyzer_start env = Pending ->
  startAnalysisFlow env w
  = (Pending, emit AnalyzerStart (setGeminiAnalysis None w)).
Proof.
  destruct env as [p ctor start]. simpl. intros ->. reflexivity.
Qed.

Lemma startAnalysisFlow_constructor_throws (env : StartEnv)
  (stream : MediaStream) (e : JsError) (w : World) :
  analyzer_start env = Fulfilled stream ->
  new_MediaRecorder_throws env = Some e ->
  startAnalysisFlow env w
  = (Fulfilled tt,
     setStatus IDLE
       (emit (Alert start_error_message)
          (emit (ConsoleError "Error flow:" e) (instructed stream w)))).
Proof.
  destruct env as [p ctor start]. simpl. intros -> ->. reflexivity.
Qed.

Lemma startAnalysisFlow_start_throws (env : StartEnv)
  (stream : MediaStream) (e : JsError) (w : World) :
  analyzer_start env = Fulfilled stream ->
  new_MediaRecorder_throws env = None ->
  recorder_start_throws env = Some e ->
  startAnalysisFlow env w
  = (Fulfilled tt,
     setStatus IDLE
       (emit (Alert start_error_message)
          (emit (ConsoleError "Error flow:" e)
             (emit RecorderStart
                (set_chunksRef []
                   (set_mediaRecorderRef
                      (Some (fresh_recorder stream inactive))
                      (instructed stream w))))))).
Proof.
  destruct env as [p ctor start]. simpl. intros -> -> ->. reflexivity.
Qed.

Lemma startAnalysisFlow_started (env : StartEnv) (stream : MediaStream)
  (w : World) :
  analyzer_start env = Fulfilled stream ->
  new_MediaRecorder_throws env = None ->
  recorder_start_throws env = None ->
  startAnalysisFlow env w
  = (Fulfilled tt,
     setStatus RECORDING
       (set_mediaRecorderRef (Some (fresh_recorder stream recording))
          (emit RecorderStart
             (set_chunksRef []
                (set_mediaRecorderRef
                   (Some (fresh_recorder stream inactive))
                   (instructed stream w)))))).
Proof.
  destruct env as [p ctor start]. simpl. intros -> -> ->. reflexivity.
Qed.

Lemma mediaRecorderRef_emit (e : Effect) (w : World) :
  mediaRecorderRef (emit e w) = mediaRecorderRef w.
Proof. destruct w; reflexivity. Qed.

Lemma status_emit (e : Effect) (w : World) : status (emit e w) = status w.
Proof. destruct w; reflexivity. Qed.

Lemma stopRecording_no_recorder (w : World) :
  mediaRecorderRef w = None ->
  stopRecording w = (Fulfilled tt, emit SpeechSynthesisCancel w).
Proof.
  intros H. unfold stopRecording, bind, exec.
  rewrite mediaRecorderRef_emit, H. reflexivity.
Qed.

Lemma stopRecording_inactive (r : MediaRecorder) (w : World) :
  mediaRecorderRef w = Some r -> state r = inactive ->
  stopRecording w = (Fulfilled tt, emit SpeechSynthesisCancel w).
Proof.
  intros H Hs. unfold stopRecording, bind, exec.
  rewrite mediaRecorderRef_emit, H, Hs. reflexivity.
Qed.

Lemma stopRecording_active (r : MediaRecorder) (w : World) :
  mediaRecorderRef w = Some r -> state r <> inactive ->
  stopRecording w
  = (Fulfilled tt,
     set_mediaRecorderRef
       (Some (stopped_recorder r (Some (spectrogramImage w))))
       (setStatus PROCESSING (stopping r w))).
Proof.
  intros H Hs. unfold stopRecording, bind, exec.
  rewrite mediaRecorderRef_emit, H.
  assert (Hi : is_inactive (state r) = false)
    by (destruct (state r); [contradiction | reflexivity | reflexivity]).
  rewrite Hi. destruct w; reflexivity.
Qed.

(** [performGeminiAnalysis], by the promise of [analyzeAudioWithGemini]. *)
Lemma performGeminiAnalysis_eq (genv : GeminiService.Env) (blob : Blob)
  (image : JsValue) (w : World) :
  performGeminiAnalysis genv blob image w
  = match fst (GeminiService.analyzeAudioWithGemini genv blob
                 (or_undefined image) []) with
    | Fulfilled result =>
        (Fulfilled tt,
         setStatus COMPLETED
           (setGeminiAnalysis (Some result)
              (analysis_called genv blob image w)))
    | Rejected _ =>
        (Fulfilled tt,
         setStatus ERROR
           (setGeminiAnalysis (Some "Falha na análise da IA.")
              (analysis_called genv blob image w)))
    | Pending => (Pending, analysis_called genv blob image w)
    end.
Proof.
  unfold performGeminiAnalysis, analysis_called.
  destruct (GeminiService.analyzeAudioWithGemini genv blob
              (or_undefined image) []) as [[result | e |] calls];
    reflexivity.
Qed.

Lemma recorder_stop_event_fires (genv : GeminiService.Env)
  (r : MediaRecorder) (image : JsValue) (w : World) :
  mediaRecorderRef w = Some r -> stop_queued r = true ->
  onstop r = Some image ->
  recorder_stop_event genv w
  = snd (performGeminiAnalysis genv
           (new_Blob (chunksRef w) "audio/webm") image
           (set_mediaRecorderRef
              (Some {| stream := stream r; state := state r;
                       onstop := onstop r; stop_queued := false |}) w)).
Proof.
  intros H Hq Ho. unfold recorder_stop_event. rewrite H, Hq, Ho.
  destruct w; reflexivity.
Qed.

(** *** The loop: [updateMetrics], the status effect, the frames *)

Lemma updateMetrics_recording (w : World) :
  updateMetrics RECORDING w = tick w.
Proof.
  destruct w. unfold updateMetrics, tick. cbn.
  f_equal. rewrite <- !app_assoc. reflexivity.
Qed.

Lemma updateMetrics_other (s : AnalysisStatus) (w : World) :
  s <> RECORDING -> updateMetrics s w = w.
Proof.
  intros H. unfold updateMetrics.
  apply status_eqb_neq in H. rewrite H. reflexivity.
Qed.

Lemma set_frames_same (w : World) : set_frames (frames w) w = w.
Proof. destruct w; reflexivity. Qed.

Lemma runAnimationFrame_none (w : World) :
  frames w = [] -> runAnimationFrame w = w.
Proof.
  intros H. unfold runAnimationFrame. rewrite H. simpl.
  rewrite <- H. apply set_frames_same.
Qed.

Lemma runAnimationFrame_one (id : nat) (w : World) :
  frames w = [(id, RECORDING)] ->
  runAnimationFrame w = tick (set_frames [] w).
Proof.
  intros H. unfold runAnimationFrame. rewrite H. simpl.
  apply updateMetrics_recording.
Qed.

(** What [cancel_current] does, by cases. *)
Lemma cancel_current_cases (w : World) :
  cancel_current w = w \/
  exists id, animationRef w = Some id /\ id <> 0 /\
             cancel_current w = cancelAnimationFrame id w.
Proof.
  unfold cancel_current. destruct (animationRef w) as [id |]; [| auto].
  destruct (Nat.eqb_spec id 0); [auto |]. right. exists id. auto.
Qed.

Lemma loop_change_refl (w : World) : loop_change w w.
Proof. repeat (split; [reflexivity |]). apply extends_refl. Qed.

Lemma loop_change_trans (w1 w2 w3 : World) :
  loop_change w1 w2 -> loop_change w2 w3 -> loop_change w1 w3.
Proof.
  intros (A1 & B1 & C1 & D1 & E1 & F1 & G1)
         (A2 & B2 & C2 & D2 & E2 & F2 & G2).
  repeat split; try congruence. eapply extends_trans; eassumption.
Qed.

Lemma loop_change_tick (w : World) : loop_change w (tick w).
Proof.
  repeat (split; [reflexivity |]). eexists. split; reflexivity.
Qed.

Lemma cancelAnimationFrame_fields (id : nat) (w : World) :
  status (cancelAnimationFrame id w) = status w /\
  metrics (cancelAnimationFrame id w) = metrics w /\
  animationRef (cancelAnimationFrame id w) = animationRef w /\
  nextFrameId (cancelAnimationFrame id w) = nextFrameId w /\
  frames (cancelAnimationFrame id w)
  = filter (fun f => negb (Nat.eqb (fst f) id)) (frames w) /\
  log (cancelAnimationFrame id w) = log w ++ [CancelAnimationFrame id].
Proof. destruct w. repeat split. Qed.

Lemma loop_change_updateMetrics (s : AnalysisStatus) (w : World) :
  loop_change w (updateMetrics s w).
Proof.
  destruct s; try (rewrite updateMetrics_other by discriminate;
                   apply loop_change_refl).
  rewrite updateMetrics_recording. apply loop_change_tick.
Qed.

Lemma loop_change_cancel_current (w : World) :
  loop_change w (cancel_current w).
Proof.
  destruct (cancel_current_cases w) as [-> | [id [_ [_ ->]]]].
  - apply loop_change_refl.
  - destruct w. repeat (split; [reflexivity |]).
    exists [CancelAnimationFrame id]. split; reflexivity.
Qed.

Lemma loop_change_set_status (s : AnalysisStatus) (w : World) :
  loop_change w (set_status s w).
Proof.
  destruct w. repeat (split; [reflexivity |]).
  apply extends_same_log. reflexivity.
Qed.

Lemma loop_change_set_frames (v : list (nat * AnalysisStatus)) (w : World) :
  loop_change w (set_frames v w).
Proof.
  destruct w. repeat (split; [reflexivity |]).
  apply extends_same_log. reflexivity.
Qed.

Lemma loop_change_emit (e : Effect) (w : World) :
  loop_effect e = true -> loop_change w (emit e w).
Proof.
  intros He. destruct w. repeat (split; [reflexivity |]).
  exists [e]. split; [reflexivity |]. simpl. rewrite He. reflexivity.
Qed.

Lemma status_set_status (s : AnalysisStatus) (w : World) :
  status (set_status s w) = s.
Proof. destruct w; reflexivity. Qed.

Lemma status_effect_eq (w : World) :
  status_effect w
  = if status_eqb (status w) RECORDING then tick w else cancel_current w.
Proof.
  unfold status_effect.
  destruct (status_eqb (status w) RECORDING) eqn:E; [| reflexivity].
  apply status_eqb_eq in E. rewrite E. apply updateMetrics_recording.
Qed.

(** [setStatus] by cases: the value the state has, [RECORDING] anew,
    another value anew. *)
Lemma setStatus_same (s : AnalysisStatus) (w : World) :
  status w = s -> setStatus s w = emit (SetStatus s) w.
Proof.
  intros H. unfold setStatus.
  rewrite status_emit, H, status_eqb_refl. reflexivity.
Qed.

Lemma setStatus_recording (w : World) :
  status w <> RECORDING ->
  setStatus RECORDING w
  = tick (set_status RECORDING
            (cancel_current (emit (SetStatus RECORDING) w))).
Proof.
  intros H. unfold setStatus, status_effect_cleanup.
  apply status_eqb_neq in H. rewrite status_emit, H.
  rewrite status_effect_eq, status_set_status. reflexivity.
Qed.

Lemma setStatus_other (s : AnalysisStatus) (w : World) :
  status w <> s -> s <> RECORDING ->
  setStatus s w
  = cancel_current
      (set_status s (cancel_current (emit (SetStatus s) w))).
Proof.
  intros H Hs. unfold setStatus, status_effect_cleanup.
  apply status_eqb_neq in H. rewrite status_emit, H.
  rewrite status_effect_eq, status_set_status.
  apply status_eqb_neq in Hs. rewrite Hs. reflexivity.
Qed.

Lemma setStatus_cases (s : AnalysisStatus) (w : World) :
  (status w = s /\ setStatus s w = emit (SetStatus s) w) \/
  (status w <> RECORDING /\ s = RECORDING /\
   setStatus s w
   = tick (set_status RECORDING
             (cancel_current (emit (SetStatus RECORDING) w)))) \/
  (status w <> s /\ s <> RECORDING /\
   setStatus s w
   = cancel_current
       (set_status s (cancel_current (emit (SetStatus s) w)))).
Proof.
  destruct (status_eqb (status w) s) eqn:E.
  - apply status_eqb_eq in E. left. split; [exact E |].
    apply setStatus_same, E.
  - apply status_eqb_neq in E. right.
    destruct (status_eqb s RECORDING) eqn:Es.
    + apply status_eqb_eq in Es. subst s. left.
      repeat split; [exact E | apply setStatus_recording, E].
    + apply status_eqb_neq in Es. right.
      repeat split; [exact E | exact Es | apply setStatus_other; assumption].
Qed.

Lemma status_cancel_current (w : World) :
  status (cancel_current w) = status w.
Proof.
  destruct (cancel_current_cases w) as [-> | [id [_ [_ ->]]]];
    [reflexivity | apply cancelAnimationFrame_fields].
Qed.

Lemma metrics_cancel_current (w : World) :
  metrics (cancel_current w) = metrics w.
Proof.
  destruct (cancel_current_cases w) as [-> | [id [_ [_ ->]]]];
    [reflexivity | apply cancelAnimationFrame_fields].
Qed.

Lemma animationRef_cancel_current (w : World) :
  animationRef (cancel_current w) = animationRef w.
Proof.
  destruct (cancel_current_cases w) as [-> | [id [_ [_ ->]]]];
    [reflexivity | apply cancelAnimationFrame_fields].
Qed.

Lemma nextFrameId_cancel_current (w : World) :
  nextFrameId (cancel_current w) = nextFrameId w.
Proof.
  destruct (cancel_current_cases w) as [-> | [id [_ [_ ->]]]];
    [reflexivity | apply cancelAnimationFrame_fields].
Qed.

Lemma status_setStatus (s : AnalysisStatus) (w : World) :
  status (setStatus s w) = s.
Proof.
  destruct (setStatus_cases s w)
    as [[H ->] | [[_ [-> ->]] | [_ [_ ->]]]].
  - rewrite status_emit. exact H.
  - unfold tick. simpl. apply status_set_status.
  - rewrite status_cancel_current. apply status_set_status.
Qed.

Lemma loop_change_setStatus (s : AnalysisStatus) (w : World) :
  loop_change w (setStatus s w).
Proof.
  destruct (setStatus_cases s w)
    as [[H ->] | [[_ [-> ->]] | [_ [_ ->]]]].
  - apply loop_change_emit. reflexivity.
  - eapply loop_change_trans; [| apply loop_change_tick].
    eapply loop_change_trans; [| apply loop_change_set_status].
    eapply loop_change_trans; [| apply loop_change_cancel_current].
    apply loop_change_emit. reflexivity.
  - eapply loop_change_trans; [| apply loop_change_cancel_current].
    eapply loop_change_trans; [| apply loop_change_set_status].
    eapply loop_change_trans; [| apply loop_change_cancel_current].
    apply loop_change_emit. reflexivity.
Qed.

Lemma fold_updateMetrics_loop_change (cbs : list (nat * AnalysisStatus))
  (w : World) :
  loop_change w (fold_left (fun w' cb => updateMetrics (snd cb) w') cbs w).
Proof.
  revert w. induction cbs as [| cb cbs IH]; intros w; simpl.
  - apply loop_change_refl.
  - eapply loop_change_trans; [apply loop_change_updateMetrics | apply IH].
Qed.

Lemma loop_change_runAnimationFrame (w : World) :
  loop_change w (runAnimationFrame w).
Proof.
  unfold runAnimationFrame.
  eapply loop_change_trans;
    [apply loop_change_set_frames | apply fold_updateMetrics_loop_change].
Qed.

Lemma status_fold_updateMetrics (cbs : list (nat * AnalysisStatus))
  (w : World) :
  status (fold_left (fun w' cb => updateMetrics (snd cb) w') cbs w)
  = status w.
Proof.
  revert w. induction cbs as [| [id s] cbs IH]; intros w; simpl;
    [reflexivity |].
  rewrite IH. destruct s; try reflexivity.
  rewrite updateMetrics_recording. reflexivity.
Qed.

Lemma status_runAnimationFrame (w : World) :
  status (runAnimationFrame w) = status w.
Proof.
  unfold runAnimationFrame. rewrite status_fold_updateMetrics.
  destruct w; reflexivity.
Qed.

(** *** The invariant of the loop *)

Lemma Inv_init : Inv init.
Proof.
  unfold Inv. simpl. repeat split; [lia | discriminate].
Qed.

Lemma Inv_quiet (w w' : World) : quiet w w' -> Inv w -> Inv w'.
Proof.
  intros (Hs & _ & Hf & Ha & Hn & _) (I1 & I2 & I3).
  unfold Inv. rewrite Hs, Hf, Ha, Hn. auto.
Qed.

Lemma frames_cancel_pending (id : nat) (w : World) :
  animationRef w = Some id -> id <> 0 -> frames w = [(id, RECORDING)] ->
  frames (cancel_current w) = [].
Proof.
  intros Ha Hid Hf. unfold cancel_current. rewrite Ha.
  apply Nat.eqb_neq in Hid. rewrite Hid.
  destruct (cancelAnimationFrame_fields id w) as (_ & _ & _ & _ & -> & _).
  rewrite Hf. simpl. rewrite Nat.eqb_refl. reflexivity.
Qed.

Lemma frames_cancel_none (w : World) :
  frames w = [] -> frames (cancel_current w) = [].
Proof.
  intros Hf.
  destruct (cancel_current_cases w) as [-> | [id [_ [_ ->]]]];
    [exact Hf |].
  destruct (cancelAnimationFrame_fields id w) as (_ & _ & _ & _ & -> & _).
  rewrite Hf. reflexivity.
Qed.

(** Under the invariant the cleanup of the effect leaves no frame. *)
Lemma Inv_cleanup_frames (w : World) :
  Inv w -> frames (cancel_current w) = [].
Proof.
  intros (I1 & I2 & I3).
  destruct (status_eqb (status w) RECORDING) eqn:E.
  - apply status_eqb_eq in E. destruct (I2 E) as [id [Ha [Hid Hf]]].
    eapply frames_cancel_pending; eassumption.
  - apply status_eqb_neq in E. apply frames_cancel_none. auto.
Qed.

Lemma nextFrameId_emit (e : Effect) (w : World) :
  nextFrameId (emit e w) = nextFrameId w.
Proof. destruct w; reflexivity. Qed.

Lemma Inv_emit (e : Effect) (w : World) : Inv w -> Inv (emit e w).
Proof. destruct w. exact (fun H => H). Qed.

Lemma Inv_cleared (w : World) : cleared w -> Inv w.
Proof.
  intros (H1 & H2 & H3). unfold Inv. repeat split; [exact H1 | | auto].
  intros H. contradiction.
Qed.

Lemma Inv_cancel_cleared (w : World) : cleared w -> Inv (cancel_current w).
Proof.
  intros (H1 & H2 & H3). apply Inv_cleared. unfold cleared.
  rewrite nextFrameId_cancel_current, status_cancel_current.
  repeat split; [exact H1 | apply frames_cancel_none, H2 | exact H3].
Qed.

Lemma Inv_set_status_cleared (s : AnalysisStatus) (w : World) :
  s <> RECORDING -> frames w = [] -> 0 < nextFrameId w ->
  cleared (set_status s w).
Proof. destruct w. simpl. intros Hs -> Hn. repeat split; assumption. Qed.

(** The first tick after the status became [RECORDING]. *)
Lemma Inv_tick_first (w : World) :
  frames w = [] -> 0 < nextFrameId w ->
  Inv (tick (set_status RECORDING w)).
Proof.
  destruct w. simpl. intros -> Hn. unfold Inv, tick. simpl.
  repeat split; [lia | | congruence].
  intros _. eexists. repeat split. lia.
Qed.

Lemma Inv_setStatus (s : AnalysisStatus) (w : World) :
  Inv w -> Inv (setStatus s w).
Proof.
  intros HI. pose proof HI as (I1 & I2 & I3).
  destruct (setStatus_cases s w)
    as [[H ->] | [[Hw [-> ->]] | [Hw [Hs ->]]]].
  - apply Inv_emit, HI.
  - apply Inv_tick_first.
    + apply Inv_cleanup_frames, Inv_emit, HI.
    + rewrite nextFrameId_cancel_current, nextFrameId_emit. exact I1.
  - apply Inv_cancel_cleared. apply Inv_set_status_cleared; [exact Hs | |].
    + apply Inv_cleanup_frames, Inv_emit, HI.
    + rewrite nextFrameId_cancel_current, nextFrameId_emit. exact I1.
Qed.

Lemma Inv_runAnimationFrame (w : World) :
  Inv w -> Inv (runAnimationFrame w).
Proof.
  intros HI. pose proof HI as (I1 & I2 & I3).
  destruct (status_eqb (status w) RECORDING) eqn:E.
  - apply status_eqb_eq in E. destruct (I2 E) as [id [Ha [Hid Hf]]].
    rewrite (runAnimationFrame_one id w Hf).
    destruct w. simpl in *. unfold Inv, tick. simpl.
    repeat split; [lia | | congruence].
    intros _. eexists. repeat split. lia.
  - apply status_eqb_neq in E.
    rewrite (runAnimationFrame_none w (I3 E)). exact HI.
Qed.

Lemma Inv_shape (w w' : World) : shape w w' -> Inv w -> Inv w'.
Proof.
  intros [Hq | s w1 H1 H2 | ->] HI.
  - eapply Inv_quiet; eassumption.
  - eapply Inv_quiet; [exact H2 |]. apply Inv_setStatus.
    eapply Inv_quiet; eassumption.
  - apply Inv_runAnimationFrame, HI.
Qed.

(** *** The shape of a step *)

Lemma startAnalysisFlow_shape (env : StartEnv) (w : World) :
  shape w (snd (startAnalysisFlow env w)).
Proof.
  destruct (analyzer_start env) as [stream | e |] eqn:Ha.
  - destruct (new_MediaRecorder_throws env) as [e |] eqn:Hc.
    + rewrite (startAnalysisFlow_constructor_throws env stream e w Ha Hc).
      simpl. eapply shape_status; [| apply quiet_refl].
      unfold instructed. quiet_chain.
    + destruct (recorder_start_throws env) as [e |] eqn:Hs.
      * rewrite (startAnalysisFlow_start_throws env stream e w Ha Hc Hs).
        simpl. eapply shape_status; [| apply quiet_refl].
        unfold instructed. quiet_chain.
      * rewrite (startAnalysisFlow_started env stream w Ha Hc Hs).
        simpl. eapply shape_status; [| apply quiet_refl].
        unfold instructed. quiet_chain.
  - rewrite (startAnalysisFlow_rejected env e w Ha). simpl.
    eapply shape_status; [| apply quiet_refl]. quiet_chain.
  - rewrite (startAnalysisFlow_pending env w Ha). simpl.
    apply shape_quiet. quiet_chain.
Qed.

Lemma stopRecording_shape (w : World) : shape w (snd (stopRecording w)).
Proof.
  destruct (mediaRecorderRef w) as [r |] eqn:Hr.
  - destruct (state r) eqn:Hs.
    + rewrite (stopRecording_inactive r w Hr Hs). simpl.
      apply shape_quiet. quiet_chain.
    + rewrite (stopRecording_active r w Hr) by congruence. simpl.
      eapply shape_status with (s := PROCESSING) (w1 := stopping r w).
      * unfold stopping. quiet_chain.
      * quiet_chain.
    + rewrite (stopRecording_active r w Hr) by congruence. simpl.
      eapply shape_status with (s := PROCESSING) (w1 := stopping r w).
      * unfold stopping. quiet_chain.
      * quiet_chain.
  - rewrite (stopRecording_no_recorder w Hr). simpl.
    apply shape_quiet. quiet_chain.
Qed.

Lemma performGeminiAnalysis_shape (genv : GeminiService.Env) (blob : Blob)
  (image : JsValue) (w : World) :
  shape w (snd (performGeminiAnalysis genv blob image w)).
Proof.
  rewrite performGeminiAnalysis_eq.
  destruct (fst (GeminiService.analyzeAudioWithGemini genv blob
                   (or_undefined image) [])) as [result | e |]; simpl.
  - eapply shape_status; [| apply quiet_refl].
    unfold analysis_called. quiet_chain.
  - eapply shape_status; [| apply quiet_refl].
    unfold analysis_called. quiet_chain.
  - apply shape_quiet. unfold analysis_called. quiet_chain.
Qed.


Lemma step_shape (e : Event) (w : World) : shape w (step e w).
Proof.
  destruct e as [env | | | | d | genv | a | img]; simpl.
  - destruct (status_eqb (status w) RECORDING
              || status_eqb (status w) PROCESSING
              || isSpeakingInstructions w);
      [apply shape_quiet, quiet_refl | apply startAnalysisFlow_shape].
  - destruct (status_eqb (status w) RECORDING);
      [apply stopRecording_shape | apply shape_quiet, quiet_refl].
  - destruct (truthy (geminiAnalysis w));
      [apply shape_quiet, quiet_setGeminiAnalysis
      | apply shape_quiet, quiet_refl].
  - apply shape_frame. reflexivity.
  - destruct (mediaRecorderRef w); [| apply shape_quiet, quiet_refl].
    unfold ondataavailable.
    destruct (Nat.ltb 0 (blob_size d));
      [apply shape_quiet, quiet_set_chunksRef
      | apply shape_quiet, quiet_refl].
  - destruct (mediaRecorderRef w) as [r |] eqn:Hr;
      [| unfold recorder_stop_event; rewrite Hr;
         apply shape_quiet, quiet_refl].
    destruct (stop_queued r) eqn:Hq;
      [| unfold recorder_stop_event; rewrite Hr, Hq;
         apply shape_quiet, quiet_refl].
    destruct (onstop r) as [image |] eqn:Ho;
      [| unfold recorder_stop_event; rewrite Hr, Hq, Ho;
         apply shape_quiet, quiet_set_mediaRecorderRef].
    rewrite (recorder_stop_event_fires genv r image w Hr Hq Ho).
    rewrite performGeminiAnalysis_eq.
    destruct (fst (GeminiService.analyzeAudioWithGemini genv _ _ []))
      as [result | e |]; simpl.
    + eapply shape_status; [| apply quiet_refl].
      unfold analysis_called. quiet_chain.
    + eapply shape_status; [| apply quiet_refl].
      unfold analysis_called. quiet_chain.
    + apply shape_quiet. unfold analysis_called. quiet_chain.
  - apply shape_quiet, quiet_set_analyzer.
  - apply shape_quiet, quiet_set_spectrogramImage.
Qed.

Lemma Inv_step (e : Event) (w : World) : Inv w -> Inv (step e w).
Proof. apply Inv_shape, step_shape. Qed.

Lemma Inv_run_from (evs : list Event) (w : World) :
  Inv w -> Inv (run evs w).
Proof.
  revert w. induction evs as [| e evs IH]; intros w HI; simpl;
    [exact HI | apply IH, Inv_step, HI].
Qed.

Lemma Inv_run (evs : list Event) : Inv (run evs init).
Proof. apply Inv_run_from, Inv_init. Qed.

Lemma run_app (evs1 evs2 : list Event) (w : World) :
  run (evs1 ++ evs2) w = run evs2 (run evs1 w).
Proof. unfold run. apply fold_left_app. Qed.

(** *** Induction over the loop

    A relation between worlds that holds of the quiet changes, of the
    silent ones and of a tick holds of every run. *)

Section LoopInduction.

Variable R : World -> World -> Prop.

Hypothesis R_refl : forall w, R w w.
Hypothesis R_trans : forall w1 w2 w3, R w1 w2 -> R w2 w3 -> R w1 w3.
Hypothesis R_quiet : forall w w', quiet w w' -> R w w'.
Hypothesis R_silent : forall w w', silent w w' -> R w w'.
Hypothesis R_tick : forall w, R w (tick w).

Lemma silent_emit (e : Effect) (w : World) :
  silent_effect e = true -> silent w (emit e w).
Proof.
  intros He. destruct w. split; [reflexivity |].
  exists [e]. split; [reflexivity |]. simpl. rewrite He. reflexivity.
Qed.

Lemma silent_set_status (s : AnalysisStatus) (w : World) :
  silent w (set_status s w).
Proof.
  destruct w. split; [reflexivity |]. apply extends_same_log. reflexivity.
Qed.

Lemma silent_set_frames (v : list (nat * AnalysisStatus)) (w : World) :
  silent w (set_frames v w).
Proof.
  destruct w. split; [reflexivity |]. apply extends_same_log. reflexivity.
Qed.

Lemma silent_cancel_current (w : World) : silent w (cancel_current w).
Proof.
  destruct (cancel_current_cases w) as [-> | [id [_ [_ ->]]]].
  - split; [reflexivity | apply extends_refl].
  - destruct w. split; [reflexivity |].
    exists [CancelAnimationFrame id]. split; reflexivity.
Qed.

Lemma R_updateMetrics (s : AnalysisStatus) (w : World) :
  R w (updateMetrics s w).
Proof.
  destruct s; try (rewrite updateMetrics_other by discriminate; apply R_refl).
  rewrite updateMetrics_recording. apply R_tick.
Qed.

Lemma R_setStatus (s : AnalysisStatus) (w : World) : R w (setStatus s w).
Proof.
  destruct (setStatus_cases s w)
    as [[H ->] | [[_ [-> ->]] | [_ [_ ->]]]].
  - apply R_silent, silent_emit. reflexivity.
  - eapply R_trans; [| apply R_tick].
    eapply R_trans; [| apply R_silent, silent_set_status].
    eapply R_trans; [| apply R_silent, silent_cancel_current].
    apply R_silent, silent_emit. reflexivity.
  - eapply R_trans; [| apply R_silent, silent_cancel_current].
    eapply R_trans; [| apply R_silent, silent_set_status].
    eapply R_trans; [| apply R_silent, silent_cancel_current].
    apply R_silent, silent_emit. reflexivity.
Qed.

Lemma R_fold_updateMetrics (cbs : list (nat * AnalysisStatus)) (w : World) :
  R w (fold_left (fun w' cb => updateMetrics (snd cb) w') cbs w).
Proof.
  revert w. induction cbs as [| cb cbs IH]; intros w; simpl.
  - apply R_refl.
  - eapply R_trans; [apply R_updateMetrics | apply IH].
Qed.

Lemma R_runAnimationFrame (w : World) : R w (runAnimationFrame w).
Proof.
  unfold runAnimationFrame.
  eapply R_trans;
    [apply R_silent, silent_set_frames | apply R_fold_updateMetrics].
Qed.

Lemma R_shape (w w' : World) : shape w w' -> R w w'.
Proof.
  intros [Hq | s w1 H1 H2 | ->].
  - apply R_quiet, Hq.
  - eapply R_trans; [apply R_quiet, H1 |].
    eapply R_trans; [apply R_setStatus | apply R_quiet, H2].
  - apply R_runAnimationFrame.
Qed.

Lemma R_step (e : Event) (w : World) : R w (step e w).
Proof. apply R_shape, step_shape. Qed.

Lemma R_run (evs : list Event) (w : World) : R w (run evs w).
Proof.
  revert w. induction evs as [| e evs IH]; intros w; simpl.
  - apply R_refl.
  - eapply R_trans; [apply R_step | apply IH].
Qed.

End LoopInduction.

(** *** Ticks and metrics *)

Lemma silent_effects_no_tick (l : list Effect) :
  forallb silent_effect l = true -> ticks l = 0 /\ Forall clarity_zero l.
Proof.
  induction l as [| e l IH]; simpl; [split; [reflexivity | constructor] |].
  intros H. apply andb_true_iff in H. destruct H as [He Hl].
  destruct (IH Hl) as [Ht Hc]. unfold ticks in *.
  destruct e; simpl in *; try discriminate;
    (split; [exact Ht | constructor; [exact I | exact Hc]]).
Qed.

Lemma calm_refl (w : World) : calm w w.
Proof. split; auto. Qed.

Lemma calm_trans (w1 w2 w3 : World) : calm w1 w2 -> calm w2 w3 -> calm w1 w3.
Proof.
  intros [L1 M1] [L2 M2]. split; [lia |].
  intros H. rewrite M2, M1 by lia. reflexivity.
Qed.

Lemma calm_quiet (w w' : World) : quiet w w' -> calm w w'.
Proof.
  intros (_ & Hm & _ & _ & _ & l & Hl & Hq).
  unfold calm. rewrite Hl, ticks_app, (quiet_effects_no_tick l Hq).
  split; [lia | auto].
Qed.

Lemma calm_silent (w w' : World) : silent w w' -> calm w w'.
Proof.
  intros (Hm & l & Hl & Hq).
  unfold calm. rewrite Hl, ticks_app.
  destruct (silent_effects_no_tick l Hq) as [-> _]. split; [lia | auto].
Qed.

Lemma ticks_tick (w : World) : ticks (log (tick w)) = S (ticks (log w)).
Proof. unfold tick. simpl. rewrite ticks_app. unfold ticks. simpl. lia. Qed.

Lemma calm_tick (w : World) : calm w (tick w).
Proof. unfold calm. rewrite ticks_tick. split; [lia | intros H; lia]. Qed.

Lemma calm_run (evs : list Event) (w : World) : calm w (run evs w).
Proof.
  apply R_run;
    [exact calm_refl | exact calm_trans | exact calm_quiet
    | exact calm_silent | exact calm_tick].
Qed.

(** *** Clarity *)

Lemma Clar_quiet (w w' : World) : quiet w w' -> Clar w -> Clar w'.
Proof.
  intros (_ & Hm & _ & _ & _ & l & Hl & Hq) [C1 C2].
  unfold Clar. rewrite Hm, Hl. split; [exact C1 |].
  apply Forall_app. split; [exact C2 | apply quiet_effects_clarity, Hq].
Qed.

Lemma Clar_silent (w w' : World) : silent w w' -> Clar w -> Clar w'.
Proof.
  intros (Hm & l & Hl & Hq) [C1 C2].
  unfold Clar. rewrite Hm, Hl. split; [exact C1 |].
  apply Forall_app. split; [exact C2 | apply silent_effects_no_tick, Hq].
Qed.

Lemma Clar_tick (w : World) : Clar w -> Clar (tick w).
Proof.
  intros [C1 C2]. unfold Clar, tick. simpl. split; [reflexivity |].
  apply Forall_app. split; [exact C2 |].
  repeat constructor.
Qed.

Lemma Clar_run (evs : list Event) (w : World) : Clar w -> Clar (run evs w).
Proof.
  apply (R_run (fun w w' => Clar w -> Clar w')).
  - intros w0 H. exact H.
  - intros w1 w2 w3 H1 H2 H. auto.
  - exact Clar_quiet.
  - exact Clar_silent.
  - exact Clar_tick.
Qed.

(** *** The log of the handlers *)

Lemma log_emit (e : Effect) (w : World) : log (emit e w) = log w ++ [e].
Proof. destruct w; reflexivity. Qed.

Lemma log_set_status (s : AnalysisStatus) (w : World) :
  log (set_status s w) = log w.
Proof. destruct w; reflexivity. Qed.

Lemma log_cancel_current (w : World) :
  exists l, log (cancel_current w) = log w ++ l /\ forallb is_cancel l = true.
Proof.
  destruct (cancel_current_cases w) as [-> | [id [_ [_ ->]]]].
  - exists []. rewrite app_nil_r. split; reflexivity.
  - exists [CancelAnimationFrame id].
    split; [apply cancelAnimationFrame_fields | reflexivity].
Qed.

(** A [setStatus] that does not start the recording publishes nothing and
    logs itself and cancellations only. *)
Lemma setStatus_not_recording (s : AnalysisStatus) (w : World) :
  s <> RECORDING ->
  metrics (setStatus s w) = metrics w /\
  exists l, log (setStatus s w) = log w ++ SetStatus s :: l /\
            forallb is_cancel l = true.
Proof.
  intros Hs.
  destruct (setStatus_cases s w)
    as [[H ->] | [[_ [-> _]] | [_ [_ ->]]]]; [| contradiction |].
  - destruct w. split; [reflexivity |]. exists []. split; reflexivity.
  - split.
    + rewrite metrics_cancel_current.
      transitivity (metrics (cancel_current (emit (SetStatus s) w)));
        [destruct (cancel_current (emit (SetStatus s) w)); reflexivity |].
      rewrite metrics_cancel_current. destruct w; reflexivity.
    + destruct (log_cancel_current
                  (set_status s (cancel_current (emit (SetStatus s) w))))
        as [l2 [H2 P2]].
      destruct (log_cancel_current (emit (SetStatus s) w)) as [l1 [H1 P1]].
      exists (l1 ++ l2).
      rewrite H2, log_set_status, H1, log_emit, forallb_app, P1, P2.
      rewrite <- !app_assoc. split; reflexivity.
Qed.

Lemma cancels_not_in (l : list Effect) (e : Effect) :
  forallb is_cancel l = true -> is_cancel e = false -> ~ In e l.
Proof.
  intros Hl He Hin. rewrite forallb_forall in Hl.
  rewrite (Hl e Hin) in He. discriminate.
Qed.

Lemma cancels_no_tick (l : list Effect) :
  forallb is_cancel l = true -> ticks l = 0.
Proof.
  induction l as [| e l IH]; simpl; [reflexivity |].
  intros H. apply andb_true_iff in H. destruct H as [He Hl].
  unfold ticks in *. destruct e; simpl in *; try discriminate; auto.
Qed.

(** *** The loop as specified *)

Import Samples.

(** C1. While the status is [RECORDING], the tick of every animation
    frame reads the pitch, the volume and the frequency data from the
    analyzer, publishes the metrics made of them (clarity 0), publishes
    the frequency data, and requests exactly one animation frame for its
    successor, which [animationRef] names. *)
Theorem tick_while_recording (evs : list Event) :
  let w := run evs init in
  status w = RECORDING ->
  let w' := step AnimationFrame w in
  let m := {| pitch := getPitch (analyzer w);
              volume := getVolume (analyzer w);
              clarity := 0 |} in
  log w'
  = log w ++ [AnalyzerGetPitch; AnalyzerGetVolume; AnalyzerGetFrequencyData;
              SetMetrics m;
              SetFrequencyData (getFrequencyData (analyzer w));
              RequestAnimationFrame (nextFrameId w)] /\
  metrics w' = m /\
  frequencyData w' = getFrequencyData (analyzer w) /\
  frames w' = [(nextFrameId w, RECORDING)] /\
  animationRef w' = Some (nextFrameId w) /\
  status w' = RECORDING.
Proof.
  intros w Hrec w' m. subst w'. simpl.
  destruct (Inv_run evs) as (_ & I2 & _). fold w in I2.
  destruct (I2 Hrec) as [id [_ [_ Hf]]].
  rewrite (runAnimationFrame_one id w Hf). subst m.
  destruct w. simpl in *. subst. repeat split.
Qed.

Lemma tick_while_recording_witness :
  let w := run [ClickStart sample_start; AudioInput sample_audio] init in
  status w = RECORDING /\
  metrics (step AnimationFrame w)
  = {| pitch := 220; volume := -20; clarity := 0 |} /\
  frames (step AnimationFrame w) = [(2, RECORDING)].
Proof.
  split; [reflexivity |].
  destruct (tick_while_recording
              [ClickStart sample_start; AudioInput sample_audio]
              eq_refl)
    as (_ & Hm & _ & Hf & _).
  split; [exact Hm | exact Hf].
Defined.

(** C2. When a step takes the status away from [RECORDING], the tick that
    was scheduled is cancelled: no animation frame callback is left, and
    as long as the status is not [RECORDING] again an animation frame runs
    no tick and schedules nothing. *)
Theorem leaving_recording_cancels_tick (evs : list Event) (e : Event) :
  let w := run evs init in
  status w = RECORDING -> status (step e w) <> RECORDING ->
  (exists id, animationRef w = Some id /\ frames w = [(id, RECORDING)]) /\
  frames (step e w) = [] /\
  (forall evs',
     let w2 := run evs' (step e w) in
     status w2 <> RECORDING ->
     frames w2 = [] /\ step AnimationFrame w2 = w2).
Proof.
  intros w Hrec Hleft.
  pose proof (Inv_run evs) as HI. fold w in HI.
  pose proof (Inv_step e w HI) as HI'.
  split; [| split].
  - destruct HI as (_ & I2 & _).
    destruct (I2 Hrec) as [id [Ha [_ Hf]]]. exists id. auto.
  - destruct HI' as (_ & _ & I3). auto.
  - intros evs' w2 Hw2.
    pose proof (Inv_run_from evs' (step e w) HI') as (_ & _ & I3).
    fold w2 in I3. split; [auto |].
    simpl. apply runAnimationFrame_none. auto.
Qed.

Lemma leaving_recording_cancels_tick_witness :
  let w := run [ClickStart sample_start] init in
  status w = RECORDING /\ status (step ClickStop w) = PROCESSING /\
  frames w = [(1, RECORDING)] /\ frames (step ClickStop w) = [].
Proof.
  split; [reflexivity |]. split; [reflexivity |]. split; [reflexivity |].
  apply (leaving_recording_cancels_tick [ClickStart sample_start] ClickStop);
    [reflexivity | discriminate].
Defined.

Lemma silent_setStatus (s : AnalysisStatus) (w : World) :
  s <> RECORDING -> metrics (setStatus s w) = metrics w.
Proof. intros Hs. apply setStatus_not_recording, Hs. Qed.

(** *** Fields after the handlers *)

Lemma fields_setStatus (s : AnalysisStatus) (w : World) :
  status (setStatus s w) = s /\
  mediaRecorderRef (setStatus s w) = mediaRecorderRef w /\
  chunksRef (setStatus s w) = chunksRef w /\
  geminiAnalysis (setStatus s w) = geminiAnalysis w /\
  isSpeakingInstructions (setStatus s w) = isSpeakingInstructions w.
Proof.
  destruct (loop_change_setStatus s w) as (A & B & C & D & _).
  split; [apply status_setStatus | auto].
Qed.

Lemma fields_instructed (stream : MediaStream) (w : World) :
  status (instructed stream w) = status w /\
  mediaRecorderRef (instructed stream w) = mediaRecorderRef w /\
  chunksRef (instructed stream w) = chunksRef w /\
  geminiAnalysis (instructed stream w) = None /\
  isSpeakingInstructions (instructed stream w) = false /\
  log (instructed stream w)
  = log w ++ [SetGeminiAnalysis None; AnalyzerStart; SpeechSynthesisCancel;
              SetIsSpeakingInstructions true;
              SpeechSynthesisSpeak instructions_text;
              SpeechSynthesisCancel; SetIsSpeakingInstructions false;
              NewMediaRecorder stream].
Proof.
  destruct w. unfold instructed. simpl. repeat split.
  rewrite <- !app_assoc. reflexivity.
Qed.

Lemma start_outcome (env : StartEnv) : StartOutcome env.
Proof.
  destruct (analyzer_start env) as [stream | e |] eqn:Ha.
  - destruct (new_MediaRecorder_throws env) as [e |] eqn:Hc.
    + exact (ConstructorThrew env stream e Ha Hc).
    + destruct (recorder_start_throws env) as [e |] eqn:Hs.
      * exact (StartThrew env stream e Ha Hc Hs).
      * exact (Started env stream Ha Hc Hs).
  - exact (Refused env e Ha).
  - exact (Unanswered env Ha).
Qed.

Lemma start_started (env : StartEnv) (stream : MediaStream) (w : World) :
  analyzer_start env = Fulfilled stream ->
  new_MediaRecorder_throws env = None ->
  recorder_start_throws env = None ->
  let w' := snd (startAnalysisFlow env w) in
  status w' = RECORDING /\
  mediaRecorderRef w' = Some (fresh_recorder stream recording) /\
  chunksRef w' = [] /\ geminiAnalysis w' = None /\
  isSpeakingInstructions w' = false.
Proof.
  intros Ha Hc Hs w'. subst w'.
  rewrite (startAnalysisFlow_started env stream w Ha Hc Hs). simpl.
  match goal with
  | |- context [setStatus RECORDING ?X] =>
      destruct (fields_setStatus RECORDING X) as (-> & -> & -> & -> & ->)
  end.
  destruct w. repeat split.
Qed.

Lemma start_start_threw (env : StartEnv) (stream : MediaStream)
  (e : JsError) (w : World) :
  analyzer_start env = Fulfilled stream ->
  new_MediaRecorder_throws env = None ->
  recorder_start_throws env = Some e ->
  let w' := snd (startAnalysisFlow env w) in
  status w' = IDLE /\
  mediaRecorderRef w' = Some (fresh_recorder stream inactive) /\
  chunksRef w' = [] /\ geminiAnalysis w' = None /\
  isSpeakingInstructions w' = false.
Proof.
  intros Ha Hc Hs w'. subst w'.
  rewrite (startAnalysisFlow_start_throws env stream e w Ha Hc Hs). simpl.
  match goal with
  | |- context [setStatus IDLE ?X] =>
      destruct (fields_setStatus IDLE X) as (-> & -> & -> & -> & ->)
  end.
  destruct w. repeat split.
Qed.

Lemma start_constructor_threw (env : StartEnv) (stream : MediaStream)
  (e : JsError) (w : World) :
  analyzer_start env = Fulfilled stream ->
  new_MediaRecorder_throws env = Some e ->
  let w' := snd (startAnalysisFlow env w) in
  status w' = IDLE /\
  mediaRecorderRef w' = mediaRecorderRef w /\
  chunksRef w' = chunksRef w /\ geminiAnalysis w' = None /\
  isSpeakingInstructions w' = false.
Proof.
  intros Ha Hc w'. subst w'.
  rewrite (startAnalysisFlow_constructor_throws env stream e w Ha Hc). simpl.
  match goal with
  | |- context [setStatus IDLE ?X] =>
      destruct (fields_setStatus IDLE X) as (-> & -> & -> & -> & ->)
  end.
  destruct w. repeat split.
Qed.

Lemma start_refused (env : StartEnv) (e : JsError) (w : World) :
  analyzer_start env = Rejected e ->
  let w' := snd (startAnalysisFlow env w) in
  status w' = IDLE /\
  mediaRecorderRef w' = mediaRecorderRef w /\
  chunksRef w' = chunksRef w /\ geminiAnalysis w' = None /\
  isSpeakingInstructions w' = isSpeakingInstructions w.
Proof.
  intros Ha w'. subst w'.
  rewrite (startAnalysisFlow_rejected env e w Ha). simpl.
  match goal with
  | |- context [setStatus IDLE ?X] =>
      destruct (fields_setStatus IDLE X) as (-> & -> & -> & -> & ->)
  end.
  destruct w. repeat split.
Qed.

Lemma start_unanswered (env : StartEnv) (w : World) :
  analyzer_start env = Pending ->
  let w' := snd (startAnalysisFlow env w) in
  status w' = status w /\
  mediaRecorderRef w' = mediaRecorderRef w /\
  chunksRef w' = chunksRef w /\ geminiAnalysis w' = None /\
  isSpeakingInstructions w' = isSpeakingInstructions w.
Proof.
  intros Ha w'. subst w'.
  rewrite (startAnalysisFlow_pending env w Ha). simpl.
  destruct w. repeat split.
Qed.

(** The stop, by the state of the recorder. *)
Lemma stop_active (r : MediaRecorder) (w : World) :
  mediaRecorderRef w = Some r -> state r <> inactive ->
  let w' := snd (stopRecording w) in
  status w' = PROCESSING /\
  mediaRecorderRef w'
  = Some (stopped_recorder r (Some (spectrogramImage w))) /\
  chunksRef w' = chunksRef w.
Proof.
  intros Hr Hs w'. subst w'.
  rewrite (stopRecording_active r w Hr Hs). simpl.
  destruct (fields_setStatus PROCESSING (stopping r w))
    as (Hst & _ & Hch & _).
  destruct (setStatus PROCESSING (stopping r w)); simpl in *.
  repeat split; [exact Hst |].
  rewrite Hch. unfold stopping. destruct w; reflexivity.
Qed.

(** *** The first tick of a start *)

Lemma step_start_enabled (env : StartEnv) (w : World) :
  status w <> RECORDING -> status w <> PROCESSING ->
  isSpeakingInstructions w = false ->
  step (ClickStart env) w = snd (startAnalysisFlow env w).
Proof.
  intros Hnr Hnp Hsp. simpl.
  apply status_eqb_neq in Hnr. apply status_eqb_neq in Hnp.
  rewrite Hnr, Hnp, Hsp. reflexivity.
Qed.

Lemma fields_recorder_started (stream : MediaStream) (w : World) :
  status (recorder_started stream w) = status w /\
  metrics (recorder_started stream w) = metrics w /\
  analyzer (recorder_started stream w) = analyzer w /\
  spectrogramImage (recorder_started stream w) = spectrogramImage w /\
  log (recorder_started stream w)
  = log w ++ [SetGeminiAnalysis None; AnalyzerStart; SpeechSynthesisCancel;
              SetIsSpeakingInstructions true;
              SpeechSynthesisSpeak instructions_text;
              SpeechSynthesisCancel; SetIsSpeakingInstructions false;
              NewMediaRecorder stream; RecorderStart].
Proof.
  unfold recorder_started, instructed. destruct w. simpl. repeat split.
  rewrite <- !app_assoc. reflexivity.
Qed.

(** A start that succeeds runs the first tick itself: the effect of the
    new status calls [updateMetrics] at once (line 48). *)
Lemma start_first_tick (env : StartEnv) (stream : MediaStream) (w : World) :
  analyzer_start env = Fulfilled stream ->
  new_MediaRecorder_throws env = None ->
  recorder_start_throws env = None ->
  status w <> RECORDING ->
  let w' := snd (startAnalysisFlow env w) in
  metrics w' = {| pitch := getPitch (analyzer w);
                  volume := getVolume (analyzer w); clarity := 0 |} /\
  ticks (log w') = S (ticks (log w)).
Proof.
  intros Ha Hc Hs Hnr w'. subst w'.
  rewrite (startAnalysisFlow_started env stream w Ha Hc Hs). simpl.
  fold (recorder_started stream w).
  destruct (fields_recorder_started stream w) as (Fs & Fm & Fa & _ & Fl).
  rewrite setStatus_recording by (rewrite Fs; exact Hnr).
  set (X := set_status RECORDING
              (cancel_current
                 (emit (SetStatus RECORDING) (recorder_started stream w)))).
  assert (HX : analyzer X = analyzer w /\ ticks (log X) = ticks (log w)).
  { subst X.
    destruct (loop_change_set_status RECORDING
                (cancel_current
                   (emit (SetStatus RECORDING) (recorder_started stream w))))
      as (_ & _ & _ & _ & -> & _).
    destruct (loop_change_cancel_current
                (emit (SetStatus RECORDING) (recorder_started stream w)))
      as (_ & _ & _ & _ & -> & _).
    rewrite log_set_status.
    destruct (log_cancel_current
                (emit (SetStatus RECORDING) (recorder_started stream w)))
      as [l [-> Pl]].
    rewrite log_emit, Fl, !ticks_app, (cancels_no_tick l Pl).
    split; [destruct (recorder_started stream w); simpl in *; exact Fa |].
    unfold ticks at 2 3. simpl. lia. }
  destruct HX as [HXa HXt].
  rewrite ticks_tick, HXt. split; [| reflexivity].
  unfold tick. simpl. rewrite HXa. reflexivity.
Qed.

(** A stop publishes no metrics. *)
Lemma metrics_stop (w : World) :
  metrics (snd (stopRecording w)) = metrics w.
Proof.
  destruct (mediaRecorderRef w) as [r |] eqn:Hr.
  - destruct (is_inactive (state r)) eqn:Hi.
    + rewrite (stopRecording_inactive r w Hr)
        by (destruct (state r); [reflexivity | discriminate | discriminate]).
      destruct w; reflexivity.
    + assert (Hact : state r <> inactive)
        by (intros H; rewrite H in Hi; discriminate).
      rewrite (stopRecording_active r w Hr Hact). simpl.
      transitivity (metrics (setStatus PROCESSING (stopping r w)));
        [destruct (setStatus PROCESSING (stopping r w)); reflexivity |].
      rewrite silent_setStatus by discriminate.
      unfold stopping. destruct w; reflexivity.
  - rewrite (stopRecording_no_recorder w Hr). destruct w; reflexivity.
Qed.

(** A start button that leads to [RECORDING] was enabled and its flow
    succeeded. *)
Lemma start_reaches_recording (env : StartEnv) (w : World) :
  status w <> RECORDING -> status (step (ClickStart env) w) = RECORDING ->
  step (ClickStart env) w = snd (startAnalysisFlow env w) /\
  exists stream,
    analyzer_start env = Fulfilled stream /\
    new_MediaRecorder_throws env = None /\
    recorder_start_throws env = None.
Proof.
  intros Hnr Hrec.
  assert (Hstep : step (ClickStart env) w = snd (startAnalysisFlow env w)).
  { simpl in *.
    destruct (status_eqb (status w) RECORDING
              || status_eqb (status w) PROCESSING
              || isSpeakingInstructions w); [contradiction | reflexivity]. }
  split; [exact Hstep |]. rewrite Hstep in Hrec.
  destruct (start_outcome env)
    as [stream Ha Hc Hs | stream e Ha Hc Hs | stream e Ha Hc | e Ha | Ha].
  - exists stream. auto.
  - destruct (start_start_threw env stream e w Ha Hc Hs) as (A & _).
    rewrite A in Hrec. discriminate.
  - destruct (start_constructor_threw env stream e w Ha Hc) as (A & _).
    rewrite A in Hrec. discriminate.
  - destruct (start_refused env e w Ha) as (A & _).
    rewrite A in Hrec. discriminate.
  - destruct (start_unanswered env w Ha) as (A & _).
    rewrite A in Hrec. contradiction.
Qed.

(** A step that begins and ends outside [RECORDING] publishes nothing. *)
Lemma metrics_idle_step (e : Event) (w : World) :
  Inv w -> status w <> RECORDING -> status (step e w) <> RECORDING ->
  metrics (step e w) = metrics w.
Proof.
  intros HI Hw Hw'.
  destruct (step_shape e w) as [Hq | s w1 H1 H2 | Hf].
  - apply Hq.
  - destruct H2 as (Hs2 & Hm2 & _). destruct H1 as (_ & Hm1 & _).
    rewrite Hm2, <- Hm1. apply silent_setStatus.
    rewrite Hs2, status_setStatus in Hw'. exact Hw'.
  - rewrite Hf. destruct HI as (_ & _ & I3).
    rewrite (runAnimationFrame_none w (I3 Hw)). reflexivity.
Qed.

Lemma float_neq_220_0 :
  {| pitch := 220; volume := -20; clarity := 0 |}
  <> {| pitch := 0; volume := -100; clarity := 0 |}.
Proof.
  intros H.
  apply (f_equal (fun m => PrimFloat.eqb (pitch m) 0)) in H.
  vm_compute in H. discriminate.
Qed.

(** C3, as stated, fails.  The analyzer reads 220 Hz at -20 dB; a start
    that succeeds followed by the stop, with no animation frame in
    between, leaves the metrics at that reading and not at their value
    before the start, and there they stay when the analysis has
    completed. *)
Lemma start_stop_changes_metrics :
  let w := run [AudioInput sample_audio] init in
  let w' := run [ClickStart sample_start; ClickStop] w in
  let w'' := step (RecorderStopped sample_env) w' in
  status w = IDLE /\ status w' = PROCESSING /\ status w'' = COMPLETED /\
  metrics w = {| pitch := 0; volume := -100; clarity := 0 |} /\
  metrics w' = {| pitch := 220; volume := -20; clarity := 0 |} /\
  metrics w'' = {| pitch := 220; volume := -20; clarity := 0 |} /\
  metrics w' <> metrics w.
Proof.
  cbv zeta. repeat split. exact float_neq_220_0.
Qed.

(** C3, amended.  The metrics start as pitch 0, volume -100, clarity 0.
    A step that begins and ends with a status other than [RECORDING]
    leaves them as they are, and so does every sequence of steps during
    which no tick ran.  A start that reaches [RECORDING] runs one tick at
    once, before any animation frame: the metrics become the reading of
    the analyzer with clarity 0, and the stop that follows leaves them at
    that reading.  A start that does not reach [RECORDING], followed by
    the stop, leaves the metrics at their value before the start. *)
Theorem metrics_frozen_outside_recording (evs evs' : list Event) (e : Event)
  (env : StartEnv) :
  let w := run evs init in
  let reading := {| pitch := getPitch (analyzer w);
                    volume := getVolume (analyzer w); clarity := 0 |} in
  metrics init = {| pitch := 0; volume := -100; clarity := 0 |} /\
  (status w <> RECORDING -> status (step e w) <> RECORDING ->
   metrics (step e w) = metrics w) /\
  (ticks (log (run evs' w)) = ticks (log w) ->
   metrics (run evs' w) = metrics w) /\
  (status w <> RECORDING ->
   let w1 := step (ClickStart env) w in
   let w2 := step ClickStop w1 in
   (status w1 = RECORDING ->
    ticks (log w1) = S (ticks (log w)) /\ metrics w1 = reading /\
    status w2 = PROCESSING /\ metrics w2 = reading /\
    (forall evs2, ticks (log (run evs2 w1)) = ticks (log w1) ->
                  metrics (run evs2 w1) = reading)) /\
   (status w1 <> RECORDING -> w2 = w1 /\ metrics w2 = metrics w)).
Proof.
  intros w reading.
  pose proof (Inv_run evs) as HI. fold w in HI.
  split; [reflexivity |].
  split; [apply (metrics_idle_step e w HI) |].
  split; [apply (calm_run evs' w) |].
  intros Hnr w1 w2. split.
  - intros Hrec.
    destruct (start_reaches_recording env w Hnr Hrec)
      as [Hstep [stream (Ha & Hc & Hs)]].
    destruct (start_first_tick env stream w Ha Hc Hs Hnr) as [Hm Ht].
    destruct (start_started env stream w Ha Hc Hs) as (_ & Hr & _).
    rewrite <- Hstep in Hm, Ht, Hr. fold w1 in Hm, Ht, Hr.
    assert (Hw2 : w2 = snd (stopRecording w1))
      by (subst w2; simpl; fold w1; rewrite Hrec; reflexivity).
    assert (Hact : state (fresh_recorder stream recording) <> inactive)
      by discriminate.
    destruct (stop_active _ w1 Hr Hact) as (Hs2 & _).
    rewrite <- Hw2 in Hs2.
    split; [exact Ht |]. split; [exact Hm |]. split; [exact Hs2 |].
    split; [rewrite Hw2, metrics_stop; exact Hm |].
    intros evs2 Hno. transitivity (metrics w1); [| exact Hm].
    apply (calm_run evs2 w1), Hno.
  - intros Hidle.
    assert (Hw2 : w2 = w1).
    { subst w2. simpl. fold w1. apply status_eqb_neq in Hidle.
      rewrite Hidle. reflexivity. }
    split; [exact Hw2 |]. rewrite Hw2.
    apply (metrics_idle_step (ClickStart env) w HI Hnr Hidle).
Qed.

Lemma metrics_frozen_outside_recording_witness :
  let w := run [AudioInput sample_audio] init in
  status w = IDLE /\
  status (step (ClickStart sample_start) w) = RECORDING /\
  metrics (step ClickStop (step (ClickStart sample_start) w))
  = {| pitch := 220; volume := -20; clarity := 0 |}.
Proof.
  assert (Hnr : status (run [AudioInput sample_audio] init) <> RECORDING)
    by discriminate.
  split; [reflexivity |]. split; [reflexivity |].
  destruct (metrics_frozen_outside_recording [AudioInput sample_audio] []
              ClickStop sample_start) as (_ & _ & _ & H).
  destruct (H Hnr) as [Hrec _].
  destruct (Hrec eq_refl) as (_ & _ & _ & Hm & _). exact Hm.
Defined.

(** A start that succeeds runs its first tick at once: the effect of the
    new status calls [updateMetrics] itself. *)
Lemma start_runs_first_tick :
  let w := run [AudioInput sample_audio; ClickStart sample_start] init in
  status w = RECORDING /\ ticks (log w) = 1 /\
  metrics w = {| pitch := 220; volume := -20; clarity := 0 |}.
Proof. repeat split. Qed.

(** C9. The clarity of the metrics is 0 in every state the component
    reaches, and in every value it has ever passed to [setMetrics]. *)
Theorem clarity_always_zero (evs : list Event) :
  let w := run evs init in
  clarity (metrics w) = 0%float /\
  Forall (fun e => match e with
                   | SetMetrics m => clarity m = 0%float
                   | _ => True
                   end) (log w).
Proof.
  intros w. apply (Clar_run evs init). split; [reflexivity | constructor].
Qed.

(** *** Starting and stopping *)

Lemma setGeminiAnalysis_fields (a : option string) (w : World) :
  status (setGeminiAnalysis a w) = status w /\
  metrics (setGeminiAnalysis a w) = metrics w /\
  mediaRecorderRef (setGeminiAnalysis a w) = mediaRecorderRef w /\
  chunksRef (setGeminiAnalysis a w) = chunksRef w /\
  log (setGeminiAnalysis a w) = log w ++ [SetGeminiAnalysis a].
Proof. destruct w. repeat split. Qed.

Lemma at_return_eq (w : World) :
  at_return w = emit AnalyzerStart (setGeminiAnalysis None w).
Proof.
  unfold at_return. rewrite startAnalysisFlow_pending; reflexivity.
Qed.

(** C4, as stated, fails.  When the microphone is refused the promise the
    start flow returns is fulfilled, not rejected, and when the call
    returns nothing has been reported: the log holds the reset of the
    report and the call of [analyzer.start()] only. *)
Lemma start_failure_not_surfaced :
  analyzer_start sample_refused = Rejected "NotAllowedError" /\
  fst (startAnalysisFlow sample_refused init) = Fulfilled tt /\
  log (at_return init) = [SetGeminiAnalysis None; AnalyzerStart] /\
  ~ StartAsStated.surfaced_synchronously sample_refused init.
Proof.
  split; [reflexivity |]. split; [reflexivity |]. split; [reflexivity |].
  intros [[e H] | H]; discriminate.
Qed.

(** C4, amended.  When [analyzer.start()] is rejected (no audio device,
    permission denied), the failure is not surfaced to the caller of the
    start flow: the promise of the flow is fulfilled, and when the call
    returns only the reset of the report and the call of
    [analyzer.start()] have happened.  The flow catches the rejection
    itself and reports it afterwards, through [console.error] with the
    error and through the alert, and ends with the status [IDLE].  It
    leaves the recorder, the chunks and the metrics as they were: it makes
    no recorder and starts none, it never sets the status to [RECORDING],
    it publishes no metrics and runs no tick. *)
Theorem start_failure_leaves_idle (env : StartEnv) (err : JsError)
  (w : World) :
  analyzer_start env = Rejected err ->
  let result := startAnalysisFlow env w in
  let w' := snd result in
  fst result = Fulfilled tt /\
  log (at_return w) = log w ++ [SetGeminiAnalysis None; AnalyzerStart] /\
  status (at_return w) = status w /\
  status w' = IDLE /\
  mediaRecorderRef w' = mediaRecorderRef w /\
  chunksRef w' = chunksRef w /\
  metrics w' = metrics w /\
  exists l,
    log w'
    = log (at_return w)
        ++ [ConsoleError "Error flow:" err; Alert start_error_message;
            SetStatus IDLE] ++ l /\
    forallb is_cancel l = true.
Proof.
  intros Hrej result w'. subst w' result.
  rewrite (startAnalysisFlow_rejected env err w Hrej), at_return_eq. simpl.
  set (w0 := emit AnalyzerStart (setGeminiAnalysis None w)).
  set (w1 := emit (Alert start_error_message)
               (emit (ConsoleError "Error flow:" err) w0)).
  assert (H0 : status w0 = status w /\
               log w0 = log w ++ [SetGeminiAnalysis None; AnalyzerStart]).
  { subst w0. destruct w. simpl. split; [reflexivity |].
    rewrite <- !app_assoc. reflexivity. }
  assert (H1 : metrics w1 = metrics w /\
               mediaRecorderRef w1 = mediaRecorderRef w /\
               chunksRef w1 = chunksRef w /\
               log w1 = log w0 ++ [ConsoleError "Error flow:" err;
                                   Alert start_error_message]).
  { subst w1 w0. destruct w. simpl. repeat split.
    rewrite <- !app_assoc. reflexivity. }
  destruct H0 as [Hs0 Hl0]. destruct H1 as (Hm & Hr & Hc & Hl).
  destruct (loop_change_setStatus IDLE w1) as (Lr & Lc & _).
  destruct (setStatus_not_recording IDLE w1) as [Sm [l [Sl Pl]]];
    [discriminate |].
  split; [reflexivity |]. split; [exact Hl0 |]. split; [exact Hs0 |].
  split; [apply status_setStatus |].
  split; [congruence |]. split; [congruence |]. split; [congruence |].
  exists l. split; [| exact Pl].
  rewrite Sl, Hl, <- app_assoc. reflexivity.
Qed.

Lemma start_failure_leaves_idle_witness :
  let w := run [AudioInput sample_audio] init in
  let w' := snd (startAnalysisFlow sample_refused w) in
  fst (startAnalysisFlow sample_refused w) = Fulfilled tt /\
  status w' = IDLE /\ mediaRecorderRef w' = None /\
  metrics w' = {| pitch := 0; volume := -100; clarity := 0 |}.
Proof.
  destruct (start_failure_leaves_idle sample_refused "NotAllowedError"
              (run [AudioInput sample_audio] init) eq_refl)
    as (Hf & _ & _ & Hs & Hr & _ & Hm & _).
  split; [exact Hf |]. split; [exact Hs |]. split; [exact Hr | exact Hm].
Defined.

Lemma same_captures_loop_change (w w' : World) :
  loop_change w w' -> same_captures w w'.
Proof.
  intros (_ & _ & _ & _ & _ & _ & l & Hl & Pl).
  destruct (loop_effects_no_capture l Pl) as [Hc Hr].
  unfold same_captures.
  rewrite Hl, captures_app, analysis_requests_app, Hc, Hr, app_nil_r.
  split; [lia | reflexivity].
Qed.

Lemma awaiting_step (r : MediaRecorder) (e : Event) (w : World) :
  (forall g, e <> RecorderStopped g) ->
  awaiting r w -> awaiting r (step e w) /\ same_captures w (step e w).
Proof.
  intros He [Hs Hr]. unfold awaiting, same_captures.
  destruct e as [env | | | | d | genv | a | img]; simpl.
  - rewrite Hs. simpl. auto.
  - rewrite Hs. simpl. auto.
  - destruct (truthy (geminiAnalysis w)); [| auto].
    destruct w; simpl in *. unfold captures.
    rewrite filter_app, analysis_requests_app. simpl.
    rewrite !app_nil_r. auto.
  - rewrite status_runAnimationFrame.
    destruct (loop_change_runAnimationFrame w) as (Lr & _).
    destruct (same_captures_loop_change w (runAnimationFrame w)
                (loop_change_runAnimationFrame w)) as [Hc Hq].
    rewrite Lr. auto.
  - rewrite Hr. unfold ondataavailable.
    destruct (Nat.ltb 0 (blob_size d)); [| auto].
    destruct w; simpl in *. auto.
  - exfalso. apply (He genv). reflexivity.
  - destruct w; simpl in *. auto.
  - destruct w; simpl in *. auto.
Qed.

Lemma awaiting_run (r : MediaRecorder) (evs : list Event) (w : World) :
  (forall g, ~ In (RecorderStopped g) evs) ->
  awaiting r w -> awaiting r (run evs w) /\ same_captures w (run evs w).
Proof.
  revert w. induction evs as [| e evs IH]; intros w Hno Hw; simpl.
  - split; [exact Hw | split; reflexivity].
  - assert (He : forall g, e <> RecorderStopped g)
      by (intros g Hg; apply (Hno g); left; exact Hg).
    destruct (awaiting_step r e w He Hw) as [Hw1 [Hc1 Hq1]].
    destruct (IH (step e w)) as [Hw2 [Hc2 Hq2]];
      [intros g Hg; apply (Hno g); right; exact Hg | exact Hw1 |].
    split; [exact Hw2 |]. split; congruence.
Qed.

(** C6. A stop request on a recorder that is not inactive reads the
    canvas of the spectrogram once.  Whatever is painted afterwards, the
    analysis request made when the recorder has stopped carries the image
    read at the stop (absent when what was read is [null], [undefined] or
    the empty string), and no other capture or request is made in
    between. *)
Theorem stop_captures_spectrogram_once (w : World) (r : MediaRecorder)
  (evs : list Event) (genv : GeminiService.Env) :
  status w = RECORDING -> mediaRecorderRef w = Some r ->
  state r <> inactive ->
  (forall g, ~ In (RecorderStopped g) evs) ->
  let w1 := step ClickStop w in
  let w2 := run evs w1 in
  let w3 := step (RecorderStopped genv) w2 in
  log (stopping r w)
  = log w ++ [SpeechSynthesisCancel; GetCanvasImage (spectrogramImage w);
              RecorderStop; AnalyzerStop] /\
  captures (log w1) = S (captures (log w)) /\
  captures (log w3) = S (captures (log w)) /\
  analysis_requests (log w3)
  = analysis_requests (log w)
      ++ [(new_Blob (chunksRef w2) "audio/webm",
           or_undefined (spectrogramImage w))] /\
  (forall img, spectrogramImage w = JString img -> img <> "" ->
               or_undefined (spectrogramImage w) = Some img).
Proof.
  intros Hrec Hr Hact Hno w1 w2 w3.
  set (image := spectrogramImage w).
  set (r1 := stopped_recorder r (Some image)).
  assert (Hstop : log (stopping r w)
                  = log w ++ [SpeechSynthesisCancel; GetCanvasImage image;
                              RecorderStop; AnalyzerStop]).
  { subst image. unfold stopping. destruct w. simpl.
    rewrite <- !app_assoc. reflexivity. }
  assert (Hw1 : w1 = set_mediaRecorderRef (Some r1)
                       (setStatus PROCESSING (stopping r w))).
  { subst w1. simpl. rewrite Hrec. simpl.
    rewrite (stopRecording_active r w Hr Hact). reflexivity. }
  assert (Hc1 : captures (log w1) = S (captures (log w)) /\
                analysis_requests (log w1) = analysis_requests (log w)).
  { destruct (same_captures_loop_change _ _
                (loop_change_setStatus PROCESSING (stopping r w)))
      as [Hc Hq].
    rewrite Hw1.
    replace (log (set_mediaRecorderRef (Some r1)
                    (setStatus PROCESSING (stopping r w))))
      with (log (setStatus PROCESSING (stopping r w)))
      by (destruct (setStatus PROCESSING (stopping r w)); reflexivity).
    rewrite Hc, Hq, Hstop, captures_app, analysis_requests_app. simpl.
    rewrite app_nil_r. split; [unfold captures at 2; simpl; lia |].
    reflexivity. }
  assert (Ha1 : awaiting r1 w1).
  { rewrite Hw1. split.
    - transitivity (status (setStatus PROCESSING (stopping r w)));
        [destruct (setStatus PROCESSING (stopping r w)); reflexivity |].
      apply status_setStatus.
    - destruct (setStatus PROCESSING (stopping r w)); reflexivity. }
  destruct (awaiting_run r1 evs w1 Hno Ha1) as [[Hs2 Hr2] [Hc2 Hq2]].
  fold w2 in Hs2, Hr2, Hc2, Hq2.
  assert (H3 : captures (log w3) = captures (log w2) /\
               analysis_requests (log w3)
               = analysis_requests (log w2)
                   ++ [(new_Blob (chunksRef w2) "audio/webm",
                        or_undefined image)]).
  { subst w3. simpl.
    rewrite (recorder_stop_event_fires genv r1 image w2 Hr2 eq_refl eq_refl).
    rewrite performGeminiAnalysis_eq.
    set (w2' := set_mediaRecorderRef _ w2).
    set (blob := new_Blob (chunksRef w2) "audio/webm").
    assert (Hcalled :
      captures (log (analysis_called genv blob image w2'))
      = captures (log w2) /\
      analysis_requests (log (analysis_called genv blob image w2'))
      = analysis_requests (log w2) ++ [(blob, or_undefined image)]).
    { subst w2'. unfold analysis_called. destruct w2. simpl.
      rewrite captures_app, analysis_requests_app. simpl.
      split; [unfold captures at 2; simpl; lia | reflexivity]. }
    destruct Hcalled as [Hcc Hcq].
    assert (Hset : forall a X,
      captures (log (setGeminiAnalysis a X)) = captures (log X) /\
      analysis_requests (log (setGeminiAnalysis a X))
      = analysis_requests (log X)).
    { intros a X. destruct (setGeminiAnalysis_fields a X)
        as (_ & _ & _ & _ & ->).
      rewrite captures_app, analysis_requests_app. simpl.
      rewrite app_nil_r. split; [unfold captures at 2; simpl; lia |].
      reflexivity. }
    destruct (fst (GeminiService.analyzeAudioWithGemini genv blob
                     (or_undefined image) [])) as [result | e |]; simpl.
    - destruct (same_captures_loop_change _ _
                  (loop_change_setStatus COMPLETED
                     (setGeminiAnalysis (Some result)
                        (analysis_called genv blob image w2'))))
        as [-> ->].
      destruct (Hset (Some result) (analysis_called genv blob image w2'))
        as [-> ->]. auto.
    - destruct (same_captures_loop_change _ _
                  (loop_change_setStatus ERROR
                     (setGeminiAnalysis (Some "Falha na análise da IA.")
                        (analysis_called genv blob image w2'))))
        as [-> ->].
      destruct (Hset (Some "Falha na análise da IA.")
                  (analysis_called genv blob image w2'))
        as [-> ->]. auto.
    - auto. }
  destruct Hc1 as [Hc1 Hq1]. destruct H3 as [Hc3 Hq3].
  split; [exact Hstop |]. split; [exact Hc1 |].
  split; [congruence |]. split; [congruence |].
  intros img Himg Hne. subst image. rewrite Himg. simpl.
  destruct (String.eqb_spec img ""); [contradiction | reflexivity].
Qed.

Lemma stop_captures_spectrogram_once_witness :
  let w := run [ClickStart sample_start; CanvasPainted sample_image] init in
  let evs := [AnimationFrame; CanvasPainted (JString "later");
              DataAvailable sample_blob] in
  let w3 := step (RecorderStopped sample_env)
              (run evs (step ClickStop w)) in
  captures (log w3) = 1 /\
  analysis_requests (log w3)
  = [(sample_blob, Some "data:image/png;base64,iVBORw0KGgo=")].
Proof.
  destruct (stop_captures_spectrogram_once
              (run [ClickStart sample_start; CanvasPainted sample_image]
                 init)
              (fresh_recorder 7 recording)
              [AnimationFrame; CanvasPainted (JString "later");
               DataAvailable sample_blob]
              sample_env eq_refl eq_refl)
    as (_ & _ & Hc & Hq & _).
  - discriminate.
  - intros g [H | [H | [H | []]]]; discriminate.
  - split; [exact Hc | exact Hq].
Defined.

End AppFacts.

(** ** The spectrogram buffer of the specification *)

Module SpectrogramBufferFacts.

Import SpectrogramBuffer Lists.

Lemma lastn_all {A : Type} (n : nat) (l : list A) :
  List.length l <= n -> lastn n l = l.
Proof.
  intros H. unfold lastn. replace (List.length l - n) with 0 by lia.
  reflexivity.
Qed.

Lemma lastn_length {A : Type} (n : nat) (l : list A) :
  n <= List.length l -> List.length (lastn n l) = n.
Proof. intros H. unfold lastn. rewrite length_skipn. lia. Qed.

Lemma lastn_app_lastn {A : Type} (n : nat) (l l' : list A) :
  lastn n (lastn n l ++ l') = lastn n (l ++ l').
Proof.
  unfold lastn at 2.
  destruct (Nat.le_gt_cases (List.length l) n) as [Hle | Hgt].
  - replace (List.length l - n) with 0 by lia. reflexivity.
  - unfold lastn.
    rewrite !length_app, length_skipn.
    replace (List.length l - (List.length l - n) + List.length l' - n)
      with (List.length l') by lia.
    replace (List.length l + List.length l' - n)
      with ((List.length l - n) + List.length l') by lia.
    rewrite (Nat.add_comm (List.length l - n) (List.length l')).
    rewrite <- (skipn_skipn (List.length l') (List.length l - n) (l ++ l')).
    rewrite (skipn_app (List.length l - n) l l').
    replace (List.length l - n - List.length l) with 0 by lia.
    reflexivity.
Qed.

Section Buffer.

Variable Pixel : Type.
Variable colorRamp : Z -> Pixel.

Lemma appendColumn_lastn (snapshot : list Z) (b : SpectrogramImage Pixel) :
  well_formed b ->
  columns (appendColumn colorRamp snapshot b)
  = lastn (width b) (columns b ++ [toColumn colorRamp snapshot]).
Proof.
  intros [Hpos Hle]. unfold appendColumn. simpl.
  destruct (Nat.leb_spec (width b) (List.length (columns b))) as [H | H].
  - assert (Heq : List.length (columns b) = width b) by lia.
    unfold lastn. rewrite length_app. simpl.
    replace (List.length (columns b) + 1 - width b) with 1 by lia.
    destruct (columns b) as [| c cs]; [simpl in Heq; lia | reflexivity].
  - rewrite lastn_all; [reflexivity |].
    rewrite length_app. simpl. lia.
Qed.

Lemma appendColumn_well_formed (snapshot : list Z)
  (b : SpectrogramImage Pixel) :
  well_formed b -> well_formed (appendColumn colorRamp snapshot b).
Proof.
  intros [Hpos Hle]. unfold well_formed, appendColumn. simpl.
  split; [exact Hpos |]. rewrite length_app. simpl.
  destruct (Nat.leb_spec (width b) (List.length (columns b))) as [H | H];
    [| lia].
  destruct (columns b) as [| c cs]; simpl in *; lia.
Qed.

Lemma appendColumns_lastn (snapshots : list (list Z))
  (b : SpectrogramImage Pixel) :
  well_formed b ->
  width (appendColumns colorRamp snapshots b) = width b /\
  columns (appendColumns colorRamp snapshots b)
  = lastn (width b)
      (columns b ++ map (toColumn colorRamp) snapshots).
Proof.
  revert b. induction snapshots as [| s ss IH]; intros b Hwf; simpl.
  - rewrite app_nil_r. split; [reflexivity |].
    symmetry. apply lastn_all, Hwf.
  - destruct (IH (appendColumn colorRamp s b)
                (appendColumn_well_formed s b Hwf)) as [Hw Hc].
    split; [exact Hw |].
    rewrite Hc, (appendColumn_lastn s b Hwf).
    change (width (appendColumn colorRamp s b)) with (width b).
    rewrite lastn_app_lastn, <- app_assoc. reflexivity.
Qed.

Lemma lastn_app_long {A : Type} (n : nat) (l l' : list A) :
  n <= List.length l' -> lastn n (l ++ l') = lastn n l'.
Proof.
  intros H. unfold lastn. rewrite length_app, skipn_app.
  replace (List.length l + List.length l' - n - List.length l)
    with (List.length l' - n) by lia.
  rewrite skipn_all2 by lia. reflexivity.
Qed.

(** C5. A well-formed buffer to which more snapshots than its width are
    appended holds exactly [width] columns afterwards: those of the last
    [width] snapshots, in their order.  After [width + 2] snapshots these
    are the columns of the third to the last. *)
Theorem appendColumns_fifo (b : SpectrogramImage Pixel)
  (snapshots : list (list Z)) :
  well_formed b -> width b < List.length snapshots ->
  let b' := appendColumns colorRamp snapshots b in
  width b' = width b /\
  List.length (columns b') = width b /\
  columns b'
  = map (toColumn colorRamp)
      (skipn (List.length snapshots - width b) snapshots) /\
  (List.length snapshots = width b + 2 ->
   columns b' = map (toColumn colorRamp) (skipn 2 snapshots)).
Proof.
  intros Hwf Hlong b'. subst b'.
  destruct (appendColumns_lastn snapshots b Hwf) as [Hw Hc].
  assert (Hcols : columns (appendColumns colorRamp snapshots b)
                  = map (toColumn colorRamp)
                      (skipn (List.length snapshots - width b) snapshots)).
  { rewrite Hc, lastn_app_long by (rewrite length_map; lia).
    unfold lastn. rewrite length_map, skipn_map. reflexivity. }
  split; [exact Hw |]. split; [| split; [exact Hcols |]].
  - rewrite Hcols, length_map, length_skipn. lia.
  - intros H2. rewrite Hcols, H2.
    replace (width b + 2 - width b) with 2 by lia. reflexivity.
Qed.

End Buffer.

Lemma appendColumns_fifo_witness :
  let b := {| width := 3; columns := [[9%Z]] |} in
  let snapshots := [[1%Z]; [2%Z]; [3%Z]; [4%Z]; [5%Z]] in
  well_formed b /\
  columns (appendColumns (fun z => z) snapshots b)
  = [[3%Z]; [4%Z]; [5%Z]].
Proof.
  split; [split; simpl; lia |].
  apply (appendColumns_fifo Z (fun z => z)
           {| width := 3; columns := [[9%Z]] |}
           [[1%Z]; [2%Z]; [3%Z]; [4%Z]; [5%Z]]);
    [split; simpl; lia | simpl; lia | reflexivity].
Defined.

End SpectrogramBufferFacts.

(** ** The spectral analyzer of the specification *)

Module SpectralAnalyzerFacts.

Import SpectralAnalyzer.

Local Open Scope Q_scope.

Section Analyzer.

Variables cos_kernel sin_kernel : nat -> nat -> Q.
Variable snapshot_scale : Q.
Variable loudness : Q -> Q.
Variable sampleRate : Q.
Variables minLag maxLag : nat.
Variable confidence : Q.

Lemma correlate_silent (k : nat -> Q) (n : nat) (window : AudioWindow) :
  silent window -> correlate k n window == 0.
Proof.
  intros H. revert n. induction H as [| x xs Hx Hxs IH]; intros n; simpl.
  - reflexivity.
  - rewrite Hx, IH. ring.
Qed.

Lemma autocorrelation_silent (lag : nat) (window : AudioWindow) :
  silent window -> autocorrelation lag window == 0.
Proof.
  intros H. induction H as [| x xs Hx Hxs IH]; simpl.
  - reflexivity.
  - rewrite Hx, IH. ring.
Qed.

Lemma bin_energy_silent (window : AudioWindow) (k : nat) :
  silent window -> bin_energy cos_kernel sin_kernel window k == 0.
Proof.
  intros H. unfold bin_energy.
  rewrite !(correlate_silent _ 0%nat window H). ring.
Qed.

Lemma normalize_zero (e : Q) : e == 0 -> normalize snapshot_scale e = 0%Z.
Proof.
  intros H. unfold normalize.
  assert (Hz : snapshot_scale * e == 0) by (rewrite H; ring).
  rewrite (Qfloor_comp _ _ Hz). reflexivity.
Qed.

Lemma snapshot_silent (window : AudioWindow) :
  silent window ->
  snapshot cos_kernel sin_kernel snapshot_scale window
  = repeat 0%Z (Nat.div2 (List.length window)).
Proof.
  intros H. unfold snapshot.
  generalize (Nat.div2 (List.length window)) as n.
  generalize 0%nat as start. intros start n. revert start.
  induction n as [| n IH]; intros start; simpl; [reflexivity |].
  rewrite (normalize_zero _ (bin_energy_silent window start H)), IH.
  reflexivity.
Qed.

Lemma Qlt_bool_zero (a b : Q) : a == 0 -> b == 0 -> Qlt_bool a b = false.
Proof.
  intros Ha Hb. unfold Qlt_bool.
  assert (H : Qle_bool b a = true)
    by (apply Qle_bool_iff; rewrite Ha, Hb; apply Qle_refl).
  rewrite H. reflexivity.
Qed.

Lemma estimate_pitch_silent (window : AudioWindow) :
  silent window ->
  estimate_pitch sampleRate minLag maxLag confidence window = 0.
Proof.
  intros H. unfold estimate_pitch.
  rewrite Qlt_bool_zero; [reflexivity | |].
  - rewrite (autocorrelation_silent 0 window H). ring.
  - apply autocorrelation_silent, H.
Qed.

Lemma estimate_volume_silent (window : AudioWindow) :
  silent window -> estimate_volume loudness window = silence_floor.
Proof.
  intros H. unfold estimate_volume.
  assert (He : autocorrelation 0 window
               / inject_Z (Z.of_nat (List.length window)) == 0).
  { rewrite (autocorrelation_silent 0 window H). unfold Qdiv. ring. }
  apply Qeq_bool_iff in He. rewrite He. reflexivity.
Qed.

Lemma estimate_clarity_zeros (n : nat) : estimate_clarity (repeat 0%Z n) = 0.
Proof.
  unfold estimate_clarity.
  assert (H : fold_right Z.add 0%Z (repeat 0%Z n) = 0%Z)
    by (induction n as [| n IH]; simpl; [reflexivity | exact IH]).
  rewrite H. reflexivity.
Qed.

(** C8. For a silent window [analyze] gives a snapshot of zeros, one per
    bin, and the metrics pitch 0, volume at the silence floor (-100) and
    clarity 0. *)
Theorem analyze_silent (window : AudioWindow) :
  silent window ->
  let result :=
    analyze cos_kernel sin_kernel snapshot_scale loudness sampleRate
      minLag maxLag confidence window in
  fst result = repeat 0%Z (Nat.div2 (List.length window)) /\
  pitch (snd result) = 0 /\
  volume (snd result) = silence_floor /\
  silence_floor = -100 /\
  clarity (snd result) = 0.
Proof.
  intros H result. subst result. unfold analyze. simpl.
  rewrite (snapshot_silent window H).
  split; [reflexivity |]. split; [apply estimate_pitch_silent, H |].
  split; [apply estimate_volume_silent, H |].
  split; [reflexivity | apply estimate_clarity_zeros].
Qed.

End Analyzer.

Lemma analyze_silent_witness :
  let window := [0; 0 # 3; 0; 0] in
  let result :=
    analyze (fun k n => 1) (fun k n => 1 # 2) 255 (fun e => e) 44100 2 3
      (1 # 2) window in
  silent window /\
  fst result = [0%Z; 0%Z] /\
  pitch (snd result) = 0 /\ volume (snd result) = -100 /\
  clarity (snd result) = 0.
Proof.
  assert (Hs : silent [0; 0 # 3; 0; 0]) by (repeat constructor).
  split; [exact Hs |].
  destruct (analyze_silent (fun k n => 1) (fun k n => 1 # 2) 255
              (fun e => e) 44100 2 3 (1 # 2) [0; 0 # 3; 0; 0] Hs)
    as (H1 & H2 & H3 & _ & H5).
  split; [exact H1 |]. split; [exact H2 |]. split; [exact H3 | exact H5].
Defined.

End SpectralAnalyzerFacts.

(** * Further properties of the code *)

(** ** services/geminiService *)

Module GeminiExtras.

Import GeminiService GeminiFacts Samples.

(** *** [split] and [blobToBase64] *)

Lemma split_nonempty (sep : ascii) (s : string) : split sep s <> [].
Proof.
  destruct s as [| c s]; simpl; [discriminate |].
  destruct (Ascii.eqb c sep); [discriminate |].
  destruct (split sep s); discriminate.
Qed.

Lemma split_no_separator (sep : ascii) (s : string) :
  ~ In sep (list_ascii_of_string s) -> split sep s = [s].
Proof.
  induction s as [| c s IH]; simpl; intros H; [reflexivity |].
  destruct (Ascii.eqb_spec c sep) as [-> | Hne]; [exfalso; auto |].
  rewrite IH by auto. reflexivity.
Qed.

Lemma split_at_separator (sep : ascii) (a b : string) :
  ~ In sep (list_ascii_of_string a) ->
  split sep (a ++ String sep b) = a :: split sep b.
Proof.
  induction a as [| c a IH]; simpl; intros H.
  - rewrite Ascii.eqb_refl. reflexivity.
  - destruct (Ascii.eqb_spec c sep) as [-> | Hne]; [exfalso; auto |].
    rewrite IH by auto. reflexivity.
Qed.

(** X1. [blobToBase64] gives the payload of the data URL the reader
    produced: what follows its first comma, when neither the header nor
    the payload holds a comma. *)
Theorem blobToBase64_payload (env : Env) (blob : Blob)
  (header payload : string) (log0 : list Call) :
  readAsDataURL env blob = Fulfilled (header ++ "," ++ payload)%string ->
  ~ In ","%char (list_ascii_of_string header) ->
  ~ In ","%char (list_ascii_of_string payload) ->
  blobToBase64 env blob log0
  = (Fulfilled (Some payload), log0 ++ [CallReadAsDataURL blob]).
Proof.
  intros Hurl Hh Hp. unfold blobToBase64, bind, call, exec, await, ret.
  rewrite Hurl. cbn beta iota.
  change (header ++ "," ++ payload)%string
    with (header ++ String ","%char payload)%string.
  rewrite (split_at_separator _ header payload Hh).
  rewrite (split_no_separator _ payload Hp). reflexivity.
Qed.

Lemma blobToBase64_payload_witness :
  blobToBase64 sample_env sample_blob []
  = (Fulfilled (Some "QUJD"), [CallReadAsDataURL sample_blob]).
Proof.
  apply (blobToBase64_payload sample_env sample_blob
           "data:audio/webm;base64" "QUJD" []).
  - reflexivity.
  - simpl. intros H.
    repeat (destruct H as [H | H]; [discriminate |]). exact H.
  - simpl. intros H.
    repeat (destruct H as [H | H]; [discriminate |]). exact H.
Defined.

(** What [analyzeAudioWithGemini] does by the outcome of each step:
    the key, the reader, the remote call. *)
Lemma analyzeAudioWithGemini_no_key (env : Env) (blob : Blob)
  (image : option string) (log0 : list Call) :
  truthy (API_KEY env) = false ->
  analyzeAudioWithGemini env blob image log0
  = (Fulfilled error_message,
     log0 ++ [CallConsoleError "Gemini Analysis Error:" "API Key not found"]).
Proof.
  intros Hkey.
  unfold analyzeAudioWithGemini, try_catch, analyze_try, bind, throw, call,
    exec, ret.
  rewrite Hkey. reflexivity.
Qed.

Lemma analyzeAudioWithGemini_unreadable (env : Env) (blob : Blob)
  (image : option string) (log0 : list Call) (e : JsError) :
  truthy (API_KEY env) = true -> readAsDataURL env blob = Rejected e ->
  analyzeAudioWithGemini env blob image log0
  = (Fulfilled error_message,
     (log0 ++ [CallReadAsDataURL blob])
       ++ [CallConsoleError "Gemini Analysis Error:" e]).
Proof.
  intros Hkey Hread.
  unfold analyzeAudioWithGemini, try_catch, analyze_try, blobToBase64, bind,
    throw, call, exec, await, ret.
  rewrite Hkey, Hread. reflexivity.
Qed.

Lemma analyzeAudioWithGemini_reader_pending (env : Env) (blob : Blob)
  (image : option string) (log0 : list Call) :
  truthy (API_KEY env) = true -> readAsDataURL env blob = Pending ->
  analyzeAudioWithGemini env blob image log0
  = (Pending, log0 ++ [CallReadAsDataURL blob]).
Proof.
  intros Hkey Hread.
  unfold analyzeAudioWithGemini, try_catch, analyze_try, blobToBase64, bind,
    throw, call, exec, await, ret.
  rewrite Hkey, Hread. reflexivity.
Qed.

Lemma truthy_key (env : Env) :
  truthy (API_KEY env) = true ->
  exists key, API_KEY env = Some key /\ key <> "".
Proof.
  unfold truthy. destruct (API_KEY env) as [key |]; [| discriminate].
  destruct (String.eqb_spec key ""); [discriminate |].
  intros _. exists key. auto.
Qed.

Lemma analyzeAudioWithGemini_read (env : Env) (blob : Blob)
  (image : option string) (log0 : list Call) (key url : string) :
  API_KEY env = Some key -> key <> "" ->
  readAsDataURL env blob = Fulfilled url ->
  let request :=
    build_request (build_parts blob (nth_error (split "," url) 1) image) in
  let sent :=
    (log0 ++ [CallReadAsDataURL blob]) ++ [CallGenerateContent key request]
  in
  analyzeAudioWithGemini env blob image log0
  = match generateContent env key request with
    | Fulfilled t =>
        (Fulfilled (if truthy t
                    then match t with Some x => x | None => "" end
                    else no_analysis_message), sent)
    | Rejected e =>
        (Fulfilled error_message,
         sent ++ [CallConsoleError "Gemini Analysis Error:" e])
    | Pending => (Pending, sent)
    end.
Proof.
  intros Hkey Hne Hurl request sent.
  unfold analyzeAudioWithGemini, try_catch.
  rewrite (analyze_try_sends env blob image key url log0 Hkey Hne Hurl).
  fold request. fold sent.
  destruct (generateContent env key request) as [t | e |]; reflexivity.
Qed.

(** X2. Without an API key ([undefined] or the empty string) the function
    neither reads the blob nor calls the model: it logs the error and is
    fulfilled with the error message. *)
Theorem no_key_no_call (env : Env) (blob : Blob) (image : option string) :
  truthy (API_KEY env) = false ->
  analyzeAudioWithGemini env blob image []
  = (Fulfilled error_message,
     [CallConsoleError "Gemini Analysis Error:" "API Key not found"]).
Proof. intros H. apply (analyzeAudioWithGemini_no_key env blob image [] H). Qed.

Lemma no_key_no_call_witness :
  let env := {| API_KEY := Some "";
                readAsDataURL := readAsDataURL sample_env;
                generateContent := generateContent sample_env |} in
  sent_requests (snd (analyzeAudioWithGemini env sample_blob None [])) = [].
Proof.
  cbv zeta.
  rewrite (no_key_no_call
             {| API_KEY := Some "";
                readAsDataURL := readAsDataURL sample_env;
                generateContent := generateContent sample_env |}
             sample_blob None eq_refl).
  reflexivity.
Defined.

(** X3. One call of the function sends at most one request, whatever the
    surroundings answer (there is no retry), and none when the blob cannot
    be read. *)
Theorem at_most_one_request (env : Env) (blob : Blob)
  (image : option string) :
  let calls := snd (analyzeAudioWithGemini env blob image []) in
  List.length (sent_requests calls) <= 1 /\
  (forall e, readAsDataURL env blob = Rejected e -> sent_requests calls = []).
Proof.
  intros calls. subst calls.
  destruct (truthy (API_KEY env)) eqn:Hkey.
  - destruct (truthy_key env Hkey) as [key [Hk Hne]].
    destruct (readAsDataURL env blob) as [url | e |] eqn:Hread.
    + rewrite (analyzeAudioWithGemini_read env blob image [] key url
                 Hk Hne Hread).
      cbv zeta. split; [| discriminate].
      destruct (generateContent env key _) as [t | e |]; simpl; lia.
    + rewrite (analyzeAudioWithGemini_unreadable env blob image [] e
                 Hkey Hread).
      simpl. split; [lia | reflexivity].
    + rewrite (analyzeAudioWithGemini_reader_pending env blob image []
                 Hkey Hread).
      simpl. split; [lia | discriminate].
  - rewrite (analyzeAudioWithGemini_no_key env blob image [] Hkey).
    simpl. split; [lia | reflexivity].
Qed.



(** X5. When the reader's result holds no comma the audio part of the
    request has [undefined] data, and the request is sent all the same. *)
Theorem no_comma_undefined_audio (env : Env) (blob : Blob)
  (image : option string) (key url : string) :
  API_KEY env = Some key -> key <> "" ->
  readAsDataURL env blob = Fulfilled url ->
  ~ In ","%char (list_ascii_of_string url) ->
  exists request,
    sent_requests (snd (analyzeAudioWithGemini env blob image []))
    = [request] /\
    hd_error (parts request)
    = Some (InlinePart {| mimeType := blob_type blob; data := None |}).
Proof.
  intros Hk Hne Hurl Hcomma.
  rewrite (analyzeAudioWithGemini_read env blob image [] key url Hk Hne Hurl).
  cbv zeta. rewrite (split_no_separator _ url Hcomma). simpl nth_error.
  eexists. split.
  - destruct (generateContent env key _) as [t | e |]; reflexivity.
  - unfold build_request, build_parts. simpl.
    destruct (truthy image); reflexivity.
Qed.

Lemma no_comma_undefined_audio_witness :
  let env := {| API_KEY := Some "key";
                readAsDataURL := fun _ => Fulfilled "data:";
                generateContent := generateContent sample_env |} in
  exists request,
    sent_requests (snd (analyzeAudioWithGemini env sample_blob None []))
    = [request] /\
    hd_error (parts request)
    = Some (InlinePart {| mimeType := "audio/webm"; data := None |}).
Proof.
  apply (no_comma_undefined_audio
           {| API_KEY := Some "key";
              readAsDataURL := fun _ => Fulfilled "data:";
              generateContent := generateContent sample_env |}
           sample_blob None "key" "data:");
    [reflexivity | discriminate | reflexivity |].
  simpl. intros H.
  repeat (destruct H as [H | H]; [discriminate |]). exact H.
Defined.


(** X6. [strip_image_header] removes a leading [data:image/<ext>;base64,]
    for [<ext>] one of [png], [jpg], [jpeg], and then returns the rest;
    every other string, a data URL of another type among them, is
    returned as it is. *)
Theorem strip_image_header_spec (s : string) :
  (exists ext rest,
     In ext ["png"; "jpg"; "jpeg"] /\
     s = ("data:image/" ++ ext ++ ";base64," ++ rest)%string /\
     strip_image_header s = rest) \/
  ((forall ext rest,
      In ext ["png"; "jpg"; "jpeg"] ->
      s <> ("data:image/" ++ ext ++ ";base64," ++ rest)%string) /\
   strip_image_header s = s).
Proof. exact (strip_image_header_cases s). Qed.

End GeminiExtras.

(** ** App.tsx: sessions *)

Module AppExtras.

Import App AppLoop AppSession AppFacts Samples.

(** X7. In every state the component reaches at most one animation frame
    callback is pending: exactly one while the status is [RECORDING], the
    one [animationRef] names, and none otherwise.  Starting and stopping
    again and again never leaves two loops running. *)
Theorem one_pending_frame (evs : list Event) :
  let w := run evs init in
  List.length (frames w) <= 1 /\
  (status w = RECORDING <->
   exists id, animationRef w = Some id /\ frames w = [(id, RECORDING)]).
Proof.
  intros w. destruct (Inv_run evs) as (_ & I2 & I3). fold w in I2, I3.
  destruct (status_eqb (status w) RECORDING) eqn:E.
  - apply status_eqb_eq in E. destruct (I2 E) as [id [Ha [_ Hf]]].
    rewrite Hf. split; [simpl; lia |].
    split; [intros _; exists id; auto | intros _; exact E].
  - apply status_eqb_neq in E. rewrite (I3 E). split; [simpl; lia |].
    split; [intros H; contradiction | intros [id [_ H]]; discriminate].
Qed.

(** X8. Every start attempt clears the report of the previous analysis,
    whether the microphone is granted, refused or never answered, and
    whether or not the recorder starts. *)
Theorem start_clears_report (env : StartEnv) (w : World) :
  geminiAnalysis (snd (startAnalysisFlow env w)) = None.
Proof.
  destruct (start_outcome env)
    as [stream Ha Hc Hs | stream e Ha Hc Hs | stream e Ha Hc | e Ha | Ha].
  - apply (start_started env stream w Ha Hc Hs).
  - apply (start_start_threw env stream e w Ha Hc Hs).
  - apply (start_constructor_threw env stream e w Ha Hc).
  - apply (start_refused env e w Ha).
  - apply (start_unanswered env w Ha).
Qed.

Lemma nonempty_chunks_app (chunks : list Blob) (d : Blob) :
  forallb nonempty chunks = true -> nonempty d = true ->
  forallb nonempty (chunks ++ [d]) = true.
Proof.
  intros H Hd. rewrite forallb_app, H. simpl. rewrite Hd. reflexivity.
Qed.

Lemma analysis_not_rejected (genv : GeminiService.Env) (blob : Blob)
  (image : option string) (log0 : list GeminiService.Call) (e : JsError) :
  fst (GeminiService.analyzeAudioWithGemini genv blob image log0)
  <> Rejected e.
Proof.
  unfold GeminiService.analyzeAudioWithGemini, try_catch.
  destruct (GeminiService.analyze_try genv blob image log0)
    as [[t | e' |] log1]; simpl; discriminate.
Qed.

(** The [stop] event of the recorder, by the promise of the analysis. *)
Lemma stop_event_fields (genv : GeminiService.Env) (r : MediaRecorder)
  (image : JsValue) (w : World) :
  mediaRecorderRef w = Some r -> stop_queued r = true ->
  onstop r = Some image ->
  let w' := step (RecorderStopped genv) w in
  let promise :=
    fst (GeminiService.analyzeAudioWithGemini genv
           (new_Blob (chunksRef w) "audio/webm") (or_undefined image) []) in
  mediaRecorderRef w'
  = Some {| stream := stream r; state := state r; onstop := onstop r;
            stop_queued := false |} /\
  chunksRef w' = chunksRef w /\
  match promise with
  | Fulfilled text => status w' = COMPLETED /\ geminiAnalysis w' = Some text
  | Rejected _ => False
  | Pending => status w' = status w /\ geminiAnalysis w' = geminiAnalysis w
  end.
Proof.
  intros Hr Hq Ho w' promise. subst w'. simpl.
  rewrite (recorder_stop_event_fires genv r image w Hr Hq Ho).
  rewrite performGeminiAnalysis_eq.
  replace (chunksRef (set_mediaRecorderRef
                        (Some {| stream := stream r; state := state r;
                                 onstop := onstop r;
                                 stop_queued := false |}) w))
    with (chunksRef w) by (destruct w; reflexivity).
  fold promise.
  pose proof (analysis_not_rejected genv
                (new_Blob (chunksRef w) "audio/webm") (or_undefined image) [])
    as Hnot.
  fold promise in Hnot.
  destruct promise as [text | e |]; simpl.
  - match goal with
    | |- context [setStatus COMPLETED ?X] =>
        destruct (fields_setStatus COMPLETED X) as (-> & -> & -> & -> & _)
    end.
    unfold analysis_called. destruct w. repeat split.
  - exfalso. apply (Hnot e). reflexivity.
  - unfold analysis_called. destruct w. repeat split.
Qed.

(** *** The invariant of the session *)

Lemma Session_init : Session init.
Proof.
  unfold Session. simpl.
  repeat split; try discriminate; intros H; discriminate.
Qed.

(** A step that keeps the status, the recorder and the chunks. *)
Lemma Session_same (w w' : World) :
  status w' = status w -> mediaRecorderRef w' = mediaRecorderRef w ->
  chunksRef w' = chunksRef w -> Session w -> Session w'.
Proof.
  intros Hs Hr Hc (S1 & S2 & S3 & S4). unfold Session.
  rewrite Hs, Hr, Hc. auto.
Qed.

Lemma Session_start (env : StartEnv) (w : World) :
  status w <> RECORDING -> status w <> PROCESSING ->
  Session w -> Session (snd (startAnalysisFlow env w)).
Proof.
  intros Hnr Hnp HS. pose proof HS as (S1 & S2 & S3 & S4).
  destruct (start_outcome env)
    as [stream Ha Hc Hs | stream e Ha Hc Hs | stream e Ha Hc | e Ha | Ha].
  - destruct (start_started env stream w Ha Hc Hs) as (A & B & C & _).
    unfold Session. rewrite A, B, C.
    repeat split; try discriminate.
    intros _. eexists. split; reflexivity.
  - destruct (start_start_threw env stream e w Ha Hc Hs) as (A & B & C & _).
    unfold Session. rewrite A, B, C.
    repeat split; discriminate.
  - destruct (start_constructor_threw env stream e w Ha Hc)
      as (A & B & C & _).
    unfold Session. rewrite A, B, C.
    repeat split; try discriminate. exact S4.
  - destruct (start_refused env e w Ha) as (A & B & C & _).
    unfold Session. rewrite A, B, C.
    repeat split; try discriminate. exact S4.
  - destruct (start_unanswered env w Ha) as (A & B & C & _).
    apply (Session_same w); assumption.
Qed.

Lemma Session_step (e : Event) (w : World) : Session w -> Session (step e w).
Proof.
  intros HS. pose proof HS as (S1 & S2 & S3 & S4).
  destruct e as [env | | | | d | genv | a | img]; simpl.
  - destruct (status_eqb (status w) RECORDING) eqn:E1; [exact HS |].
    destruct (status_eqb (status w) PROCESSING) eqn:E2; [exact HS |].
    destruct (isSpeakingInstructions w); [exact HS |]. simpl.
    apply status_eqb_neq in E1. apply status_eqb_neq in E2.
    apply Session_start; assumption.
  - destruct (status_eqb (status w) RECORDING) eqn:E1; [| exact HS].
    apply status_eqb_eq in E1. destruct (S2 E1) as [r [Hr Hs]].
    assert (Hact : state r <> inactive) by (rewrite Hs; discriminate).
    destruct (stop_active r w Hr Hact) as (A & B & C).
    unfold Session. rewrite A, B, C.
    repeat split; try discriminate; [| exact S4].
    intros _. eexists. eexists. repeat split.
  - destruct (truthy (geminiAnalysis w)); [| exact HS].
    apply (Session_same w); [| | | exact HS]; destruct w; reflexivity.
  - destruct (loop_change_runAnimationFrame w) as (Hr & Hc & _).
    apply (Session_same w);
      [apply status_runAnimationFrame | exact Hr | exact Hc | exact HS].
  - destruct (mediaRecorderRef w) as [r |] eqn:Hr; [| exact HS].
    unfold ondataavailable.
    destruct (Nat.ltb 0 (blob_size d)) eqn:Hd; [| exact HS].
    unfold Session.
    replace (status (set_chunksRef (chunksRef w ++ [d]) w)) with (status w)
      by (destruct w; reflexivity).
    replace (mediaRecorderRef (set_chunksRef (chunksRef w ++ [d]) w))
      with (mediaRecorderRef w) by (destruct w; reflexivity).
    replace (chunksRef (set_chunksRef (chunksRef w ++ [d]) w))
      with (chunksRef w ++ [d]) by (destruct w; reflexivity).
    rewrite Hr in *.
    repeat split; [exact S1 | exact S2 | exact S3 |].
    apply nonempty_chunks_app; [exact S4 | exact Hd].
  - destruct (mediaRecorderRef w) as [r |] eqn:Hr;
      [| unfold recorder_stop_event; rewrite Hr; exact HS].
    destruct (stop_queued r) eqn:Hq;
      [| unfold recorder_stop_event; rewrite Hr, Hq; exact HS].
    destruct (onstop r) as [image |] eqn:Ho.
    + pose proof (stop_event_fields genv r image w Hr Hq Ho) as H.
      cbv zeta in H. simpl step in H. destruct H as (A & B & C).
      unfold Session. rewrite A, B.
      destruct (fst (GeminiService.analyzeAudioWithGemini genv _ _ []))
        as [text | err |]; [| contradiction |].
      * destruct C as [C _]. rewrite C.
        repeat split; try discriminate. exact S4.
      * destruct C as [C _]. rewrite C.
        repeat split; [exact S1 | | | exact S4].
        -- intros H. destruct (S2 H) as [r0 [Hr0 Hs0]].
           try rewrite Hr in Hr0. injection Hr0 as <-.
           eexists. split; [reflexivity | exact Hs0].
        -- intros H. destruct (S3 H) as [r0 [im [Hr0 [Hs0 Ho0]]]].
           try rewrite Hr in Hr0. injection Hr0 as <-.
           eexists. eexists. split; [reflexivity |]. split; eassumption.
    + unfold recorder_stop_event. rewrite Hr, Hq, Ho.
      unfold Session.
      replace (status (set_mediaRecorderRef _ w)) with (status w)
        by (destruct w; reflexivity).
      replace (chunksRef (set_mediaRecorderRef _ w)) with (chunksRef w)
        by (destruct w; reflexivity).
      replace (mediaRecorderRef (set_mediaRecorderRef
                 (Some {| stream := stream r; state := state r;
                          onstop := None; stop_queued := false |}) w))
        with (Some {| stream := stream r; state := state r;
                      onstop := None; stop_queued := false |})
        by (destruct w; reflexivity).
      repeat split; [exact S1 | | | exact S4].
      * intros H. destruct (S2 H) as [r0 [Hr0 Hs0]].
        try rewrite Hr in Hr0. injection Hr0 as <-.
        eexists. split; [reflexivity | exact Hs0].
      * intros H. destruct (S3 H) as [r0 [im [Hr0 [Hs0 Ho0]]]].
        try rewrite Hr in Hr0. injection Hr0 as <-. congruence.
  - apply (Session_same w); [| | | exact HS]; destruct w; reflexivity.
  - apply (Session_same w); [| | | exact HS]; destruct w; reflexivity.
Qed.

Lemma Session_run (evs : list Event) : Session (run evs init).
Proof.
  assert (H : forall w, Session w -> Session (run evs w)).
  { induction evs as [| e evs IH]; intros w HS; simpl;
      [exact HS | apply IH, Session_step, HS]. }
  apply H, Session_init.
Qed.

(** *** The data, the canvas and the captures of a session *)

Lemma same_captures_refl (w : World) : same_captures w w.
Proof. split; reflexivity. Qed.

Lemma same_captures_trans (w1 w2 w3 : World) :
  same_captures w1 w2 -> same_captures w2 w3 -> same_captures w1 w3.
Proof. intros [A B] [C D]. split; congruence. Qed.

Lemma same_captures_setGeminiAnalysis (a : option string) (w : World) :
  same_captures w (setGeminiAnalysis a w).
Proof.
  unfold same_captures.
  destruct (setGeminiAnalysis_fields a w) as (_ & _ & _ & _ & ->).
  rewrite captures_app, analysis_requests_app. simpl.
  rewrite app_nil_r. split; [unfold captures at 2; simpl; lia | reflexivity].
Qed.

(** The chunks change with the data of the recorder only. *)
Lemma chunks_step (r : MediaRecorder) (e : Event) (w : World) :
  mediaRecorderRef w = Some r ->
  (forall env, e = ClickStart env ->
               status w = RECORDING \/ status w = PROCESSING) ->
  (exists r', mediaRecorderRef (step e w) = Some r') /\
  chunksRef (step e w) = chunksRef w ++ filter nonempty (data_of [e]).
Proof.
  intros Hr Hgate.
  destruct e as [env | | | | d | genv | a | img]; simpl;
    try rewrite app_nil_r.
  - destruct (Hgate env eq_refl) as [-> | ->]; simpl; eauto.
  - destruct (status_eqb (status w) RECORDING); [| eauto].
    destruct (is_inactive (state r)) eqn:Hi.
    + rewrite (stopRecording_inactive r w Hr)
        by (destruct (state r); [reflexivity | discriminate | discriminate]).
      simpl. rewrite mediaRecorderRef_emit. split; [eauto |].
      destruct w; reflexivity.
    + assert (Hact : state r <> inactive)
        by (intros H; rewrite H in Hi; discriminate).
      destruct (stop_active r w Hr Hact) as (_ & B & C). eauto.
  - destruct (truthy (geminiAnalysis w)); [| eauto].
    destruct (setGeminiAnalysis_fields None w) as (_ & _ & -> & -> & _).
    eauto.
  - destruct (loop_change_runAnimationFrame w) as (-> & -> & _). eauto.
  - rewrite Hr. unfold ondataavailable, nonempty.
    destruct (Nat.ltb 0 (blob_size d)).
    + destruct w; simpl in *; eauto.
    + rewrite app_nil_r. eauto.
  - destruct (stop_queued r) eqn:Hq;
      [| unfold recorder_stop_event; rewrite Hr, Hq; eauto].
    destruct (onstop r) as [image |] eqn:Ho.
    + destruct (stop_event_fields genv r image w Hr Hq Ho) as (A & B & _).
      simpl step in A, B. eauto.
    + unfold recorder_stop_event. rewrite Hr, Hq, Ho.
      destruct w; simpl; eauto.
  - destruct w; simpl in *; eauto.
  - destruct w; simpl in *; eauto.
Qed.

Lemma data_of_app (evs1 evs2 : list Event) :
  data_of (evs1 ++ evs2) = data_of evs1 ++ data_of evs2.
Proof.
  induction evs1 as [| e evs1 IH]; simpl; [reflexivity |].
  destruct e; simpl; rewrite IH; reflexivity.
Qed.

Lemma data_of_cons (e : Event) (evs : list Event) :
  data_of (e :: evs) = data_of [e] ++ data_of evs.
Proof. destruct e; reflexivity. Qed.

Lemma chunks_run (evs : list Event) (r : MediaRecorder) (w : World) :
  mediaRecorderRef w = Some r ->
  forallb (fun e => negb (is_start e)) evs = true ->
  (exists r', mediaRecorderRef (run evs w) = Some r') /\
  chunksRef (run evs w) = chunksRef w ++ filter nonempty (data_of evs).
Proof.
  revert r w. induction evs as [| e evs IH]; intros r w Hr Hno.
  - simpl. rewrite app_nil_r. eauto.
  - change (run (e :: evs) w) with (run evs (step e w)).
    simpl in Hno. apply andb_true_iff in Hno. destruct Hno as [He Hno].
    destruct (chunks_step r e w Hr) as [[r' Hr'] Hc].
    { intros env ->. discriminate. }
    destruct (IH r' (step e w) Hr' Hno) as [Hr2 Hc2].
    split; [exact Hr2 |].
    rewrite Hc2, Hc, (data_of_cons e evs), filter_app, app_assoc.
    reflexivity.
Qed.

Lemma painted_cons (e : Event) (evs : list Event) (canvas : JsValue) :
  painted (e :: evs) canvas = painted evs (painted [e] canvas).
Proof. destruct e; reflexivity. Qed.

(** While the recording goes on, every step but the stop button keeps the
    status and the recorder, and makes no capture and no request. *)
Lemma recording_step (r : MediaRecorder) (e : Event) (w : World) :
  stop_queued r = false -> is_stop e = false ->
  status w = RECORDING -> mediaRecorderRef w = Some r ->
  status (step e w) = RECORDING /\ mediaRecorderRef (step e w) = Some r /\
  spectrogramImage (step e w) = painted [e] (spectrogramImage w) /\
  same_captures w (step e w).
Proof.
  intros Hq He Hs Hr.
  destruct e as [env | | | | d | genv | a | img]; simpl.
  - rewrite Hs. simpl. repeat split; assumption.
  - discriminate.
  - destruct (truthy (geminiAnalysis w));
      [| repeat split; assumption].
    destruct (setGeminiAnalysis_fields None w) as (-> & _ & -> & _).
    repeat split; try assumption; [destruct w; reflexivity | |];
      apply same_captures_setGeminiAnalysis.
  - rewrite status_runAnimationFrame.
    pose proof (loop_change_runAnimationFrame w) as HL.
    destruct HL as (-> & _ & _ & _ & _ & -> & _).
    repeat split; try assumption;
      apply (same_captures_loop_change w (runAnimationFrame w)
               (loop_change_runAnimationFrame w)).
  - rewrite Hr. unfold ondataavailable.
    destruct (Nat.ltb 0 (blob_size d)); [| repeat split; assumption].
    destruct w; simpl in *. repeat split; assumption.
  - unfold recorder_stop_event. rewrite Hr, Hq. repeat split; assumption.
  - destruct w; simpl in *. repeat split; assumption.
  - destruct w; simpl in *. repeat split; assumption.
Qed.

Lemma recording_run (r : MediaRecorder) (evs : list Event) (w : World) :
  stop_queued r = false -> forallb (fun e => negb (is_stop e)) evs = true ->
  status w = RECORDING -> mediaRecorderRef w = Some r ->
  let w' := run evs w in
  status w' = RECORDING /\ mediaRecorderRef w' = Some r /\
  chunksRef w' = chunksRef w ++ filter nonempty (data_of evs) /\
  spectrogramImage w' = painted evs (spectrogramImage w) /\
  same_captures w w'.
Proof.
  intros Hq. revert w. induction evs as [| e evs IH]; intros w Hno Hs Hr.
  - simpl. rewrite app_nil_r. repeat split; assumption.
  - change (run (e :: evs) w) with (run evs (step e w)).
    simpl in Hno. apply andb_true_iff in Hno. destruct Hno as [He Hno].
    apply negb_true_iff in He.
    destruct (recording_step r e w Hq He Hs Hr) as (A & B & C & D).
    destruct (chunks_step r e w Hr) as [_ E];
      [intros env _; left; exact Hs |].
    destruct (IH (step e w) Hno A B) as (A2 & B2 & E2 & C2 & D2).
    cbv zeta. rewrite E2, E, C2, C, (data_of_cons e evs), filter_app,
      app_assoc, <- painted_cons.
    split; [exact A2 |]. split; [exact B2 |]. split; [reflexivity |].
    split; [reflexivity |].
    apply (same_captures_trans w (step e w)); assumption.
Qed.

(** While the analysis is awaited the chunks still take the data of the
    recorder. *)
Lemma awaiting_chunks_run (r : MediaRecorder) (evs : list Event)
  (w : World) :
  forallb (fun e => negb (is_stop_event e)) evs = true ->
  awaiting r w ->
  chunksRef (run evs w) = chunksRef w ++ filter nonempty (data_of evs).
Proof.
  revert w. induction evs as [| e evs IH]; intros w Hno Hw.
  - simpl. rewrite app_nil_r. reflexivity.
  - change (run (e :: evs) w) with (run evs (step e w)).
    simpl in Hno. apply andb_true_iff in Hno. destruct Hno as [He Hno].
    apply negb_true_iff in He.
    assert (He' : forall g, e <> RecorderStopped g)
      by (intros g ->; discriminate).
    destruct (awaiting_step r e w He' Hw) as [Hw1 _].
    destruct Hw as [Hs Hr].
    destruct (chunks_step r e w Hr) as [_ E];
      [intros env _; right; exact Hs |].
    rewrite (IH (step e w) Hno Hw1), E, (data_of_cons e evs), filter_app,
      app_assoc.
    reflexivity.
Qed.

Lemma no_stop_event_In (evs : list Event) :
  forallb (fun e => negb (is_stop_event e)) evs = true ->
  forall g, ~ In (RecorderStopped g) evs.
Proof.
  intros H g Hin. rewrite forallb_forall in H.
  specialize (H _ Hin). discriminate.
Qed.

Lemma log_stopping (r : MediaRecorder) (w : World) :
  log (stopping r w)
  = log w ++ [SpeechSynthesisCancel; GetCanvasImage (spectrogramImage w);
              RecorderStop; AnalyzerStop].
Proof.
  unfold stopping. destruct w. simpl. rewrite <- !app_assoc. reflexivity.
Qed.

(** A stop that takes effect reads the canvas once and requests no
    analysis. *)
Lemma captures_stop (r : MediaRecorder) (w : World) :
  mediaRecorderRef w = Some r -> state r <> inactive ->
  captures (log (snd (stopRecording w))) = S (captures (log w)).
Proof.
  intros Hr Hs. rewrite (stopRecording_active r w Hr Hs). simpl.
  replace (log (set_mediaRecorderRef
                  (Some (stopped_recorder r (Some (spectrogramImage w))))
                  (setStatus PROCESSING (stopping r w))))
    with (log (setStatus PROCESSING (stopping r w)))
    by (destruct (setStatus PROCESSING (stopping r w)); reflexivity).
  destruct (same_captures_loop_change _ _
              (loop_change_setStatus PROCESSING (stopping r w))) as [-> _].
  rewrite log_stopping, captures_app. unfold captures at 2. simpl. lia.
Qed.

(** The [stop] event of the recorder reads no canvas. *)
Lemma captures_stop_event (genv : GeminiService.Env) (r : MediaRecorder)
  (image : JsValue) (w : World) :
  mediaRecorderRef w = Some r -> stop_queued r = true ->
  onstop r = Some image ->
  captures (log (step (RecorderStopped genv) w)) = captures (log w).
Proof.
  intros Hr Hq Ho. simpl.
  rewrite (recorder_stop_event_fires genv r image w Hr Hq Ho).
  rewrite performGeminiAnalysis_eq.
  set (blob := new_Blob (chunksRef w) "audio/webm").
  set (w0 := set_mediaRecorderRef _ w).
  assert (Hcalled :
    captures (log (analysis_called genv blob image w0)) = captures (log w)).
  { subst w0. unfold analysis_called. destruct w. simpl.
    rewrite captures_app. unfold captures at 2. simpl. lia. }
  assert (Hset : forall a X,
    captures (log (setGeminiAnalysis a X)) = captures (log X))
    by (intros a X; apply same_captures_setGeminiAnalysis).
  assert (Hstat : forall s X,
    captures (log (setStatus s X)) = captures (log X))
    by (intros s X;
        apply (same_captures_loop_change X _ (loop_change_setStatus s X))).
  destruct (fst (GeminiService.analyzeAudioWithGemini genv blob
                   (or_undefined image) [])) as [text | e |]; simpl.
  - rewrite Hstat, Hset. exact Hcalled.
  - rewrite Hstat, Hset. exact Hcalled.
  - exact Hcalled.
Qed.

Lemma start_started_log (env : StartEnv) (stream : MediaStream) (w : World) :
  analyzer_start env = Fulfilled stream ->
  new_MediaRecorder_throws env = None ->
  recorder_start_throws env = None ->
  let w' := snd (startAnalysisFlow env w) in
  spectrogramImage w' = spectrogramImage w /\ same_captures w w'.
Proof.
  intros Ha Hc Hs w'. subst w'.
  rewrite (startAnalysisFlow_started env stream w Ha Hc Hs). simpl.
  fold (recorder_started stream w).
  destruct (fields_recorder_started stream w) as (_ & _ & _ & Fi & Fl).
  pose proof (loop_change_setStatus RECORDING (recorder_started stream w))
    as HL.
  destruct (same_captures_loop_change _ _ HL) as [Hcap Hreq].
  destruct HL as (_ & _ & _ & _ & _ & -> & _).
  split; [exact Fi |]. unfold same_captures. rewrite Hcap, Hreq, Fl.
  rewrite captures_app, analysis_requests_app. simpl. rewrite app_nil_r.
  split; [unfold captures at 2; simpl; lia | reflexivity].
Qed.

(** X9. The stop button takes effect exactly when the recorder of
    [mediaRecorderRef] is not inactive.  With the status [RECORDING] and
    such a recorder it stops the recorder, hands the image of the canvas
    to its [onstop] handler, reads the canvas once and sets the status to
    [PROCESSING].  With a recorder that has become inactive by itself (the
    browser stops it when its tracks end) the click only cancels the
    speech: the status stays [RECORDING] however often the button is
    pressed, the pending animation frames stay, no canvas is read. *)
Theorem stop_needs_active_recorder (r : MediaRecorder) (n : nat)
  (w : World) :
  status w = RECORDING -> mediaRecorderRef w = Some r ->
  let w' := step ClickStop w in
  (state r <> inactive ->
   status w' = PROCESSING /\
   mediaRecorderRef w'
   = Some {| stream := stream r; state := inactive;
             onstop := Some (spectrogramImage w); stop_queued := true |} /\
   captures (log w') = S (captures (log w))) /\
  (state r = inactive ->
   w' = emit SpeechSynthesisCancel w /\
   status w' = RECORDING /\ mediaRecorderRef w' = Some r /\
   frames w' = frames w /\
   captures (log w') = captures (log w) /\
   status (run (repeat ClickStop n) w) = RECORDING).
Proof.
  intros Hrec Hr w'.
  assert (Hw' : w' = snd (stopRecording w))
    by (subst w'; simpl; rewrite Hrec; reflexivity).
  split.
  - intros Hact. destruct (stop_active r w Hr Hact) as (A & B & _).
    rewrite Hw'. repeat split; [exact A | exact B |].
    apply (captures_stop r w Hr Hact).
  - intros Hin.
    assert (Hdead : forall w0, status w0 = RECORDING ->
              mediaRecorderRef w0 = Some r ->
              step ClickStop w0 = emit SpeechSynthesisCancel w0).
    { intros w0 Hs0 Hr0. simpl. rewrite Hs0. simpl.
      rewrite (stopRecording_inactive r w0 Hr0 Hin). reflexivity. }
    rewrite Hw', (stopRecording_inactive r w Hr Hin). simpl.
    rewrite status_emit, mediaRecorderRef_emit, log_emit, captures_app.
    repeat split; try assumption; [destruct w; reflexivity |
                                   unfold captures at 2; simpl; lia |].
    clear Hw' w'. revert w Hrec Hr.
    induction n as [| n IH]; intros w Hrec Hr; [exact Hrec |].
    change (run (repeat ClickStop (S n)) w)
      with (run (repeat ClickStop n) (step ClickStop w)).
    rewrite (Hdead w Hrec Hr).
    apply IH; [rewrite status_emit | rewrite mediaRecorderRef_emit];
      assumption.
Qed.

Lemma stop_needs_active_recorder_witness :
  let r := fresh_recorder 7 inactive in
  let w := set_mediaRecorderRef (Some r) (run [ClickStart sample_start] init) in
  status w = RECORDING /\
  status (run (repeat ClickStop 3) w) = RECORDING /\
  captures (log (step ClickStop w)) = 0.
Proof.
  destruct (stop_needs_active_recorder (fresh_recorder 7 inactive) 3
              (set_mediaRecorderRef (Some (fresh_recorder 7 inactive))
                 (run [ClickStart sample_start] init))
              eq_refl eq_refl) as [_ H].
  destruct (H eq_refl) as (_ & _ & _ & _ & Hc & Hs).
  split; [reflexivity |]. split; [exact Hs | exact Hc].
Defined.

(** X10. The status [ERROR] is never reached: [analyzeAudioWithGemini]
    is never rejected, so the [catch] of [performGeminiAnalysis] never
    runs. *)
Theorem error_status_unreachable (evs : list Event) :
  status (run evs init) <> ERROR.
Proof. apply (Session_run evs). Qed.

(** X11. When the recorder has stopped, the analysis that fails is shown
    as a completed one: without an API key the status becomes [COMPLETED]
    and the report is the error message of the service.  In general the
    report is the text the service is fulfilled with, and while the
    service is pending the status and the report stay as they are. *)
Theorem failed_analysis_is_completed (genv : GeminiService.Env)
  (r : MediaRecorder) (image : JsValue) (w : World) :
  mediaRecorderRef w = Some r -> stop_queued r = true ->
  onstop r = Some image ->
  let w' := step (RecorderStopped genv) w in
  let promise :=
    fst (GeminiService.analyzeAudioWithGemini genv
           (new_Blob (chunksRef w) "audio/webm") (or_undefined image) []) in
  (truthy (GeminiService.API_KEY genv) = false ->
   status w' = COMPLETED /\
   geminiAnalysis w' = Some GeminiService.error_message) /\
  (forall text, promise = Fulfilled text ->
                status w' = COMPLETED /\ geminiAnalysis w' = Some text) /\
  (promise = Pending ->
   status w' = status w /\ geminiAnalysis w' = geminiAnalysis w).
Proof.
  intros Hr Hq Ho w' promise.
  destruct (stop_event_fields genv r image w Hr Hq Ho) as (_ & _ & H).
  fold w' in H. fold promise in H.
  assert (Hful : forall text, promise = Fulfilled text ->
            status w' = COMPLETED /\ geminiAnalysis w' = Some text).
  { intros text Hp. rewrite Hp in H. exact H. }
  split; [| split; [exact Hful |]].
  - intros Hkey. apply Hful. subst promise.
    unfold GeminiService.analyzeAudioWithGemini, try_catch,
      GeminiService.analyze_try, bind, throw.
    rewrite Hkey. reflexivity.
  - intros Hp. rewrite Hp in H. exact H.
Qed.

Lemma failed_analysis_is_completed_witness :
  let genv := {| GeminiService.API_KEY := None;
                 GeminiService.readAsDataURL :=
                   GeminiService.readAsDataURL sample_env;
                 GeminiService.generateContent :=
                   GeminiService.generateContent sample_env |} in
  let w := run [ClickStart sample_start; DataAvailable sample_blob;
                ClickStop] init in
  status w = PROCESSING /\
  status (step (RecorderStopped genv) w) = COMPLETED /\
  geminiAnalysis (step (RecorderStopped genv) w)
  = Some GeminiService.error_message.
Proof.
  split; [reflexivity |].
  apply (failed_analysis_is_completed
           {| GeminiService.API_KEY := None;
              GeminiService.readAsDataURL :=
                GeminiService.readAsDataURL sample_env;
              GeminiService.generateContent :=
                GeminiService.generateContent sample_env |}
           {| stream := 7; state := inactive; onstop := Some JUndefined;
              stop_queued := true |}
           JUndefined
           (run [ClickStart sample_start; DataAvailable sample_blob;
                 ClickStop] init));
    reflexivity.
Defined.

(** *** The chunks *)

(** X12. A start that succeeds empties the chunks.  Whatever happens
    afterwards short of another start (animation frames, painting, the
    stop button, the [stop] event of the recorder), the chunks are the
    data delivered since, in its order of arrival, the empty blobs left
    out: nothing of an earlier recording goes into the blob of this one. *)
Theorem recorded_chunks (env : StartEnv) (stream : MediaStream)
  (evs : list Event) (w : World) :
  status w <> RECORDING -> status w <> PROCESSING ->
  isSpeakingInstructions w = false ->
  analyzer_start env = Fulfilled stream ->
  new_MediaRecorder_throws env = None ->
  recorder_start_throws env = None ->
  forallb (fun e => negb (is_start e)) evs = true ->
  let w' := run (ClickStart env :: evs) w in
  let kept := filter (fun d => Nat.ltb 0 (blob_size d)) (data_of evs) in
  chunksRef w' = kept /\
  new_Blob (chunksRef w') "audio/webm"
  = {| blob_type := "audio/webm";
       blob_bytes := List.concat (map blob_bytes kept) |}.
Proof.
  intros Hnr Hnp Hsp Ha Hc Hs Hno w' kept.
  assert (Hchunks : chunksRef w' = kept).
  { subst w' kept.
    change (run (ClickStart env :: evs) w)
      with (run evs (step (ClickStart env) w)).
    rewrite (step_start_enabled env w Hnr Hnp Hsp).
    destruct (start_started env stream w Ha Hc Hs) as (_ & B & C & _).
    destruct (chunks_run evs _ _ B Hno) as [_ D].
    rewrite D, C. reflexivity. }
  split; [exact Hchunks |]. rewrite Hchunks. reflexivity.
Qed.

Lemma recorded_chunks_witness :
  let empty := {| blob_type := "audio/webm"; blob_bytes := [] |} in
  let w := run [ClickStart sample_start; ClickStop; DataAvailable sample_blob;
                RecorderStopped sample_env] init in
  chunksRef w = [sample_blob] /\
  chunksRef (run [ClickStart sample_start; AnimationFrame;
                  DataAvailable empty; ClickStop; DataAvailable sample_blob;
                  RecorderStopped sample_env; DataAvailable empty] w)
  = [sample_blob].
Proof.
  split; [reflexivity |].
  apply (recorded_chunks sample_start 7
           [AnimationFrame;
            DataAvailable {| blob_type := "audio/webm"; blob_bytes := [] |};
            ClickStop; DataAvailable sample_blob;
            RecorderStopped sample_env;
            DataAvailable {| blob_type := "audio/webm"; blob_bytes := [] |}]
           (run [ClickStart sample_start; ClickStop;
                 DataAvailable sample_blob; RecorderStopped sample_env]
              init));
    try reflexivity; discriminate.
Defined.

(** *** A start that fails after the microphone was granted *)

Lemma log_setStatus_idle (w : World) :
  exists l, log (setStatus IDLE w) = log w ++ SetStatus IDLE :: l /\
            forallb is_cancel l = true.
Proof. apply (setStatus_not_recording IDLE w). discriminate. Qed.

(** X13. When the microphone was granted and the recorder cannot be made
    or cannot start, the flow reports the error, says the instructions are
    over and sets the status to [IDLE]; but it has started the analyzer
    and does not stop it. *)
Theorem late_start_failure_keeps_analyzer (env : StartEnv)
  (stream : MediaStream) (e : JsError) (w : World) :
  analyzer_start env = Fulfilled stream ->
  new_MediaRecorder_throws env = Some e \/
  (new_MediaRecorder_throws env = None /\
   recorder_start_throws env = Some e) ->
  let w' := snd (startAnalysisFlow env w) in
  status w' = IDLE /\ isSpeakingInstructions w' = false /\
  exists l,
    log w' = log w ++ l /\
    In AnalyzerStart l /\ ~ In AnalyzerStop l /\
    In (ConsoleError "Error flow:" e) l /\
    In (Alert start_error_message) l.
Proof.
  intros Ha Hthrow w'. subst w'.
  destruct Hthrow as [Hc | [Hc Hs]].
  - destruct (start_constructor_threw env stream e w Ha Hc)
      as (A & _ & _ & _ & B).
    split; [exact A |]. split; [exact B |].
    rewrite (startAnalysisFlow_constructor_throws env stream e w Ha Hc).
    simpl.
    match goal with
    | |- context [setStatus IDLE ?X] =>
        destruct (log_setStatus_idle X) as [l [Hl Pl]]; rewrite Hl;
        replace (log X)
          with (log (instructed stream w)
                  ++ [ConsoleError "Error flow:" e;
                      Alert start_error_message])
          by (destruct (instructed stream w); simpl;
              rewrite <- app_assoc; reflexivity)
    end.
    destruct (fields_instructed stream w) as (_ & _ & _ & _ & _ & ->).
    rewrite <- !app_assoc. eexists. split; [reflexivity |].
    simpl. repeat split; auto 12.
    intros H.
    repeat (destruct H as [H | H]; [discriminate |]).
    exact (cancels_not_in l AnalyzerStop Pl eq_refl H).
  - destruct (start_start_threw env stream e w Ha Hc Hs)
      as (A & _ & _ & _ & B).
    split; [exact A |]. split; [exact B |].
    rewrite (startAnalysisFlow_start_throws env stream e w Ha Hc Hs).
    simpl.
    match goal with
    | |- context [setStatus IDLE ?X] =>
        destruct (log_setStatus_idle X) as [l [Hl Pl]]; rewrite Hl;
        replace (log X)
          with (log (instructed stream w)
                  ++ [RecorderStart; ConsoleError "Error flow:" e;
                      Alert start_error_message])
          by (destruct (instructed stream w); simpl;
              rewrite <- !app_assoc; reflexivity)
    end.
    destruct (fields_instructed stream w) as (_ & _ & _ & _ & _ & ->).
    rewrite <- !app_assoc. eexists. split; [reflexivity |].
    simpl. repeat split; auto 12.
    intros H.
    repeat (destruct H as [H | H]; [discriminate |]).
    exact (cancels_not_in l AnalyzerStop Pl eq_refl H).
Qed.

Lemma late_start_failure_keeps_analyzer_witness :
  let env := {| analyzer_start := Fulfilled 7;
                new_MediaRecorder_throws := Some "NotSupportedError";
                recorder_start_throws := None |} in
  status (snd (startAnalysisFlow env init)) = IDLE /\
  isSpeakingInstructions (snd (startAnalysisFlow env init)) = false.
Proof.
  destruct (late_start_failure_keeps_analyzer
              {| analyzer_start := Fulfilled 7;
                 new_MediaRecorder_throws := Some "NotSupportedError";
                 recorder_start_throws := None |}
              7 "NotSupportedError" init eq_refl (or_introl eq_refl))
    as (A & B & _).
  split; [exact A | exact B].
Defined.

(** X14. A second stop request is harmless: once [stopRecording] has
    stopped the recorder, calling it again only cancels the speech.  It
    reads no canvas, does not call [stop()] on the inactive recorder and
    leaves the status alone. *)
Theorem second_stop_is_harmless (r : MediaRecorder) (w : World) :
  mediaRecorderRef w = Some r -> state r <> inactive ->
  let w1 := snd (stopRecording w) in
  stopRecording w1 = (Fulfilled tt, emit SpeechSynthesisCancel w1).
Proof.
  intros Hr Hs w1.
  destruct (stop_active r w Hr Hs) as (_ & B & _). fold w1 in B.
  apply (stopRecording_inactive _ w1 B). reflexivity.
Qed.

Lemma second_stop_is_harmless_witness :
  let w := run [ClickStart sample_start] init in
  let w1 := snd (stopRecording w) in
  captures (log (snd (stopRecording w1))) = 1 /\
  status (snd (stopRecording w1)) = PROCESSING.
Proof.
  cbv zeta.
  rewrite (second_stop_is_harmless (fresh_recorder 7 recording)
             (run [ClickStart sample_start] init) eq_refl);
    [split; reflexivity | discriminate].
Defined.

(** *** Ticks and what they publish *)

Lemma count_app (p : Effect -> bool) (l1 l2 : list Effect) :
  count p (l1 ++ l2) = count p l1 + count p l2.
Proof. unfold count. rewrite filter_app, length_app. reflexivity. Qed.

Lemma count_none (p q : Effect -> bool) (l : list Effect) :
  (forall e, q e = true -> p e = false) ->
  forallb q l = true -> count p l = 0.
Proof.
  intros Hpq. induction l as [| e l IH]; simpl; [reflexivity |].
  intros H. apply andb_true_iff in H. destruct H as [He Hl].
  unfold count in *. simpl. rewrite (Hpq e He). auto.
Qed.

Lemma paced_run (p : Effect -> bool) :
  (forall e, quiet_effect e = true -> p e = false) ->
  (forall e, silent_effect e = true -> p e = false) ->
  (forall w, count p (log (tick w)) = S (count p (log w))) ->
  forall evs w, paced p w (run evs w).
Proof.
  intros Hq Hs Ht evs w. apply R_run; unfold paced.
  - intros w0. lia.
  - intros w1 w2 w3 H1 H2. lia.
  - intros w1 w2 (_ & _ & _ & _ & _ & l & Hl & Pl).
    rewrite Hl, ticks_app, count_app, (quiet_effects_no_tick l Pl),
      (count_none p quiet_effect l Hq Pl). lia.
  - intros w1 w2 (_ & l & Hl & Pl).
    rewrite Hl, ticks_app, count_app, (count_none p silent_effect l Hs Pl).
    destruct (silent_effects_no_tick l Pl) as [-> _]. lia.
  - intros w0. rewrite ticks_tick, Ht. lia.
Qed.

(** X15. In every run the component has called [setMetrics],
    [setFrequencyData] and [requestAnimationFrame] once per tick and
    never outside a tick. *)
Theorem publishes_once_per_tick (evs : list Event) :
  let l := log (run evs init) in
  count is_setMetrics l = ticks l /\
  count is_setFrequencyData l = ticks l /\
  count is_request l = ticks l.
Proof.
  intros l. subst l.
  assert (H : forall p,
            (forall e, quiet_effect e = true -> p e = false) ->
            (forall e, silent_effect e = true -> p e = false) ->
            (forall w, count p (log (tick w)) = S (count p (log w))) ->
            count p (log (run evs init)) = ticks (log (run evs init))).
  { intros p Hq Hs Ht. pose proof (paced_run p Hq Hs Ht evs init) as H.
    unfold paced in H.
    change (log init) with (@nil Effect) in H.
    change (count p []) with 0 in H. change (ticks []) with 0 in H. lia. }
  repeat split; apply H;
    try (intros e He; destruct e; try reflexivity; cbv in He;
         discriminate He);
    intros w; unfold tick; cbn [log]; rewrite count_app;
    rewrite Nat.add_comm; reflexivity.
Qed.

(** *** A whole session *)

Lemma requests_setStatus (s : AnalysisStatus) (w : World) :
  analysis_requests (log (setStatus s w)) = analysis_requests (log w).
Proof.
  apply (same_captures_loop_change w (setStatus s w)
           (loop_change_setStatus s w)).
Qed.

Lemma requests_start (env : StartEnv) (stream : MediaStream) (w : World) :
  analyzer_start env = Fulfilled stream ->
  new_MediaRecorder_throws env = None ->
  recorder_start_throws env = None ->
  analysis_requests (log (snd (startAnalysisFlow env w)))
  = analysis_requests (log w).
Proof.
  intros Ha Hc Hs.
  rewrite (startAnalysisFlow_started env stream w Ha Hc Hs). simpl.
  rewrite requests_setStatus.
  match goal with
  | |- analysis_requests (log ?X) = _ =>
      replace (log X) with (log (instructed stream w) ++ [RecorderStart])
        by (destruct (instructed stream w); reflexivity)
  end.
  destruct (fields_instructed stream w) as (_ & _ & _ & _ & _ & ->).
  rewrite !analysis_requests_app. simpl. rewrite !app_nil_r. reflexivity.
Qed.

Lemma requests_stop (r : MediaRecorder) (w : World) :
  mediaRecorderRef w = Some r -> state r <> inactive ->
  analysis_requests (log (snd (stopRecording w)))
  = analysis_requests (log w).
Proof.
  intros Hr Hs. rewrite (stopRecording_active r w Hr Hs). simpl.
  replace (log (set_mediaRecorderRef
                  (Some (stopped_recorder r (Some (spectrogramImage w))))
                  (setStatus PROCESSING (stopping r w))))
    with (log (setStatus PROCESSING (stopping r w)))
    by (destruct (setStatus PROCESSING (stopping r w)); reflexivity).
  rewrite requests_setStatus. unfold stopping. destruct w. simpl.
  rewrite !analysis_requests_app. simpl. rewrite !app_nil_r. reflexivity.
Qed.

Lemma requests_stop_event (genv : GeminiService.Env) (r : MediaRecorder)
  (image : JsValue) (w : World) :
  mediaRecorderRef w = Some r -> stop_queued r = true ->
  onstop r = Some image ->
  analysis_requests (log (step (RecorderStopped genv) w))
  = analysis_requests (log w)
      ++ [(new_Blob (chunksRef w) "audio/webm", or_undefined image)].
Proof.
  intros Hr Hq Ho. simpl.
  rewrite (recorder_stop_event_fires genv r image w Hr Hq Ho).
  rewrite performGeminiAnalysis_eq.
  set (blob := new_Blob (chunksRef w) "audio/webm").
  set (w0 := set_mediaRecorderRef _ w).
  assert (Hcalled :
    analysis_requests (log (analysis_called genv blob image w0))
    = analysis_requests (log w) ++ [(blob, or_undefined image)]).
  { subst w0. unfold analysis_called. destruct w. simpl.
    rewrite analysis_requests_app. reflexivity. }
  assert (Hset : forall a X,
    analysis_requests (log (setGeminiAnalysis a X))
    = analysis_requests (log X)).
  { intros a X. destruct (setGeminiAnalysis_fields a X)
      as (_ & _ & _ & _ & ->).
    rewrite analysis_requests_app. simpl. apply app_nil_r. }
  destruct (fst (GeminiService.analyzeAudioWithGemini genv blob
                   (or_undefined image) [])) as [text | e |]; simpl.
  - rewrite requests_setStatus, Hset. exact Hcalled.
  - rewrite requests_setStatus, Hset. exact Hcalled.
  - exact Hcalled.
Qed.

(** X21. A whole session.  From a state where the start button is
    enabled: a start that succeeds, any events but the stop button (frames,
    painting, data), the stop button, any events but the [stop] event of
    the recorder (the data of a recorder started without a timeslice comes
    here), and that [stop] event.  The canvas is read once, and one
    analysis request is made: its blob is the non-empty data of the whole
    session in its order, of type [audio/webm], and its image is the
    canvas as painted last before the stop button, whatever was painted
    before the start or after the stop.  The text the service is fulfilled
    with becomes the report, with the status [COMPLETED]. *)
Theorem session_end_to_end (env : StartEnv) (stream : MediaStream)
  (evs1 evs2 : list Event) (genv : GeminiService.Env) (w : World) :
  status w <> RECORDING -> status w <> PROCESSING ->
  isSpeakingInstructions w = false ->
  analyzer_start env = Fulfilled stream ->
  new_MediaRecorder_throws env = None ->
  recorder_start_throws env = None ->
  forallb (fun e => negb (is_stop e)) evs1 = true ->
  forallb (fun e => negb (is_stop_event e)) evs2 = true ->
  let w1 := run (ClickStart env :: evs1) w in
  let w2 := run (ClickStop :: evs2) w1 in
  let w3 := step (RecorderStopped genv) w2 in
  let blob :=
    new_Blob (filter (fun d => Nat.ltb 0 (blob_size d))
                (data_of (evs1 ++ evs2))) "audio/webm" in
  let image := or_undefined (painted evs1 (spectrogramImage w)) in
  status w1 = RECORDING /\ status w2 = PROCESSING /\
  captures (log w3) = S (captures (log w)) /\
  analysis_requests (log w3)
  = analysis_requests (log w) ++ [(blob, image)] /\
  (forall text,
     fst (GeminiService.analyzeAudioWithGemini genv blob image [])
     = Fulfilled text ->
     status w3 = COMPLETED /\ geminiAnalysis w3 = Some text).
Proof.
  intros Hnr Hnp Hsp Ha Hc Hs Hno1 Hno2 w1 w2 w3 blob image.
  set (w0 := snd (startAnalysisFlow env w)).
  set (r := fresh_recorder stream recording).
  assert (Hw1 : w1 = run evs1 w0).
  { subst w1 w0.
    change (run (ClickStart env :: evs1) w)
      with (run evs1 (step (ClickStart env) w)).
    rewrite (step_start_enabled env w Hnr Hnp Hsp). reflexivity. }
  destruct (start_started env stream w Ha Hc Hs) as (A0 & B0 & C0 & _).
  destruct (start_started_log env stream w Ha Hc Hs) as (I0 & K0 & Q0).
  fold w0 in A0, B0, C0, I0, K0, Q0. fold r in B0.
  destruct (recording_run r evs1 w0 eq_refl Hno1 A0 B0)
    as (A1 & B1 & C1 & I1 & K1 & Q1).
  rewrite <- Hw1 in A1, B1, C1, I1, K1, Q1.
  rewrite C0 in C1. rewrite I0 in I1. simpl in C1.
  assert (Hact : state r <> inactive) by discriminate.
  set (ws := snd (stopRecording w1)).
  assert (Hw2 : w2 = run evs2 ws).
  { subst w2 ws.
    change (run (ClickStop :: evs2) w1) with (run evs2 (step ClickStop w1)).
    simpl step. rewrite A1. reflexivity. }
  destruct (stop_active r w1 B1 Hact) as (As & Bs & Cs).
  pose proof (requests_stop r w1 B1 Hact) as Qs.
  pose proof (captures_stop r w1 B1 Hact) as Ks.
  fold ws in As, Bs, Cs, Qs, Ks.
  set (r1 := stopped_recorder r (Some (spectrogramImage w1))) in Bs.
  assert (Haw : awaiting r1 ws) by (split; assumption).
  destruct (awaiting_run r1 evs2 ws (no_stop_event_In evs2 Hno2) Haw)
    as [[A2 B2] [K2 Q2]].
  pose proof (awaiting_chunks_run r1 evs2 ws Hno2 Haw) as C2.
  rewrite <- Hw2 in A2, B2, K2, Q2, C2.
  pose proof (requests_stop_event genv r1 (spectrogramImage w1) w2 B2
                eq_refl eq_refl) as Q3.
  pose proof (captures_stop_event genv r1 (spectrogramImage w1) w2 B2
                eq_refl eq_refl) as K3.
  fold w3 in Q3, K3.
  assert (F3 : forall text,
            fst (GeminiService.analyzeAudioWithGemini genv
                   (new_Blob (chunksRef w2) "audio/webm")
                   (or_undefined (spectrogramImage w1)) [])
            = Fulfilled text ->
            status w3 = COMPLETED /\ geminiAnalysis w3 = Some text).
  { intros text Hp.
    destruct (stop_event_fields genv r1 (spectrogramImage w1) w2 B2
                eq_refl eq_refl) as (_ & _ & H).
    fold w3 in H. rewrite Hp in H. exact H. }
  assert (Hchunks : chunksRef w2
                    = filter (fun d => Nat.ltb 0 (blob_size d))
                        (data_of (evs1 ++ evs2))).
  { rewrite C2, Cs, C1, data_of_app, filter_app. reflexivity. }
  rewrite Hchunks, I1 in Q3, F3. fold blob in Q3, F3. fold image in Q3, F3.
  split; [exact A1 |]. split; [exact A2 |].
  split; [congruence |]. split; [| exact F3].
  rewrite Q3, Q2, Qs, Q1, Q0. reflexivity.
Qed.

Lemma session_end_to_end_witness :
  let w := run [CanvasPainted (JString "before")] init in
  let w3 := run [ClickStart sample_start; AnimationFrame;
                 CanvasPainted sample_image; ClickStop;
                 CanvasPainted (JString "later");
                 DataAvailable sample_blob; RecorderStopped sample_env] w in
  analysis_requests (log w3)
  = [(sample_blob, Some "data:image/png;base64,iVBORw0KGgo=")] /\
  status w3 = COMPLETED /\ geminiAnalysis w3 = Some "## Relatório".
Proof.
  destruct (session_end_to_end sample_start 7
              [AnimationFrame; CanvasPainted sample_image]
              [CanvasPainted (JString "later"); DataAvailable sample_blob]
              sample_env
              (run [CanvasPainted (JString "before")] init))
    as (_ & _ & _ & R & F); try reflexivity; try discriminate.
  split; [exact R |]. apply (F "## Relatório"). reflexivity.
Defined.

End AppExtras.

(** ** The spoken instructions *)

Module InstructionsFacts.

Import Instructions.

Section Voices.

Variable toLowerCase : string -> string.

Lemma find_filter {A : Type} (p q : A -> bool) (l : list A) :
  find p (filter q l) = find (fun x => q x && p x) l.
Proof.
  induction l as [| x l IH]; simpl; [reflexivity |].
  destruct (q x); simpl; [destruct (p x); auto | exact IH].
Qed.

Lemma hd_filter {A : Type} (q : A -> bool) (l : list A) :
  match filter q l with x :: _ => Some x | [] => None end = find q l.
Proof.
  induction l as [| x l IH]; simpl; [reflexivity |].
  destruct (q x); [reflexivity | exact IH].
Qed.

(** The selection in one pass: the first Portuguese voice with a female
    name, and failing that the first Portuguese voice. *)
Lemma selectVoice_find (cached fresh : list SpeechSynthesisVoice) :
  selectVoice toLowerCase cached fresh
  = let voices := match cached with [] => fresh | _ => cached end in
    match find (fun v => is_pt toLowerCase v && is_female toLowerCase v)
            voices with
    | Some v => Some v
    | None => find (is_pt toLowerCase) voices
    end.
Proof.
  unfold selectVoice. cbv zeta.
  rewrite find_filter, hd_filter. reflexivity.
Qed.

(** X16. The voice chosen for the instructions is one of the voices at
    hand (the cached list, or the fresh one when the cache is empty) and
    its language contains [pt]; none is chosen only when no such voice
    exists; and a voice without a female keyword in its name is chosen
    only when no Portuguese voice has one.  The utterance speaks in the
    language of the chosen voice, and in [pt-BR] without a voice. *)
Theorem selectVoice_spec (cached fresh : list SpeechSynthesisVoice) :
  let voices := match cached with [] => fresh | _ => cached end in
  let u := buildUtterance toLowerCase cached fresh in
  (forall v, voice u = Some v ->
     In v voices /\ is_pt toLowerCase v = true /\
     utterance_lang u = lang v /\
     (is_female toLowerCase v = false ->
      forall v', In v' voices -> is_pt toLowerCase v' = true ->
                 is_female toLowerCase v' = false)) /\
  (voice u = None ->
   utterance_lang u = "pt-BR" /\
   forall v', In v' voices -> is_pt toLowerCase v' = false).
Proof.
  intros voices u. subst u. unfold buildUtterance. simpl.
  rewrite selectVoice_find. cbv zeta. fold voices.
  destruct (find (fun v => is_pt toLowerCase v && is_female toLowerCase v)
              voices) as [v |] eqn:Hf.
  - split; [| discriminate].
    intros v0 H. injection H as <-.
    apply find_some in Hf. destruct Hf as [Hin Hb].
    apply andb_true_iff in Hb. destruct Hb as [Hpt Hfem].
    repeat split; auto. intros Hno. congruence.
  - destruct (find (is_pt toLowerCase) voices) as [v |] eqn:Hp.
    + split; [| discriminate].
      intros v0 H. injection H as <-.
      apply find_some in Hp. destruct Hp as [Hin Hpt].
      repeat split; auto.
      intros _ v' Hin' Hpt'.
      pose proof (find_none _ _ Hf v' Hin') as Hnone.
      cbv beta in Hnone. rewrite Hpt' in Hnone. exact Hnone.
    + split; [discriminate |]. intros _. split; [reflexivity |].
      intros v' Hin'. exact (find_none _ _ Hp v' Hin').
Qed.

End Voices.

(** *** The promise of the instructions *)

Lemma Wf_initial : Wf initial.
Proof.
  unfold Wf. simpl. repeat split; try constructor; try contradiction;
    discriminate.
Qed.

Lemma Wf_remove_timer (n : nat) (s : Speech) : Wf s -> Wf (remove_timer n s).
Proof. exact (fun H => H). Qed.

Lemma Wf_skipInstructions (s : Speech) : Wf s -> Wf (skipInstructions s).
Proof.
  intros (W1 & W2 & W3). unfold Wf, skipInstructions. simpl.
  destruct (instructionResolverRef s) as [k |] eqn:Hk.
  - destruct (W3 k eq_refl) as (Hc & Hnot & _).
    repeat split; try discriminate.
    + apply NoDup_app; [exact W1 | repeat constructor; auto |].
      intros x Hx [<- | []]. contradiction.
    + intros n Hn. apply in_app_or in Hn.
      destruct Hn as [Hn | [<- | []]]; [auto | lia].
  - repeat split; try discriminate; auto.
Qed.

Lemma Wf_speakInstructions (t : bool) (s : Speech) :
  Wf s -> Wf (speakInstructions t s).
Proof.
  intros (W1 & W2 & W3).
  assert (Hs1 : Wf {| isSpeakingInstructions := true;
                      instructionResolverRef := Some (calls s);
                      resolved := resolved s;
                      timers := timers s ++ [calls s];
                      calls := S (calls s);
                      cancelled := S (cancelled s) |}).
  { unfold Wf. simpl. repeat split.
    - exact W1.
    - intros n Hn. specialize (W2 n Hn). lia.
    - injection H as <-. reflexivity.
    - injection H as <-. intros Hin. specialize (W2 _ Hin). lia. }
  unfold speakInstructions. destruct t; [| exact Hs1].
  apply Wf_skipInstructions, Hs1.
Qed.

Lemma Wf_step (e : Event) (s : Speech) : Wf s -> Wf (step e s).
Proof.
  intros H. destruct e as [t | n | n | n |]; simpl.
  - apply Wf_speakInstructions, H.
  - destruct (existsb (Nat.eqb n) (timers s)); [| exact H].
    apply Wf_skipInstructions, Wf_remove_timer, H.
  - apply Wf_skipInstructions, Wf_remove_timer, H.
  - apply Wf_skipInstructions, Wf_remove_timer, H.
  - destruct (isSpeakingInstructions s); [| exact H].
    apply Wf_skipInstructions, H.
Qed.

Lemma Wf_run_from (evs : list Event) (s : Speech) : Wf s -> Wf (run evs s).
Proof.
  revert s. induction evs as [| e evs IH]; intros s H; simpl;
    [exact H | apply IH, Wf_step, H].
Qed.

(** X17. Whatever happens, each promise of [speakInstructions] is
    resolved at most once, and while a resolver is kept it is the one of
    the latest call, not yet resolved, with the instructions shown as
    being spoken. *)
Theorem resolved_at_most_once (evs : list Event) :
  let s := run evs initial in
  NoDup (resolved s) /\
  (forall n, In n (resolved s) -> n < calls s) /\
  (forall n, instructionResolverRef s = Some n ->
             S n = calls s /\ ~ In n (resolved s) /\
             isSpeakingInstructions s = true).
Proof. intros s. apply (Wf_run_from evs initial Wf_initial). Qed.


Lemma calls_step (e : Event) (s : Speech) : calls s <= calls (step e s).
Proof.
  destruct e as [t | n | n | n |]; simpl.
  - unfold speakInstructions. destruct t; simpl; lia.
  - destruct (existsb (Nat.eqb n) (timers s)); simpl; lia.
  - lia.
  - lia.
  - destruct (isSpeakingInstructions s); simpl; lia.
Qed.

Lemma resolved_skipInstructions (s : Speech) (n : nat) :
  In n (resolved (skipInstructions s)) ->
  In n (resolved s) \/ instructionResolverRef s = Some n.
Proof.
  unfold skipInstructions. simpl.
  destruct (instructionResolverRef s) as [k |]; [| auto].
  intros H. apply in_app_or in H.
  destruct H as [H | [<- | []]]; auto.
Qed.

Lemma resolved_step (e : Event) (s : Speech) (n : nat) :
  Wf s -> In n (resolved (step e s)) ->
  In n (resolved s) \/ calls s <= S n.
Proof.
  intros (W1 & W2 & W3) H.
  assert (Hskip : forall s0,
            resolved s0 = resolved s ->
            instructionResolverRef s0 = instructionResolverRef s ->
            In n (resolved (skipInstructions s0)) ->
            In n (resolved s) \/ calls s <= S n).
  { intros s0 Hr Hi Hn. apply resolved_skipInstructions in Hn.
    rewrite Hr, Hi in Hn. destruct Hn as [Hn | Hn]; [auto |].
    right. destruct (W3 n Hn) as [Hc _]. lia. }
  destruct e as [t | k | k | k |]; simpl in H.
  - unfold speakInstructions in H. destruct t; simpl in H; [| auto].
    apply in_app_or in H. destruct H as [H | [<- | []]]; [auto |].
    right. lia.
  - destruct (existsb (Nat.eqb k) (timers s)); [| auto].
    apply (Hskip (remove_timer k s)); auto.
  - apply (Hskip (remove_timer k s)); auto.
  - apply (Hskip (remove_timer k s)); auto.
  - destruct (isSpeakingInstructions s); [| auto].
    apply (Hskip s); auto.
Qed.

(** X18. A promise whose resolver was replaced by a later call of
    [speakInstructions] before it was resolved is never resolved: the
    start flow that awaits it never goes on. *)
Theorem replaced_promise_never_resolves (evs1 evs2 : list Event) (n : nat) :
  let s := run evs1 initial in
  S n < calls s -> ~ In n (resolved s) ->
  ~ In n (resolved (run evs2 s)).
Proof.
  intros s Hlate Hnot.
  assert (Hw : Wf s) by apply (Wf_run_from evs1 initial Wf_initial).
  clearbody s. revert s Hlate Hnot Hw.
  induction evs2 as [| e evs IH]; intros s Hlate Hnot Hw; simpl;
    [exact Hnot |].
  apply IH.
  - pose proof (calls_step e s). lia.
  - intros H. destruct (resolved_step e s n Hw H) as [H1 | H1];
      [contradiction | lia].
  - apply Wf_step, Hw.
Qed.

Lemma replaced_promise_never_resolves_witness :
  let evs1 := [Speak false; Speak false] in
  let evs2 := [TimerFires 0; UtteranceEnd 0; SkipClicked; TimerFires 1] in
  calls (run evs1 initial) = 2 /\
  resolved (run evs2 (run evs1 initial)) = [1] /\
  ~ In 0 (resolved (run evs2 (run evs1 initial))).
Proof.
  split; [reflexivity |]. split; [reflexivity |].
  apply (replaced_promise_never_resolves [Speak false; Speak false]
           [TimerFires 0; UtteranceEnd 0; SkipClicked; TimerFires 1] 0).
  - simpl. lia.
  - simpl. auto.
Defined.

(** As long as no other call is made, the promise of a call is resolved
    or its resolver is kept and its timer is pending. *)
Lemma waiting_step (e : Event) (s : Speech) (n : nat) :
  is_speak e = false ->
  In n (resolved s) \/
  (instructionResolverRef s = Some n /\ In n (timers s) /\
   isSpeakingInstructions s = true) ->
  In n (resolved (step e s)) \/
  (instructionResolverRef (step e s) = Some n /\ In n (timers (step e s)) /\
   isSpeakingInstructions (step e s) = true).
Proof.
  intros He H.
  assert (Hskip : forall s0,
            resolved s0 = resolved s ->
            instructionResolverRef s0 = instructionResolverRef s ->
            In n (resolved (skipInstructions s0))).
  { intros s0 Hr Hi. unfold skipInstructions. simpl. rewrite Hr, Hi.
    destruct H as [H | [H _]]; [| rewrite H; apply in_or_app; simpl; auto].
    destruct (instructionResolverRef s);
      [apply in_or_app; auto | exact H]. }
  destruct e as [t | k | k | k |]; simpl; try discriminate.
  - destruct (existsb (Nat.eqb k) (timers s)); [| exact H].
    left. apply (Hskip (remove_timer k s)); reflexivity.
  - left. apply (Hskip (remove_timer k s)); reflexivity.
  - left. apply (Hskip (remove_timer k s)); reflexivity.
  - destruct (isSpeakingInstructions s) eqn:Hf.
    + left. apply (Hskip s); reflexivity.
    + destruct H as [H | (_ & _ & H)]; [auto | congruence].
Qed.

(** X19. The safety timeout keeps its promise: when no other call of
    [speakInstructions] intervenes, the promise of a call is resolved at
    the latest when its timer fires, whatever the utterance does and
    whether or not [speak] throws. *)
Theorem timeout_resolves (t : bool) (evs : list Event) (s : Speech) :
  forallb (fun e => negb (is_speak e)) evs = true ->
  let n := calls s in
  In n (resolved (run (Speak t :: evs ++ [TimerFires n]) s)).
Proof.
  intros Hno n.
  change (run (Speak t :: evs ++ [TimerFires n]) s)
    with (run (evs ++ [TimerFires n]) (speakInstructions t s)).
  assert (H0 : In n (resolved (speakInstructions t s)) \/
               (instructionResolverRef (speakInstructions t s) = Some n /\
                In n (timers (speakInstructions t s)) /\
                isSpeakingInstructions (speakInstructions t s) = true)).
  { unfold speakInstructions. fold n. destruct t; simpl.
    - left. apply in_or_app. simpl. auto.
    - right. repeat split. apply in_or_app. simpl. auto. }
  clearbody n. generalize dependent (speakInstructions t s).
  clear s. intros s H0.
  revert s H0. induction evs as [| e evs IH]; intros s H0; simpl.
  - destruct H0 as [H0 | (Hr & Ht & _)].
    + destruct (existsb (Nat.eqb n) (timers s)); [| exact H0].
      unfold skipInstructions. simpl.
      destruct (instructionResolverRef s);
        [apply in_or_app; auto | exact H0].
    + assert (He : existsb (Nat.eqb n) (timers s) = true)
        by (apply existsb_exists; exists n; split;
            [exact Ht | apply Nat.eqb_refl]).
      rewrite He. unfold skipInstructions. simpl. rewrite Hr.
      apply in_or_app. simpl. auto.
  - simpl in Hno. apply andb_true_iff in Hno. destruct Hno as [He Hevs].
    apply IH; [exact Hevs |].
    apply waiting_step; [| exact H0].
    destruct (is_speak e); [discriminate | reflexivity].
Qed.

Lemma timeout_resolves_witness :
  resolved (run [Speak false; UtteranceError 3; TimerFires 0] initial)
  = [0] /\
  In 0 (resolved (run (Speak false :: [UtteranceError 3] ++ [TimerFires 0])
                    initial)).
Proof.
  split; [reflexivity |].
  apply (timeout_resolves false [UtteranceError 3] initial). reflexivity.
Defined.

(** X20. The skip button does not clear the safety timeout.  When the
    instructions of one call were skipped and a later call is speaking,
    the timer of the earlier call, when it fires, resolves the promise of
    the later call and ends its instructions. *)
Theorem stale_timer_skips_later_call (n : nat) (s : Speech) :
  In n (timers s) ->
  let s1 := step (Speak false) (step SkipClicked s) in
  let s2 := step (TimerFires n) s1 in
  In n (timers (step SkipClicked s)) /\
  instructionResolverRef s1 = Some (calls s) /\
  resolved s2 = resolved s1 ++ [calls s] /\
  isSpeakingInstructions s2 = false.
Proof.
  intros Hn.
  assert (Hskip : In n (timers (step SkipClicked s)) /\
                  calls (step SkipClicked s) = calls s).
  { simpl. destruct (isSpeakingInstructions s); split;
      solve [exact Hn | reflexivity]. }
  destruct Hskip as [Hskip Hcalls].
  generalize dependent (step SkipClicked s). intros x Hskip Hcalls s1 s2.
  split; [exact Hskip |].
  assert (Hs1 : instructionResolverRef s1 = Some (calls s) /\
                In n (timers s1)).
  { subst s1. simpl. rewrite Hcalls.
    split; [reflexivity |]. apply in_or_app. left. exact Hskip. }
  destruct Hs1 as [Hr Ht]. split; [exact Hr |].
  clearbody s1. subst s2.
  assert (He : existsb (Nat.eqb n) (timers s1) = true)
    by (apply existsb_exists; exists n; split;
        [exact Ht | apply Nat.eqb_refl]).
  unfold step. rewrite He. unfold skipInstructions. simpl. rewrite Hr. auto.
Qed.

Lemma stale_timer_skips_later_call_witness :
  let s := run [Speak false] initial in
  resolved (run [SkipClicked; Speak false; TimerFires 0] s) = [0; 1].
Proof.
  destruct (stale_timer_skips_later_call 0 (run [Speak false] initial))
    as (_ & _ & H & _).
  - simpl. auto.
  - exact H.
Defined.

End InstructionsFacts.
